(** * Orbital Task Engine: the simulated execution engine of [src/App.jsx]

    A shallow embedding of the class [TaskExecutionEngine] (subscriber set,
    [notify], [executeDAG], [updateMetrics]) and the properties of its runs.
    Parts V and VI cover more of the engine and the code of the application
    around it: the callback the component [OrbitalTaskEngine] subscribes,
    with [getEventMessage]; the drawing made by [DAGVisualizer]; the sample
    data of the charts of [MetricsDashboard].

    - JavaScript Numbers are IEEE 754 binary64 values.  A finite Number is
      represented by the rational it denotes, and every arithmetic operation
      is the exact operation followed by rounding to nearest, ties to even
      ([Number.round53]).
    - [Math.random] and the clock ([Date.now], [new Date]) are oracles: a
      function from the position of the read to the value read, with the
      count of reads made so far kept in the state.
    - A subscriber callback is known by its identity; what it does when it is
      called (the unsubscribe closures it invokes, the exception it throws)
      is given by a table from identities to behaviours.
    - The [async] function is followed along its single path of control: an
      [await] of the timer is a point where the timer's delay is recorded. *)

From Stdlib Require Import ZArith QArith Qround Qminmax Qabs Qpower.
From Stdlib Require Import Lia Lqa Bool List String.
From Stdlib Require Import Floats.PrimFloat Floats.SpecFloat Floats.FloatOps.
From stdpp Require Import base option gmap strings pretty.
Import ListNotations.

Local Open Scope Z_scope.
Local Open Scope string_scope.
Local Open Scope list_scope.

(* ===================================================================== *)
(** * Part I: the program *)
(* ===================================================================== *)

(** ** JavaScript Numbers *)

Module Number.

(** [2^z] for any integer exponent. *)
Definition pow2 (z : Z) : Q := Qpower 2 z.

(** Nearest integer, ties to the even one. *)
Definition rne (q : Q) : Z :=
  let f := Qfloor q in
  match Qcompare (q - inject_Z f) (1 # 2) with
  | Lt => f
  | Gt => f + 1
  | Eq => if Z.even f then f else f + 1
  end.

(** [ilog2 x] is the binade of a positive [x]: [2^(ilog2 x) <= x < 2^(ilog2 x + 1)]. *)
Definition ilog2 (x : Q) : Z :=
  let e := Z.log2 (Qnum x) - Z.log2 (Zpos (Qden x)) in
  if Qle_bool (pow2 e) x then e else e - 1.

(** Exponent of the unit in the last place of binary64 at [x]: 53 bits of
    precision, and the fixed spacing [2^-1074] of the subnormal range. *)
Definition ulp_exp (x : Q) : Z := Z.max (ilog2 (Qabs x) - 52) (-1074).

(** Rounding of an exact result to binary64 (results stay far below the
    overflow threshold in this program, so no infinity is needed). *)
Definition round53 (x : Q) : Q :=
  if Qeq_bool x 0 then 0%Q
  else (inject_Z (rne (x / pow2 (ulp_exp x))) * pow2 (ulp_exp x))%Q.

Definition add (x y : Q) : Q := round53 (x + y).
Definition sub (x y : Q) : Q := round53 (x - y).
Definition mul (x y : Q) : Q := round53 (x * y).

(** [x > y] *)
Definition gt (x y : Q) : bool := negb (Qle_bool x y).

(** [Math.min], [Math.max] on two finite Numbers. *)
Definition Math_min (x y : Q) : Q := Qmin x y.
Definition Math_max (x y : Q) : Q := Qmax x y.

(** The Number denoted by a decimal literal of the source. *)
Definition literal (q : Q) : Q := round53 q.

(** The range of [Math.random]: a Number [r] with [0 <= r < 1]. *)
Definition unit_interval (r : Q) : Prop := (0 <= r /\ r < 1)%Q.

(** The largest binary64 value below 1, [1 - 2^-53] (printed by JavaScript
    as 0.9999999999999999). *)
Definition pred_one : Q := (1 - pow2 (-53))%Q.

(** The rational a finite machine float denotes (0 for the others), to
    compare [round53] with the machine's arithmetic. *)
Definition of_float (f : float) : Q :=
  match Prim2SF f with
  | S754_finite s m e => ((if s then -1 else 1) * inject_Z (Zpos m) * pow2 e)%Q
  | _ => 0%Q
  end.

(** [r * 50 + 25], [1000 + r * 2000], [r - 1] and [r + 0.5] come out the same
    in both arithmetics. *)
Definition same_as_machine (f : float) : bool :=
  Qeq_bool (add (mul (of_float f) 50) 25) (of_float (f * 50 + 25)%float)
  && Qeq_bool (add 1000 (mul (of_float f) 2000)) (of_float (1000 + f * 2000)%float)
  && Qeq_bool (sub (of_float f) 1) (of_float (f - 1)%float)
  && Qeq_bool (add (of_float f) (literal (1 # 2))) (of_float (f + 0.5)%float).

End Number.

(** ** Data model *)

(** An entry of a DAG's [tasks] array: [{ id, name, type, retries }]. *)
Record TaskDef := mkTaskDef {
  t_id : string;
  t_name : string;
  t_type : string;
  t_retries : Z
}.

(** A DAG of the catalogue: [{ id, name, description, version, tasks,
    dependencies }]. *)
Record DAG := mkDAG {
  d_id : string;
  d_name : string;
  d_description : string;
  d_version : string;
  d_tasks : list TaskDef;
  d_dependencies : list (string * list string)
}.

(** The object [taskExecution]: [{ id, status, startTime, retries }], to which
    the run adds [endTime] and [error]. *)
Record TaskExecution := mkTaskExecution {
  te_id : string;
  te_status : string;
  te_startTime : Z;
  te_retries : Z;
  te_endTime : option Z;
  te_error : option string
}.

(** A JavaScript object used as a map from property names to values: the
    properties in creation order; an assignment to an existing property keeps
    its place.  (The engine's [execution.tasks], whose property names are task
    ids.  The names are taken as ordinary names: the order JavaScript gives
    to integer-like names plays no part in what follows, and the accessor
    name [__proto__] is not treated apart.) *)
Definition Obj (V : Type) : Type := list (string * V).

Fixpoint prop_set {V} (k : string) (v : V) (o : Obj V) : Obj V :=
  match o with
  | [] => [(k, v)]
  | (k', v') :: o' =>
      if String.eqb k k' then (k, v) :: o' else (k', v') :: prop_set k v o'
  end.

Fixpoint prop_get {V} (k : string) (o : Obj V) : option V :=
  match o with
  | [] => None
  | (k', v') :: o' => if String.eqb k k' then Some v' else prop_get k o'
  end.

Definition keys {V} (o : Obj V) : list string := map fst o.
Definition values {V} (o : Obj V) : list V := map snd o.

(** The object [execution]: [{ id, dag, status, startTime, tasks, cost }], to
    which the run adds [error] and [endTime]. *)
Record Execution := mkExecution {
  ex_id : string;
  ex_dag : string;
  ex_status : string;
  ex_startTime : Z;
  ex_tasks : Obj TaskExecution;
  ex_cost : Q;
  ex_error : option string;
  ex_endTime : option Z
}.

(** The argument of [notify]: [{ type, execution, task }].  The fields
    [execution] and [task] refer to the objects the run keeps mutating; an
    [Event] holds their contents at the moment of the call, which is what a
    callback sees while it runs. *)
Record Event := mkEvent {
  ev_type : string;
  ev_execution : Execution;
  ev_task : option TaskExecution
}.

(** [this.metrics] *)
Record Metrics := mkMetrics {
  totalExecutions : Q;
  successRate : Q;
  avgExecutionTime : Q;
  activeWorkers : Q;
  queueDepth : Q
}.

(** ** The subscriber set *)

(** The identity of a callback (a function object). *)
Abbreviation Callback := nat (only parsing).

(** A JavaScript [Set] of callbacks, as ECMAScript defines it: the list of
    entries in insertion order, where [delete] leaves an empty slot ([None])
    in place of the entry and [add] appends. *)
Abbreviation SetData := (list (option Callback)) (only parsing).

Definition same_entry (c : Callback) (e : option Callback) : bool :=
  match e with
  | Some c' => Nat.eqb c c'
  | None => false
  end.

Definition Set_has (c : Callback) (s : SetData) : bool := existsb (same_entry c) s.

Definition Set_add (c : Callback) (s : SetData) : SetData :=
  if Set_has c s then s else s ++ [Some c].

Definition Set_delete (c : Callback) (s : SetData) : SetData :=
  map (fun e => if same_entry c e then None else e) s.

(** The entries a traversal of the whole set visits when nothing changes the
    set meanwhile. *)
Fixpoint Set_elements (s : SetData) : list Callback :=
  match s with
  | [] => []
  | Some c :: s' => c :: Set_elements s'
  | None :: s' => Set_elements s'
  end.

(** No callback occupies two slots: it holds of [new Set()] and [add] and
    [delete] keep it. *)
Definition Set_wf (s : SetData) : Prop := List.NoDup (Set_elements s).

(** ** The engine *)

(** An instance of [TaskExecutionEngine]. *)
Record Engine := mkEngine {
  executions : gmap string Execution;
  subscribers : SetData;
  metrics : Metrics
}.

(** [constructor()] *)
Definition constructor : Engine :=
  {| executions := ∅;
     subscribers := [];
     metrics := {| totalExecutions := 0;
                   successRate := 85;
                   avgExecutionTime := Number.literal (25 # 10);
                   activeWorkers := 3;
                   queueDepth := 5 |} |}.

(** [subscribe(callback)]: the engine after the call and the closure returned,
    [() => this.subscribers.delete(callback)], as the change it makes to the
    engine each time it is called. *)
Definition unsubscribe (callback : Callback) (this : Engine) : Engine :=
  {| executions := executions this;
     subscribers := Set_delete callback (subscribers this);
     metrics := metrics this |}.

Definition subscribe (callback : Callback) (this : Engine)
  : Engine * (Engine -> Engine) :=
  ({| executions := executions this;
      subscribers := Set_add callback (subscribers this);
      metrics := metrics this |},
   unsubscribe callback).

(** [updateMetrics(success)] *)
Definition updateMetrics (success : bool) (m : Metrics) : Metrics :=
  {| totalExecutions := Number.add (totalExecutions m) 1;
     successRate :=
       if success
       then Number.Math_min 95 (Number.add (successRate m) (Number.literal (1 # 2)))
       else Number.Math_max 70 (Number.sub (successRate m) 1);
     avgExecutionTime := avgExecutionTime m;
     activeWorkers := activeWorkers m;
     queueDepth := Number.Math_max 0 (Number.sub (queueDepth m) 1) |}.

(** ** Callbacks *)

(** What a callback does with the engine when it is called with an event: the
    unsubscribe closures it calls (each named by the callback it removes) and
    the exception it ends with, if any.  Callbacks of this development do not
    call [subscribe] while an event is being delivered. *)
Record Behaviour := mkBehaviour {
  unsubscribes : list Callback;
  throws : option string
}.

Definition silent : Behaviour := {| unsubscribes := []; throws := None |}.

Definition Code : Type := Callback -> Event -> Behaviour.

(** ** The state of a run *)

(** Everything a call of a method reads or writes: the engine ([this]), the
    two oracles with the number of reads made, the object held by the local
    variable [execution] of [executeDAG], and three records of what happened:
    the arguments of the calls of [notify], the calls of callbacks, and the
    delays handed to [setTimeout]. *)
Record World := mkWorld {
  this : Engine;
  random : nat -> Q;
  random_reads : nat;
  clock : nat -> Z;
  clock_reads : nat;
  execution : Execution;
  published : list Event;
  delivered : list (Callback * Event);
  timers : list Q
}.

Definition with_this (f : Engine -> Engine) (w : World) : World :=
  mkWorld (f (this w)) (random w) (random_reads w) (clock w) (clock_reads w)
          (execution w) (published w) (delivered w) (timers w).

Definition with_execution (f : Execution -> Execution) (w : World) : World :=
  mkWorld (this w) (random w) (random_reads w) (clock w) (clock_reads w)
          (f (execution w)) (published w) (delivered w) (timers w).

Definition with_executions (f : gmap string Execution -> gmap string Execution)
  (e : Engine) : Engine :=
  mkEngine (f (executions e)) (subscribers e) (metrics e).

Definition with_metrics (f : Metrics -> Metrics) (e : Engine) : Engine :=
  mkEngine (executions e) (subscribers e) (f (metrics e)).

Definition with_status (s : string) (e : Execution) : Execution :=
  mkExecution (ex_id e) (ex_dag e) s (ex_startTime e) (ex_tasks e) (ex_cost e)
              (ex_error e) (ex_endTime e).

Definition with_error (m : string) (e : Execution) : Execution :=
  mkExecution (ex_id e) (ex_dag e) (ex_status e) (ex_startTime e) (ex_tasks e)
              (ex_cost e) (Some m) (ex_endTime e).

Definition with_endTime (t : Z) (e : Execution) : Execution :=
  mkExecution (ex_id e) (ex_dag e) (ex_status e) (ex_startTime e) (ex_tasks e)
              (ex_cost e) (ex_error e) (Some t).

Definition with_task (k : string) (te : TaskExecution) (e : Execution) : Execution :=
  mkExecution (ex_id e) (ex_dag e) (ex_status e) (ex_startTime e)
              (prop_set k te (ex_tasks e)) (ex_cost e) (ex_error e) (ex_endTime e).

Definition te_with_status (s : string) (te : TaskExecution) : TaskExecution :=
  mkTaskExecution (te_id te) s (te_startTime te) (te_retries te) (te_endTime te)
                  (te_error te).

Definition te_with_endTime (t : Z) (te : TaskExecution) : TaskExecution :=
  mkTaskExecution (te_id te) (te_status te) (te_startTime te) (te_retries te)
                  (Some t) (te_error te).

Definition te_with_error (m : string) (te : TaskExecution) : TaskExecution :=
  mkTaskExecution (te_id te) (te_status te) (te_startTime te) (te_retries te)
                  (te_endTime te) (Some m).

(** ** Computations: state and exceptions *)

(** How a piece of code ends: normally with a value, or by an exception that
    carries a message. *)
Inductive Completion (A : Type) : Type :=
| Normal (a : A)
| Throw (message : string).
Arguments Normal {A} a.
Arguments Throw {A} message.

Definition M (A : Type) : Type := World -> Completion A * World.

Definition ret {A} (a : A) : M A := fun w => (Normal a, w).

Definition bind {A B} (m : M A) (k : A -> M B) : M B :=
  fun w =>
    match m w with
    | (Normal a, w') => k a w'
    | (Throw e, w') => (Throw e, w')
    end.

(** [throw new Error(message)] *)
Definition throw {A} (message : string) : M A := fun w => (Throw message, w).

(** [try { body } catch (error) { handler(error.message) }] *)
Definition try_catch {A} (body : M A) (handler : string -> M A) : M A :=
  fun w =>
    match body w with
    | (Normal a, w') => (Normal a, w')
    | (Throw e, w') => handler e w'
    end.

Declare Scope run_scope.
Delimit Scope run_scope with run.
Notation "x <- m ;; k" := (bind m (fun x => k))
  (at level 100, m at next level, right associativity) : run_scope.
Notation "m ;; k" := (bind m (fun _ => k))
  (at level 100, right associativity) : run_scope.
Local Open Scope run_scope.

(** [Math.random()] *)
Definition Math_random : M Q :=
  fun w =>
    (Normal (random w (random_reads w)),
     mkWorld (this w) (random w) (S (random_reads w)) (clock w) (clock_reads w)
             (execution w) (published w) (delivered w) (timers w)).

(** [Date.now()], and the time held by [new Date()]. *)
Definition Date_now : M Z :=
  fun w =>
    (Normal (clock w (clock_reads w)),
     mkWorld (this w) (random w) (random_reads w) (clock w) (S (clock_reads w))
             (execution w) (published w) (delivered w) (timers w)).

(** [await new Promise(resolve => setTimeout(resolve, delay))] *)
Definition await_timeout (delay : Q) : M unit :=
  fun w =>
    (Normal tt,
     mkWorld (this w) (random w) (random_reads w) (clock w) (clock_reads w)
             (execution w) (published w) (delivered w) (timers w ++ [delay])).

(** [const execution = { ... }]: the local variable receives a new object. *)
Definition new_execution (e : Execution) : M unit :=
  fun w => (Normal tt, with_execution (fun _ => e) w).

(** [this.executions.set(executionId, execution)] *)
Definition executions_set (executionId : string) : M unit :=
  fun w =>
    (Normal tt, with_this (with_executions (insert executionId (execution w))) w).

(** A change to the object [execution].  It is made after [executions_set],
    when the map [this.executions] holds the same object under its id, so the
    change shows there too. *)
Definition mutate (f : Execution -> Execution) : M unit :=
  fun w =>
    let e := f (execution w) in
    (Normal tt,
     with_this (with_executions (insert (ex_id e) e))
               (with_execution (fun _ => e) w)).

(** [this.updateMetrics(success)] as a step of a run. *)
Definition update_metrics (success : bool) : M unit :=
  fun w => (Normal tt, with_this (with_metrics (updateMetrics success)) w).

(** ** Delivery of events *)

Section Delivery.

Variable code : Code.

(** [callback(data)] *)
Definition call (callback : Callback) (data : Event) : M unit :=
  fun w =>
    let b := code callback data in
    let w' :=
      mkWorld (fold_left (fun e c => unsubscribe c e) (unsubscribes b) (this w))
              (random w) (random_reads w) (clock w) (clock_reads w)
              (execution w) (published w)
              (delivered w ++ [(callback, data)]) (timers w) in
    match throws b with
    | Some message => (Throw message, w')
    | None => (Normal tt, w')
    end.

(** [Set.prototype.forEach]: the entries are visited by index in the set as
    it is at that moment, an empty slot is skipped.  [n] is the number of
    slots left to visit: no callback adds an entry, so the number of slots
    stays what it was when the traversal began. *)
Fixpoint forEach (n : nat) (index : nat) (data : Event) : M unit :=
  match n with
  | O => ret tt
  | S n' =>
      fun w =>
        match nth_error (subscribers (this w)) index with
        | Some (Some callback) =>
            (call callback data ;; forEach n' (S index) data) w
        | Some None => forEach n' (S index) data w
        | None => (Normal tt, w)
        end
  end.

(** [notify(data)] *)
Definition notify (data : Event) : M unit :=
  fun w =>
    forEach (length (subscribers (this w))) 0 data
      (mkWorld (this w) (random w) (random_reads w) (clock w) (clock_reads w)
               (execution w) (published w ++ [data]) (delivered w) (timers w)).

(** [this.notify({ type, execution, task })] inside [executeDAG]. *)
Definition publish (type : string) (task : option TaskExecution) : M unit :=
  fun w => notify {| ev_type := type; ev_execution := execution w; ev_task := task |} w.

(** ** executeDAG *)

(** [taskExecution.field = ...]: the object is the one stored at
    [execution.tasks[task.id]]. *)
Definition set_task (te : TaskExecution) : M unit :=
  mutate (with_task (te_id te) te).

(** The body of [for (const task of dag.tasks) { ... }]. *)
Fixpoint for_tasks (tasks : list TaskDef) : M unit :=
  match tasks with
  | [] => ret tt
  | task :: rest =>
      startTime <- Date_now ;;
      let taskExecution :=
        {| te_id := t_id task; te_status := "running"; te_startTime := startTime;
           te_retries := 0; te_endTime := None; te_error := None |} in
      set_task taskExecution ;;
      publish "task_started" (Some taskExecution) ;;
      r <- Math_random ;;
      await_timeout (Number.add 1000 (Number.mul r 2000)) ;;
      r' <- Math_random ;;
      if Number.gt r' (Number.literal (15 # 100)) then
        let taskExecution := te_with_status "completed" taskExecution in
        set_task taskExecution ;;
        endTime <- Date_now ;;
        let taskExecution := te_with_endTime endTime taskExecution in
        set_task taskExecution ;;
        publish "task_completed" (Some taskExecution) ;;
        for_tasks rest
      else
        let taskExecution := te_with_status "failed" taskExecution in
        set_task taskExecution ;;
        endTime <- Date_now ;;
        let taskExecution := te_with_endTime endTime taskExecution in
        set_task taskExecution ;;
        let taskExecution := te_with_error "Task execution failed" taskExecution in
        set_task taskExecution ;;
        throw "Task failed"
  end.

(** [async executeDAG(dag)]: the value the returned promise is fulfilled
    with, or the exception it is rejected with. *)
Definition executeDAG (dag : DAG) : M Execution :=
  now <- Date_now ;;
  let executionId := pretty now in
  startTime <- Date_now ;;
  r <- Math_random ;;
  new_execution
    {| ex_id := executionId; ex_dag := d_id dag; ex_status := "running";
       ex_startTime := startTime; ex_tasks := [];
       ex_cost := Number.add (Number.mul r 50) 25;
       ex_error := None; ex_endTime := None |} ;;
  executions_set executionId ;;
  publish "execution_started" None ;;
  try_catch
    (for_tasks (d_tasks dag) ;;
     mutate (with_status "completed") ;;
     endTime <- Date_now ;;
     mutate (with_endTime endTime) ;;
     update_metrics true)
    (fun message =>
       mutate (with_status "failed") ;;
       mutate (with_error message) ;;
       endTime <- Date_now ;;
       mutate (with_endTime endTime) ;;
       update_metrics false) ;;
  publish "execution_completed" None ;;
  fun w => (Normal (execution w), w).

End Delivery.

(** ** The catalogue and test worlds *)

(** [SAMPLE_DAGS.data_pipeline] *)
Definition data_pipeline : DAG :=
  {| d_id := "data_pipeline";
     d_name := "Data Processing Pipeline";
     d_description := "ETL pipeline for customer data";
     d_version := "1.2.0";
     d_tasks :=
       [ mkTaskDef "extract" "Extract" "extract" 2;
         mkTaskDef "validate" "Validate" "validation" 1;
         mkTaskDef "transform" "Transform" "transformation" 3;
         mkTaskDef "load" "Load" "load" 2 ];
     d_dependencies :=
       [ ("validate", ["extract"]); ("transform", ["validate"]);
         ("load", ["transform"]) ] |}.


Definition no_execution : Execution :=
  mkExecution "" "" "" 0 [] 0 None None.

(** A world at the start of a call: the engine as given, the oracles at their
    first value, nothing published yet. *)
Definition world (e : Engine) (rnd : nat -> Q) (clk : nat -> Z) : World :=
  mkWorld e rnd 0 clk 0 no_execution [] [] [].

(** Callbacks that do nothing, and a callback (number 1) that calls the
    unsubscribe closure of another (number 2) whenever it is called. *)
Definition silent_code : Code := fun _ _ => silent.

Definition canceller : Code :=
  fun c _ => if Nat.eqb c 1 then {| unsubscribes := [2%nat]; throws := None |} else silent.

(** A callback (number 1) that throws. *)
Definition thrower : Code :=
  fun c _ => if Nat.eqb c 1 then {| unsubscribes := []; throws := Some "boom" |} else silent.

(** A callback (number 1) that throws when a task starts. *)
Definition late_thrower : Code :=
  fun c data =>
    if Nat.eqb c 1 && String.eqb (ev_type data) "task_started"
    then {| unsubscribes := []; throws := Some "boom" |}
    else silent.

(** An engine with the callbacks 1 and 2 subscribed, in that order. *)
Definition two_subscribers : Engine :=
  fst (subscribe 2%nat (fst (subscribe 1%nat constructor))).

(** Every task succeeds ([Math.random] always gives 0.5). *)
Definition world_ok : World :=
  world two_subscribers (fun _ => 1 # 2)%Q (fun i => 1700000000000 + Z.of_nat i).

(** The outcome sample of the second task (the fifth read of the random
    source) is 0.1: the second task fails. *)
Definition world_fail : World :=
  world two_subscribers (fun i => if Nat.eqb i 4 then 1 # 10 else 1 # 2)%Q
        (fun i => 1700000000000 + Z.of_nat i).

(** As [world_fail], with other values in the oracles past the fifth read of
    the random source and the seventh read of the clock. *)
Definition world_fail' : World :=
  world two_subscribers
        (fun i => if Nat.ltb i 5 then (if Nat.eqb i 4 then 1 # 10 else 1 # 2) else 0)%Q
        (fun i => if Nat.ltb i 7 then 1700000000000 + Z.of_nat i else 0).

(** [Math.random] gives the largest Number below 1. *)
Definition world_edge : World :=
  world two_subscribers (fun _ => Number.pred_one) (fun i => 1700000000000 + Z.of_nat i).

(** An event to deliver in the examples of [notify]. *)
Definition ping : Event := mkEvent "task_started" no_execution None.

(** ** The application around the engine *)

(** [SAMPLE_DAGS.ml_pipeline] *)
Definition ml_pipeline : DAG :=
  {| d_id := "ml_pipeline";
     d_name := "ML Training Pipeline";
     d_description := "Machine learning model training";
     d_version := "2.1.0";
     d_tasks :=
       [ mkTaskDef "data_prep" "Data Prep" "preprocessing" 2;
         mkTaskDef "train_model" "Train Model" "training" 1;
         mkTaskDef "validate_model" "Validate" "validation" 2;
         mkTaskDef "deploy_model" "Deploy" "deployment" 3 ];
     d_dependencies :=
       [ ("train_model", ["data_prep"]); ("validate_model", ["train_model"]);
         ("deploy_model", ["validate_model"]) ] |}.

(** [array.slice(-n)] and [array.slice(0, n)] for a count [n]. *)
Definition slice_last {A} (n : nat) (l : list A) : list A := skipn (length l - n) l.
Definition slice_first {A} (n : nat) (l : list A) : list A := firstn n l.

(** The message of the [TypeError] raised by reading a property of
    [undefined]; its text depends on the JavaScript engine and nothing here
    depends on it. *)
Definition TypeError : string := "TypeError".

(** The component [OrbitalTaskEngine]: the part of its state that the
    engine's events change, and the callback it subscribes. *)
Module OrbitalTaskEngine.

(** An entry of [logs]: [{ id, timestamp, message }]. *)
Record Log := mkLog {
  log_id : Z;
  log_timestamp : Z;
  log_message : string
}.

(** The state variables [currentExecution], [executions], [isExecuting] and
    [logs].  The state holds the object [event.execution] itself; its
    contents here are those the event carries. *)
Record State := mkState {
  currentExecution : option Execution;
  executions : list Execution;
  isExecuting : bool;
  logs : list Log
}.

(** The values given to [useState]. *)
Definition initial : State :=
  {| currentExecution := None; executions := []; isExecuting := false; logs := [] |}.

(** [getEventMessage(event)].  In the cases that read [event.task.id] an
    event without a task raises a [TypeError]. *)
Definition getEventMessage (event : Event) : Completion string :=
  if String.eqb (ev_type event) "execution_started" then
    Normal ("🚀 Started execution of DAG: " ++ ex_dag (ev_execution event))%string
  else if String.eqb (ev_type event) "execution_completed" then
    Normal ("✅ Completed execution with status: " ++ ex_status (ev_execution event))%string
  else if String.eqb (ev_type event) "task_started" then
    match ev_task event with
    | Some task => Normal ("▶️ Started task: " ++ te_id task)%string
    | None => Throw TypeError
    end
  else if String.eqb (ev_type event) "task_completed" then
    match ev_task event with
    | Some task => Normal ("✅ Completed task: " ++ te_id task)%string
    | None => Throw TypeError
    end
  else Normal "Unknown event".

(** The callback given to [engine.subscribe], as the change of the state its
    state updates make, in the order they are queued.  [id] and [timestamp]
    are the two readings of the clock the update of [logs] takes.  An
    [Event] always has its execution, so the last test, [event.execution],
    succeeds. *)
Definition on_event (id timestamp : Z) (event : Event) (s : State) : Completion State :=
  match getEventMessage event with
  | Throw e => Throw e
  | Normal message =>
      let logs' := slice_last 50 (logs s) ++ [mkLog id timestamp message] in
      Normal
        (if String.eqb (ev_type event) "execution_started" then
           {| currentExecution := Some (ev_execution event);
              executions := executions s;
              isExecuting := true;
              logs := logs' |}
         else if String.eqb (ev_type event) "execution_completed" then
           {| currentExecution := Some (ev_execution event);
              executions := ev_execution event :: slice_first 9 (executions s);
              isExecuting := false;
              logs := logs' |}
         else
           {| currentExecution := Some (ev_execution event);
              executions := executions s;
              isExecuting := isExecuting s;
              logs := logs' |})
  end.

(** The callback called with one event after the other; the clock of the
    log entries is read at positions [n], [n + 1], ... *)
Fixpoint on_events (clk : nat -> Z) (n : nat) (events : list Event) (s : State)
  : Completion State :=
  match events with
  | [] => Normal s
  | event :: rest =>
      match on_event (clk n) (clk (S n)) event s with
      | Normal s' => on_events clk (S (S n)) rest s'
      | Throw e => Throw e
      end
  end.

(** [logs.slice(-10).reverse()]: the entries of the log panel, top down. *)
Definition shown_logs (s : State) : list Log := rev (slice_last 10 (logs s)).

(** What the callback does with the engine: it calls no unsubscribe closure
    (the closure is called on logout, not during a delivery), and it throws
    what [getEventMessage] throws. *)
Definition behaviour (event : Event) : Behaviour :=
  {| unsubscribes := [];
     throws := match getEventMessage event with
               | Throw e => Some e
               | Normal _ => None
               end |}.

(** The table of callbacks of the application: its engine is private to the
    component and this callback is the only one subscribed to it. *)
Definition code : Code := fun _ event => behaviour event.

End OrbitalTaskEngine.

(** [x / y] for a divisor other than 0 (the divisors of this program are
    never 0), and [Math.floor]. *)
Definition Number_div (x y : Q) : Q := Number.round53 (x / y).
Definition Math_floor (x : Q) : Q := inject_Z (Qfloor x).

(** The component [MetricsDashboard]: the sample data of its charts. *)
Module MetricsDashboard.

(** An entry of [chartData]: [{ time, executions, success_rate, avg_time }]. *)
Record Point := mkPoint {
  time : Q;
  executions : Q;
  success_rate : Q;
  avg_time : Q
}.

(** The function given to [Array.from]: the entry at index [i]. *)
Definition point (i : nat) : M Point :=
  r1 <- Math_random ;;
  r2 <- Math_random ;;
  r3 <- Math_random ;;
  ret {| time := inject_Z (Z.of_nat i);
         executions := Number.add (Math_floor (Number.mul r1 20)) 10;
         success_rate := Number.add 80 (Number.mul r2 15);
         avg_time := Number.add 2 (Number.mul r3 3) |}.

(** [Array.from({ length }, (_, i) => f(i))], from index [i] on. *)
Fixpoint Array_from {A} (length : nat) (i : nat) (f : nat -> M A) : M (list A) :=
  match length with
  | O => ret []
  | S length' =>
      a <- f i ;;
      rest <- Array_from length' (S i) f ;;
      ret (a :: rest)
  end.

(** [chartData], computed at each rendering of the component. *)
Definition chartData : M (list Point) := Array_from 12 0 point.

End MetricsDashboard.

(** The component [DAGVisualizer]: the children its effect gives to the
    [svg] element, for a DAG and the value of [execution] (null before the
    first run). *)
Module DAGVisualizer.

(** An element with the attributes the effect sets.  A numeric attribute is
    kept as the Number it is computed as; [setAttribute] stores its decimal
    form. *)
Inductive Element : Type :=
| line (x1 y1 x2 y2 : Q) (stroke stroke_width : string)
| circle (cx cy : Q) (r fill stroke stroke_width : string)
| text (x y : Q) (text_anchor fill font_size : string) (font_weight : option string)
       (textContent : string).

Definition width : Q := 800.
Definition height : Q := 300.

(** [width / (dag.tasks.length + 1)] *)
Definition taskWidth (dag : DAG) : Q :=
  Number_div width (Number.add (inject_Z (Z.of_nat (length (d_tasks dag)))) 1).

(** [execution?.tasks?.[task.id]?.status || 'pending']: a missing record and
    an empty status both give 'pending'. *)
Definition taskStatus (execution : option Execution) (task : TaskDef) : string :=
  match execution with
  | Some ex =>
      match prop_get (t_id task) (ex_tasks ex) with
      | Some te => if String.eqb (te_status te) "" then "pending" else te_status te
      | None => "pending"
      end
  | None => "pending"
  end.

Definition fillColor (taskStatus : string) : string :=
  if String.eqb taskStatus "running" then "#3b82f6"
  else if String.eqb taskStatus "completed" then "#10b981"
  else if String.eqb taskStatus "failed" then "#ef4444"
  else "#e5e7eb".

(** The body of the first [forEach]: the connection that ends at the task of
    index [index]. *)
Definition connection (taskWidth : Q) (index : nat) : list Element :=
  match index with
  | O => []
  | S _ =>
      [ line (Number.mul taskWidth (inject_Z (Z.of_nat index)))
             (Number_div height 2)
             (Number.mul taskWidth (Number.add (inject_Z (Z.of_nat index)) 1))
             (Number_div height 2)
             "#4b5563" "2" ]
  end.

(** The body of the second [forEach]: the node of a task, its label
    ([task.name.substring(0, 8)]; the names of the catalogue are ASCII, where
    the characters JavaScript counts are the bytes counted here) and its
    name. *)
Definition node (taskWidth : Q) (execution : option Execution) (task : TaskDef)
  (index : nat) : list Element :=
  let x := Number.mul taskWidth (Number.add (inject_Z (Z.of_nat index)) 1) in
  let y := Number_div height 2 in
  [ circle x y "30" (fillColor (taskStatus execution task)) "#374151" "2";
    text x (Number.add y 5) "middle" "white" "12" (Some "bold")
         (String.substring 0 8 (t_name task));
    text x (Number.add y 50) "middle" "#374151" "10" None (t_name task) ].

(** [array.forEach((item, index) => ...)], from index [index] on, with the
    elements each call appends. *)
Fixpoint forEach {A} (f : A -> nat -> list Element) (index : nat) (l : list A)
  : list Element :=
  match l with
  | [] => []
  | a :: l' => f a index ++ forEach f (S index) l'
  end.

(** The children of the [svg] element after the effect. *)
Definition draw (dag : DAG) (execution : option Execution) : list Element :=
  forEach (fun _ index => connection (taskWidth dag) index) 0 (d_tasks dag)
  ++ forEach (fun task index => node (taskWidth dag) execution task index) 0 (d_tasks dag).

End DAGVisualizer.

(** ** More of the catalogue and test worlds *)

(** The same DAG with other names, types and retry counts of its tasks. *)
Definition with_task_details (f : TaskDef -> string * string * Z) (dag : DAG) : DAG :=
  mkDAG (d_id dag) (d_name dag) (d_description dag) (d_version dag)
        (map (fun t => mkTaskDef (t_id t) (fst (fst (f t))) (snd (fst (f t))) (snd (f t)))
             (d_tasks dag))
        (d_dependencies dag).

(** The engine of the application once its callback (number 0) is
    subscribed; the second task of the run fails. *)
Definition world_app : World :=
  world (fst (subscribe 0%nat constructor))
        (fun i => if Nat.eqb i 4 then 1 # 10 else 1 # 2)%Q
        (fun i => 1700000000000 + Z.of_nat i).

(** A clock for the log entries of the application. *)
Definition log_clock : nat -> Z := fun i => 1700000000000 + Z.of_nat i.

(* ===================================================================== *)
(** * Part II: vocabulary of the properties *)
(* ===================================================================== *)

Local Close Scope Z_scope.

(** ** Callbacks and events *)

(** No callback throws (the precondition the engine puts on subscribers). *)
Definition quiet (code : Code) : Prop := forall c data, throws (code c data) = None.

(** What identifies an event in a run: its type and the task it is about. *)
Definition event_view (e : Event) : string * option string :=
  (ev_type e, option_map te_id (ev_task e)).

(** The event types the engine publishes. *)
Definition event_types : list string :=
  ["execution_started"; "task_started"; "task_completed"; "execution_completed"].

(** The events [executeDAG] publishes in a call started in world [w]. *)
Definition events_of_run (code : Code) (dag : DAG) (w : World) : list Event :=
  skipn (length (published w)) (published (snd (executeDAG code dag w))).

(** The events of the loop when the tasks [pre] complete and the first task
    of [rest], if there is one, fails. *)
Definition task_events (pre rest : list TaskDef) : list (string * option string) :=
  flat_map (fun t => [("task_started", Some (t_id t)); ("task_completed", Some (t_id t))]) pre
  ++ match rest with
     | t :: _ => [("task_started", Some (t_id t))]
     | [] => []
     end.

Definition started_of_view (v : string * option string) : list string :=
  if String.eqb (fst v) "task_started"
  then match snd v with Some k => [k] | None => [] end
  else [].

(** The ids of the tasks whose start a list of events announces, in the order
    of the events. *)
Definition started_tasks (evs : list Event) : list string :=
  flat_map started_of_view (map event_view evs).

(** The callbacks called by [notify(data)] in world [w], in order. *)
Definition receivers (code : Code) (data : Event) (w : World) : list Callback :=
  map fst (skipn (length (delivered w)) (delivered (snd (notify code data w)))).

(** ** Task records *)

Definition task_status (ex : Execution) (k : string) : option string :=
  option_map te_status (prop_get k (ex_tasks ex)).

Definition task_error (ex : Execution) (k : string) : option string :=
  match prop_get k (ex_tasks ex) with
  | Some te => te_error te
  | None => None
  end.

Definition is_failed (te : TaskExecution) : bool := String.eqb (te_status te) "failed".

Definition failed_records (ex : Execution) : list TaskExecution :=
  List.filter is_failed (values (ex_tasks ex)).

(** Status and error message of each task record, by task id. *)
Definition summary (o : Obj TaskExecution) : Obj (string * option string) :=
  map (fun kv => (fst kv, (te_status (snd kv), te_error (snd kv)))) o.

Definition completed_record : string * option string := ("completed", None).
Definition failed_record : string * option string :=
  ("failed", Some "Task execution failed").

Definition complete_all (pre : list TaskDef) (o : Obj (string * option string))
  : Obj (string * option string) :=
  fold_left (fun o t => prop_set (t_id t) completed_record o) pre o.

(** The summary of [execution.tasks] after the loop, when the tasks [pre]
    complete and the first task of [rest], if there is one, fails. *)
Definition record_tasks (pre rest : list TaskDef) (o : Obj (string * option string))
  : Obj (string * option string) :=
  match rest with
  | t :: _ => prop_set (t_id t) failed_record (complete_all pre o)
  | [] => complete_all pre o
  end.

Definition completed_entry (t : TaskDef) : string * (string * option string) :=
  (t_id t, completed_record).
Definition failed_entry (t : TaskDef) : string * (string * option string) :=
  (t_id t, failed_record).

(** How the loop and the run end, from the tasks left when the loop stops. *)
Definition loop_completion (rest : list TaskDef) : Completion unit :=
  match rest with
  | [] => Normal tt
  | _ :: _ => Throw "Task failed"
  end.
Definition run_status (rest : list TaskDef) : string :=
  match rest with [] => "completed" | _ :: _ => "failed" end.
Definition run_error (rest : list TaskDef) : option string :=
  match rest with [] => None | _ :: _ => Some "Task failed" end.
Definition run_success (rest : list TaskDef) : bool :=
  match rest with [] => true | _ :: _ => false end.

(** The tasks that complete and the tasks left when the loop stops (the first
    of them, if any, is the task that fails), from the random source read
    from position [pos] on: each task reads it twice, for the delay and for
    the outcome. *)
Fixpoint split_at_failure (rnd : nat -> Q) (pos : nat) (tasks : list TaskDef)
  : list TaskDef * list TaskDef :=
  match tasks with
  | [] => ([], [])
  | t :: tl =>
      if Number.gt (rnd (S pos)) (Number.literal (15 # 100))
      then (t :: fst (split_at_failure rnd (S (S pos)) tl),
            snd (split_at_failure rnd (S (S pos)) tl))
      else ([], t :: tl)
  end.

(** ** Metrics *)

Definition rate_ok (m : Metrics) : Prop := (70 <= successRate m <= 95)%Q.

(** The metrics after a sequence of calls of [updateMetrics]. *)
Definition run_metrics (outcomes : list bool) (m : Metrics) : Metrics :=
  fold_left (fun m success => updateMetrics success m) outcomes m.

(** ** The order of a delivery, by slots *)

(** The callbacks a traversal calls, in order, from the slots still to visit
    and the callbacks removed since it began. *)
Fixpoint visit (code : Code) (data : Event) (gone : list Callback)
  (slots : list (option Callback)) : list Callback :=
  match slots with
  | [] => []
  | None :: rest => visit code data gone rest
  | Some c :: rest =>
      if existsb (Nat.eqb c) gone then visit code data gone rest
      else c :: match throws (code c data) with
                | Some _ => []
                | None => visit code data (gone ++ unsubscribes (code c data)) rest
                end
  end.

Definition delete_all (cs : list Callback) (s : SetData) : SetData :=
  fold_left (fun s c => Set_delete c s) cs s.

(** The three things a call of [notify] decides. *)
Definition completion_after (code : Code) (data : Event) (w : World) : Completion unit :=
  fst (notify code data w).
Definition subscribers_after (code : Code) (data : Event) (w : World) : SetData :=
  subscribers (this (snd (notify code data w))).
Definition delivered_after (code : Code) (data : Event) (w : World)
  : list (Callback * Event) :=
  delivered (snd (notify code data w)).

(** ** Relations between the world before and after a computation *)

Definition preserves {A} (R : World -> World -> Prop) (m : M A) : Prop :=
  forall w, R w (snd (m w)).

(** The oracles stay the same functions and are read forwards. *)
Record oracle_frame (w w' : World) : Prop := {
  of_random : random w' = random w;
  of_clock : clock w' = clock w;
  of_random_reads : random_reads w <= random_reads w';
  of_clock_reads : clock_reads w <= clock_reads w'
}.

(** What no step of a run changes once the object [execution] exists: the
    oracles themselves (only the positions of the reads move on, forwards) and
    the fields of [execution] set at its creation. *)
Record extends (w w' : World) : Prop := {
  ext_random : random w' = random w;
  ext_clock : clock w' = clock w;
  ext_random_reads : random_reads w <= random_reads w';
  ext_clock_reads : clock_reads w <= clock_reads w';
  ext_id : ex_id (execution w') = ex_id (execution w);
  ext_dag : ex_dag (execution w') = ex_dag (execution w);
  ext_startTime : ex_startTime (execution w') = ex_startTime (execution w);
  ext_cost : ex_cost (execution w') = ex_cost (execution w)
}.

(** What the loop over the tasks leaves alone: the run-level fields of
    [execution] and the metrics. *)
Record task_frame (w w' : World) : Prop := {
  tf_status : ex_status (execution w') = ex_status (execution w);
  tf_error : ex_error (execution w') = ex_error (execution w);
  tf_endTime : ex_endTime (execution w') = ex_endTime (execution w);
  tf_metrics : metrics (this w') = metrics (this w)
}.

(** What a delivery leaves alone: everything but the subscriber set and the
    records of calls. *)
Record hub_frame (w w' : World) : Prop := {
  hf_random : random w' = random w;
  hf_random_reads : random_reads w' = random_reads w;
  hf_clock : clock w' = clock w;
  hf_clock_reads : clock_reads w' = clock_reads w;
  hf_execution : execution w' = execution w;
  hf_timers : timers w' = timers w;
  hf_executions : executions (this w') = executions (this w);
  hf_metrics : metrics (this w') = metrics (this w);
  hf_slots : length (subscribers (this w')) = length (subscribers (this w))
}.

(** The map [this.executions] holds the object [execution] under its id. *)
Definition stored (w : World) : Prop :=
  executions (this w) !! ex_id (execution w) = Some (execution w).

Definition keeps_stored (w w' : World) : Prop := stored w -> stored w'.

(** ** Dependence on the oracles *)

(** Two worlds that differ at most in their oracles. *)
Definition with_oracles (r : nat -> Q) (c : nat -> Z) (w : World) : World :=
  mkWorld (this w) r (random_reads w) c (clock_reads w) (execution w)
          (published w) (delivered w) (timers w).

Definition same_but_oracles (w1 w2 : World) : Prop :=
  w2 = with_oracles (random w2) (clock w2) w1.

(** ... and whose oracles give the same values at the positions from the
    next read up to [N] (random source) and [K] (clock). *)
Record agree (N K : nat) (w1 w2 : World) : Prop := {
  ag_same : same_but_oracles w1 w2;
  ag_random : forall i, random_reads w1 <= i < N -> random w1 i = random w2 i;
  ag_clock : forall i, clock_reads w1 <= i < K -> clock w1 i = clock w2 i
}.

(** A computation whose result and effects depend on the oracles only
    through the values it reads. *)
Definition local {A} (m : M A) : Prop :=
  forall N K w1 w2,
    agree N K w1 w2 ->
    random_reads (snd (m w1)) <= N ->
    clock_reads (snd (m w1)) <= K ->
    fst (m w1) = fst (m w2) /\ agree N K (snd (m w1)) (snd (m w2)).

(** [executeDAG] after the creation of [execution]. *)
Definition executeDAG_rest (code : Code) (dag : DAG) : M Execution :=
  publish code "execution_started" None ;;
  try_catch
    (for_tasks code (d_tasks dag) ;;
     mutate (with_status "completed") ;;
     endTime <- Date_now ;;
     mutate (with_endTime endTime) ;;
     update_metrics true)
    (fun message =>
       mutate (with_status "failed") ;;
       mutate (with_error message) ;;
       endTime <- Date_now ;;
       mutate (with_endTime endTime) ;;
       update_metrics false) ;;
  publish code "execution_completed" None ;;
  fun w => (Normal (execution w), w).

(** ** The rest of the metrics, of the delivery and of a run *)

(** The success rate after an outcome, by the formulas of [updateMetrics]
    without rounding. *)
Definition exact_rate (r : Q) (success : bool) : Q :=
  if success then Qmin 95 (r + (1 # 2)) else Qmax 70 (r - 1).

(** How a traversal ends: normally, or with the exception of the callback
    that throws. *)
Fixpoint visit_completion (code : Code) (data : Event) (gone : list Callback)
  (slots : list (option Callback)) : Completion unit :=
  match slots with
  | [] => Normal tt
  | None :: rest => visit_completion code data gone rest
  | Some c :: rest =>
      if existsb (Nat.eqb c) gone then visit_completion code data gone rest
      else match throws (code c data) with
           | Some message => Throw message
           | None => visit_completion code data (gone ++ unsubscribes (code c data)) rest
           end
  end.


(** What a run leaves alone in the map [this.executions]: every entry under
    another id than its own. *)
Record store_frame (w w' : World) : Prop := {
  sf_id : ex_id (execution w') = ex_id (execution w);
  sf_others : forall k, k <> ex_id (execution w) ->
                executions (this w') !! k = executions (this w) !! k
}.

(** The delay of the timer of the task at index [i] of a run started in
    world [w], and the sample that decides its outcome: the run reads the
    random source once for the cost, then twice for each task. *)
Definition delay_sample (w : World) (i : nat) : Q :=
  random w (random_reads w + 1 + 2 * i).
Definition outcome_sample (w : World) (i : nat) : Q :=
  random w (random_reads w + 2 + 2 * i).

Definition delay_of (r : Q) : Q := Number.add 1000 (Number.mul r 2000).

(** [Math.random() > 0.15] *)
Definition passes (r : Q) : bool := Number.gt r (Number.literal (15 # 100)).

(** The index of the first of [n] samples, from index [i] on, that does not
    pass. *)
Fixpoint first_failure (sample : nat -> Q) (i n : nat) : option nat :=
  match n with
  | O => None
  | S n' => if passes (sample i) then first_failure sample (S i) n' else Some i
  end.



(** The task records of [execution] stay among the ids [ids]. *)
Definition keys_within (ids : list string) (w w' : World) : Prop :=
  incl (keys (ex_tasks (execution w))) ids -> incl (keys (ex_tasks (execution w'))) ids.

(** Every task record of [execution] has [retries] 0, after as before. *)
Definition keeps_retries (w w' : World) : Prop :=
  Forall (fun te => te_retries te = 0%Z) (values (ex_tasks (execution w))) ->
  Forall (fun te => te_retries te = 0%Z) (values (ex_tasks (execution w'))).

(** ** The application *)

(** The events [executeDAG] builds: a run-level event carries no task, a
    task-level event carries one. *)
Definition well_formed (e : Event) : bool :=
  match ev_task e with
  | None => String.eqb (ev_type e) "execution_started"
            || String.eqb (ev_type e) "execution_completed"
  | Some _ => String.eqb (ev_type e) "task_started"
              || String.eqb (ev_type e) "task_completed"
  end.

(** No callback throws when it is called with such an event. *)
Definition quiet_on_runs (code : Code) : Prop :=
  forall c data, well_formed data = true -> throws (code c data) = None.

(** The same callbacks without their exceptions. *)
Definition mute (code : Code) : Code :=
  fun c data => {| unsubscribes := unsubscribes (code c data); throws := None |}.

(** The events published between two worlds are all well formed. *)
Definition publishes_well_formed (w w' : World) : Prop :=
  exists evs, published w' = published w ++ evs /\ forallb well_formed evs = true.

(** The message the application logs for an event, the log entries it makes
    for a list of events, and the records of the runs that a list of events
    reports as ended, oldest first. *)
Definition message_of (e : Event) : string :=
  match OrbitalTaskEngine.getEventMessage e with
  | Normal m => m
  | Throw _ => ""
  end.

Fixpoint entries (clk : nat -> Z) (n : nat) (events : list Event)
  : list OrbitalTaskEngine.Log :=
  match events with
  | [] => []
  | e :: rest =>
      OrbitalTaskEngine.mkLog (clk n) (clk (S n)) (message_of e)
      :: entries clk (S (S n)) rest
  end.

Definition ended (events : list Event) : list Execution :=
  map ev_execution
      (List.filter (fun e => String.eqb (ev_type e) "execution_completed") events).

(** Every event published from [w] to [w'] was delivered to the callbacks
    [cs], in their order, and these are still the subscribers. *)
Definition delivers_to (cs : list Callback) (w w' : World) : Prop :=
  Set_elements (subscribers (this w)) = cs ->
  Set_elements (subscribers (this w')) = cs /\
  exists evs,
    published w' = published w ++ evs /\
    delivered w' = delivered w ++ flat_map (fun e => map (fun c => (c, e)) cs) evs.

(** A rational that is a Number: rounding leaves it as it is. *)
Definition is_Number (r : Q) : Prop := (Number.round53 r == r)%Q.

(** The ranges of the fields of a point of the charts. *)
Definition point_in_range (p : MetricsDashboard.Point) : Prop :=
  (exists k : Z, (MetricsDashboard.executions p == inject_Z k)%Q /\ (10 <= k <= 29)%Z) /\
  (80 <= MetricsDashboard.success_rate p <= 95)%Q /\
  (2 <= MetricsDashboard.avg_time p <= 5)%Q.

(** The fill colours of the nodes of a drawing, and the centres of its nodes,
    in order. *)
Definition fills (els : list DAGVisualizer.Element) : list string :=
  flat_map (fun e => match e with
                     | DAGVisualizer.circle _ _ _ fill _ _ => [fill]
                     | _ => []
                     end) els.

Definition centres (els : list DAGVisualizer.Element) : list (Q * Q) :=
  flat_map (fun e => match e with
                     | DAGVisualizer.circle cx cy _ _ _ _ => [(cx, cy)]
                     | _ => []
                     end) els.

(** The end points of the connections of a drawing, in order. *)
Definition segments (els : list DAGVisualizer.Element) : list ((Q * Q) * (Q * Q)) :=
  flat_map (fun e => match e with
                     | DAGVisualizer.line x1 y1 x2 y2 _ _ => [((x1, y1), (x2, y2))]
                     | _ => []
                     end) els.

Definition green : string := "#10b981".
Definition red : string := "#ef4444".
Definition grey : string := "#e5e7eb".

(** Two points with the same coordinates, and a segment that joins two
    points. *)
Definition same_point (p q : Q * Q) : Prop :=
  (fst p == fst q)%Q /\ (snd p == snd q)%Q.

Definition joins (s : (Q * Q) * (Q * Q)) (ends : (Q * Q) * (Q * Q)) : Prop :=
  same_point (fst s) (fst ends) /\ same_point (snd s) (snd ends).

(** The centre of the node of index [index], as the effect computes it. *)
Definition centre (dag : DAG) (index : nat) : Q * Q :=
  (Number.mul (DAGVisualizer.taskWidth dag) (Number.add (inject_Z (Z.of_nat index)) 1),
   Number_div DAGVisualizer.height 2).

(** The end points of the connection that ends at the node of index
    [index], as the effect computes them. *)
Definition segment_to (dag : DAG) (index : nat) : (Q * Q) * (Q * Q) :=
  ((Number.mul (DAGVisualizer.taskWidth dag) (inject_Z (Z.of_nat index)),
    Number_div DAGVisualizer.height 2),
   (Number.mul (DAGVisualizer.taskWidth dag) (Number.add (inject_Z (Z.of_nat index)) 1),
    Number_div DAGVisualizer.height 2)).

(* ===================================================================== *)
(** * Part III: facts *)
(* ===================================================================== *)

Arguments notify : simpl never.
Arguments completion_after : simpl never.
Arguments subscribers_after : simpl never.
Arguments delivered_after : simpl never.

(** ** Rounding *)

Section NumberFacts.

Import Number.
Local Open Scope Q_scope.

Lemma pow2_pos z : 0 < pow2 z.
Proof. apply Qpower_0_lt. reflexivity. Qed.

Lemma pow2_add a b : pow2 (a + b) == pow2 a * pow2 b.
Proof. apply Qpower_plus. discriminate. Qed.

Lemma pow2_inject k : (0 <= k)%Z -> pow2 k == inject_Z (2 ^ k).
Proof. intros Hk. unfold pow2. symmetry. apply (Zpower_Qpower 2 k Hk). Qed.

Lemma pow2_le a b : (a <= b)%Z -> pow2 a <= pow2 b.
Proof. intros H. apply Qpower_le_compat_l; [exact H | discriminate]. Qed.

Lemma rne_floor q : (Qfloor q <= rne q <= Qfloor q + 1)%Z.
Proof.
unfold rne. destruct (Qcompare _ _); [destruct (Z.even _) | |]; lia.
Qed.

Lemma rne_lower q m : inject_Z m <= q -> (m <= rne q)%Z.
Proof.
intros H. apply Qfloor_resp_le in H. rewrite Qfloor_Z in H.
pose proof (rne_floor q). lia.
Qed.

Lemma rne_upper q m : q <= inject_Z m -> (rne q <= m)%Z.
Proof.
intros H. pose proof (Qfloor_le q) as Hf.
assert (Hm : (Qfloor q <= m)%Z).
{ rewrite Zle_Qle. eapply Qle_trans; eassumption. }
unfold rne. destruct (Qcompare (q - inject_Z (Qfloor q)) (1 # 2)) eqn:Hc.
- apply Qeq_alt in Hc.
  assert (inject_Z (Qfloor q) < inject_Z m) by lra.
  rewrite <- Zlt_Qlt in H0. destruct (Z.even _); lia.
- exact Hm.
- apply Qgt_alt in Hc.
  assert (inject_Z (Qfloor q) < inject_Z m) by lra.
  rewrite <- Zlt_Qlt in H0. lia.
Qed.

Lemma ilog2_lower x : 0 < x -> pow2 (ilog2 x) <= x.
Proof.
intros Hx. unfold ilog2.
destruct (Qle_bool _ x) eqn:Hb.
- apply Qle_bool_iff. exact Hb.
- clear Hb. destruct x as [n d]. cbn [Qnum Qden].
  assert (Hn : (0 < n)%Z).
  { unfold Qlt in Hx. cbn in Hx. lia. }
  pose proof (Z.log2_spec n Hn) as [Ha _].
  pose proof (Z.log2_spec (Zpos d) (Pos2Z.is_pos d)) as [_ Hd].
  pose proof (Z.log2_nonneg n) as Ha0.
  pose proof (Z.log2_nonneg (Zpos d)) as Hb0.
  set (a := Z.log2 n) in *. set (b := Z.log2 (Zpos d)) in *.
  assert (Hq : n # d == inject_Z n / inject_Z (Zpos d)) by apply Qmake_Qdiv.
  rewrite Hq.
  apply Qle_shift_div_l; [ rewrite <- (Zlt_Qlt 0); lia |].
  apply Qle_trans with (pow2 (a - b - 1) * pow2 (b + 1)).
  + apply Qmult_le_l; [apply pow2_pos |].
    rewrite pow2_inject by lia. rewrite <- Zle_Qle. rewrite <- Z.add_1_r in Hd. lia.
  + rewrite <- pow2_add. replace (a - b - 1 + (b + 1))%Z with a by lia.
    rewrite pow2_inject by lia. rewrite <- Zle_Qle. exact Ha.
Qed.

Lemma Qabs_pos x : ~ x == 0 -> 0 < Qabs x.
Proof.
intros Hnz. destruct (Qlt_le_dec 0 (Qabs x)) as [H|H]; [exact H|].
exfalso. apply Hnz. apply Qabs_Qle_condition in H. lra.
Qed.

Lemma ulp_exp_small x : Qabs x < pow2 53 -> ~ x == 0 -> (ulp_exp x <= 0)%Z.
Proof.
intros Hlt Hnz. unfold ulp_exp.
pose proof (ilog2_lower _ (Qabs_pos x Hnz)) as Hl.
destruct (Z_le_gt_dec (ilog2 (Qabs x)) 52) as [Hle|Hgt]; [lia|].
exfalso. assert (pow2 53 <= pow2 (ilog2 (Qabs x))) by (apply pow2_le; lia).
lra.
Qed.

(** Integers are on the grid of every binade below [2^53]: rounding does not
  cross them. *)
Lemma scaled_integer (a : Z) (e : Z) :
(e <= 0)%Z -> inject_Z a / pow2 e == inject_Z (a * 2 ^ (- e)).
Proof.
intros He. rewrite inject_Z_mult, <- pow2_inject by lia.
unfold Qdiv. apply Qmult_comp; [reflexivity|].
unfold pow2. rewrite Qpower_opp. reflexivity.
Qed.

Lemma round53_lower (a : Z) (x : Q) :
Qabs x < pow2 53 -> inject_Z a <= x -> inject_Z a <= round53 x.
Proof.
intros Hlt Ha. unfold round53. destruct (Qeq_bool x 0) eqn:Hz.
- apply Qeq_bool_iff in Hz. lra.
- assert (Hnz : ~ x == 0) by (apply Qeq_bool_neq; exact Hz).
  pose proof (ulp_exp_small x Hlt Hnz) as He.
  pose proof (pow2_pos (ulp_exp x)) as Hu.
  set (u := pow2 (ulp_exp x)) in *.
  assert (Hs : (a * 2 ^ (- ulp_exp x) <= rne (x / u))%Z).
  { apply rne_lower. rewrite <- scaled_integer by exact He.
    apply Qmult_le_compat_r; [exact Ha|]. apply Qlt_le_weak, Qinv_lt_0_compat, Hu. }
  rewrite Zle_Qle in Hs. rewrite <- scaled_integer in Hs by exact He.
  fold u in Hs.
  apply Qle_trans with (inject_Z a / u * u).
  + rewrite Qmult_comm, Qmult_div_r; [apply Qle_refl | apply Qnot_eq_sym, Qlt_not_eq, Hu].
  + apply Qmult_le_compat_r; [exact Hs | lra].
Qed.

Lemma round53_upper (b : Z) (x : Q) :
Qabs x < pow2 53 -> x <= inject_Z b -> round53 x <= inject_Z b.
Proof.
intros Hlt Hb. unfold round53. destruct (Qeq_bool x 0) eqn:Hz.
- apply Qeq_bool_iff in Hz. lra.
- assert (Hnz : ~ x == 0) by (apply Qeq_bool_neq; exact Hz).
  pose proof (ulp_exp_small x Hlt Hnz) as He.
  pose proof (pow2_pos (ulp_exp x)) as Hu.
  set (u := pow2 (ulp_exp x)) in *.
  assert (Hs : (rne (x / u) <= b * 2 ^ (- ulp_exp x))%Z).
  { apply rne_upper. rewrite <- scaled_integer by exact He.
    apply Qmult_le_compat_r; [exact Hb|]. apply Qlt_le_weak, Qinv_lt_0_compat, Hu. }
  rewrite Zle_Qle in Hs. rewrite <- scaled_integer in Hs by exact He.
  fold u in Hs.
  apply Qle_trans with (inject_Z b / u * u).
  + apply Qmult_le_compat_r; [exact Hs | lra].
  + rewrite Qmult_comm, Qmult_div_r; [apply Qle_refl | apply Qnot_eq_sym, Qlt_not_eq, Hu].
Qed.

Lemma small_abs (x : Q) (lo hi : Z) :
inject_Z lo <= x -> x <= inject_Z hi ->
(- 2 ^ 53 < lo)%Z -> (hi < 2 ^ 53)%Z -> Qabs x < pow2 53.
Proof.
intros Hlo Hhi Hl Hh. rewrite pow2_inject by lia.
rewrite Zlt_Qlt in Hl, Hh. rewrite inject_Z_opp in Hl.
apply Qabs_case; intros; lra.
Qed.

Ltac grid_bound lo hi :=
first
  [ apply (round53_lower lo) | apply (round53_upper hi) ];
[ apply (small_abs _ lo hi);
  [ unfold inject_Z; lra | unfold inject_Z; lra | reflexivity | reflexivity ]
| unfold inject_Z; lra ].

Lemma cost_closed_range r :
unit_interval r -> 25 <= add (mul r 50) 25 <= 75.
Proof.
intros [H0 H1]. unfold add, mul.
assert (Hm : 0 <= round53 (r * 50) <= 50).
{ split.
  - change 0 with (inject_Z 0). grid_bound 0%Z 50%Z.
  - change 50 with (inject_Z 50). grid_bound 0%Z 50%Z. }
split.
- change 25 with (inject_Z 25). grid_bound 25%Z 75%Z.
- change 75 with (inject_Z 75). grid_bound 25%Z 75%Z.
Qed.

(** Without rounding the upper bound is strict. *)
Lemma cost_exact_range r : unit_interval r -> 25 <= r * 50 + 25 < 75.
Proof. intros [H0 H1]. split; lra. Qed.

Lemma pred_one_in_unit_interval : unit_interval pred_one.
Proof. split; vm_compute; [discriminate | reflexivity]. Qed.

Lemma cost_at_pred_one : add (mul pred_one 50) 25 == 75.
Proof. vm_compute. reflexivity. Qed.

(** The same computation on the machine's binary64 numbers. *)
Lemma cost_at_pred_one_binary64 :
PrimFloat.ltb 0x1.fffffffffffffp-1%float 1%float = true /\
PrimFloat.eqb (PrimFloat.add (PrimFloat.mul 0x1.fffffffffffffp-1%float 50%float) 25%float)
              75%float = true.
Proof. split; vm_compute; reflexivity. Qed.

(** [round53] against the machine's binary64 arithmetic, on the expressions
    of the engine, at some values of [Math.random] (among them the two
    largest Numbers below 1 and the smallest positive one). *)
Example round53_as_machine :
  forallb same_as_machine
    [ 0x1.999999999999ap-4; 0x1.3333333333333p-3; 0x1.3333333333333p-2; 0x1p-1;
      0x1.6666666666666p-1; 0x1.fffffffffffffp-1; 0x1.ffffffffffffep-1;
      0x1.f9add3739635fp-4; 0x1p-1074; 0x1.5555555555555p-2; 0 ]%float = true.
Proof. vm_compute. reflexivity. Qed.

Lemma half_literal : literal (1 # 2) == 1 # 2.
Proof. vm_compute. reflexivity. Qed.

Lemma updateMetrics_rate_ok success m : rate_ok m -> rate_ok (updateMetrics success m).
Proof.
unfold rate_ok. intros [Hlo Hhi]. destruct success; cbn [updateMetrics successRate].
- unfold Math_min, add. pose proof half_literal as Hh. split.
  + apply Q.min_glb; [lra |].
    change 70 with (inject_Z 70). apply round53_lower; [| unfold inject_Z; lra].
    apply (small_abs _ 70 96); unfold inject_Z; try lra; reflexivity.
  + apply Q.le_min_l.
- unfold Math_max, sub. split.
  + apply Q.le_max_l.
  + apply Q.max_lub; [lra |].
    change 95 with (inject_Z 95). apply round53_upper; [| unfold inject_Z; lra].
    apply (small_abs _ 69 95); unfold inject_Z; try lra; reflexivity.
Qed.

(** The queue depth is never negative after a call. *)
Lemma queueDepth_nonneg success m : 0 <= queueDepth (updateMetrics success m).
Proof. cbn [updateMetrics queueDepth]. apply Q.le_max_l. Qed.

(** C2. From the metrics of a new engine (success rate 85), after every
    finite sequence of calls of [updateMetrics] with any outcomes, the
    success rate lies in [70, 95]. *)
Theorem successRate_bounded (outcomes : list bool) :
70 <= successRate (run_metrics outcomes (metrics constructor)) <= 95.
Proof.
assert (H : forall m, rate_ok m -> rate_ok (run_metrics outcomes m)).
{ induction outcomes as [| b l IH]; intros m Hm; cbn; [exact Hm |].
  apply IH, updateMetrics_rate_ok, Hm. }
apply H. unfold rate_ok. cbn. split; discriminate.
Qed.

End NumberFacts.

(** ** Objects as maps *)

Lemma prop_get_set_same {V} k (v : V) o : prop_get k (prop_set k v o) = Some v.
Proof.
  induction o as [| [k0 v0] o IH]; cbn.
  - rewrite String.eqb_refl. reflexivity.
  - destruct (String.eqb k k0) eqn:E; cbn; rewrite ?String.eqb_refl, ?E; auto.
Qed.

Lemma prop_get_set_other {V} k k' (v : V) o :
  k <> k' -> prop_get k' (prop_set k v o) = prop_get k' o.
Proof.
  intros Hne. induction o as [| [k0 v0] o IH]; cbn.
  - destruct (String.eqb k' k) eqn:E; [apply String.eqb_eq in E; congruence | reflexivity].
  - destruct (String.eqb k k0) eqn:E; cbn.
    + apply String.eqb_eq in E. subst k0.
      destruct (String.eqb k' k) eqn:E'; [apply String.eqb_eq in E'; congruence | reflexivity].
    + rewrite IH. reflexivity.
Qed.

Lemma prop_set_fresh {V} k (v : V) o : ~ In k (keys o) -> prop_set k v o = o ++ [(k, v)].
Proof.
  unfold keys. induction o as [| [k0 v0] o IH]; cbn; intros H; [reflexivity |].
  destruct (String.eqb k k0) eqn:E.
  - apply String.eqb_eq in E. subst. tauto.
  - rewrite IH by tauto. reflexivity.
Qed.

Lemma prop_get_None {V} k (o : Obj V) : prop_get k o = None <-> ~ In k (keys o).
Proof.
  unfold keys. induction o as [| [k0 v0] o IH]; cbn; [tauto |].
  destruct (String.eqb k k0) eqn:E.
  - apply String.eqb_eq in E. split; [discriminate | intros H; exfalso; auto].
  - apply String.eqb_neq in E. rewrite IH. split; [intros H [H' | H']; auto | tauto].
Qed.

Lemma prop_get_In {V} k (v : V) o : prop_get k o = Some v -> In (k, v) o.
Proof.
  induction o as [| [k0 v0] o IH]; cbn; [discriminate |].
  destruct (String.eqb k k0) eqn:E; [| auto].
  apply String.eqb_eq in E. intros [= ->]. subst. auto.
Qed.

Lemma prop_set_values {V} (P : V -> Prop) k v (o : Obj V) :
  P v -> Forall P (values o) -> Forall P (values (prop_set k v o)).
Proof.
  intros Hv. induction o as [| [k0 v0] o IH]; cbn; intros H.
  - repeat constructor. exact Hv.
  - inversion H; subst. destruct (String.eqb k k0); cbn; constructor; auto.
Qed.

Lemma prop_get_app_last {V} k (v : V) o :
  ~ In k (keys o) -> prop_get k (o ++ [(k, v)]) = Some v.
Proof. intros H. rewrite <- prop_set_fresh by exact H. apply prop_get_set_same. Qed.


Lemma prop_get_summary k o :
  prop_get k (summary o) =
  option_map (fun te => (te_status te, te_error te)) (prop_get k o).
Proof.
  unfold summary. induction o as [| [k0 v0] o IH]; cbn; [reflexivity |].
  destruct (String.eqb k k0); [reflexivity | exact IH].
Qed.

Lemma prop_set_twice {V} k (v v' : V) o : prop_set k v (prop_set k v' o) = prop_set k v o.
Proof.
  induction o as [| [k0 v0] o IH]; cbn.
  - rewrite String.eqb_refl. reflexivity.
  - destruct (String.eqb k k0) eqn:E; cbn; rewrite ?E, ?String.eqb_refl; [reflexivity |].
    rewrite IH. reflexivity.
Qed.

Lemma summary_prop_set k te o :
  summary (prop_set k te o) = prop_set k (te_status te, te_error te) (summary o).
Proof.
  induction o as [| [k0 v0] o IH]; cbn; [reflexivity |].
  destruct (String.eqb k k0); cbn; [reflexivity | f_equal; exact IH].
Qed.

Lemma complete_all_fresh pre o :
  List.NoDup (keys o ++ map t_id pre) ->
  complete_all pre o = o ++ map completed_entry pre.
Proof.
  unfold complete_all. revert o. induction pre as [| t pre IH]; intros o H; cbn.
  - rewrite app_nil_r. reflexivity.
  - assert (Hf : ~ In (t_id t) (keys o)).
    { intros Hin. apply NoDup_remove_2 in H. apply H, in_or_app. auto. }
    rewrite (prop_set_fresh _ _ _ Hf), IH.
    + rewrite <- app_assoc. reflexivity.
    + unfold keys in *. rewrite map_app, <- app_assoc. exact H.
Qed.

Lemma record_tasks_fresh pre rest :
  List.NoDup (map t_id (pre ++ rest)) ->
  record_tasks pre rest [] =
  map completed_entry pre ++ match rest with t :: _ => [failed_entry t] | [] => [] end.
Proof.
  intros H. unfold record_tasks. rewrite map_app in H.
  rewrite complete_all_fresh by (cbn; apply NoDup_app_remove_r in H; exact H).
  cbn. destruct rest as [| t post]; [rewrite app_nil_r; reflexivity |].
  apply prop_set_fresh. cbn in H. apply NoDup_remove_2 in H.
  unfold keys. rewrite map_map. cbn. intros Hin. apply H, in_or_app. auto.
Qed.

Lemma complete_all_values pre o :
  Forall (eq completed_record) (values o) ->
  Forall (eq completed_record) (values (complete_all pre o)).
Proof.
  unfold complete_all. revert o. induction pre as [| t pre IH]; intros o H; cbn; [exact H |].
  apply IH, prop_set_values; auto.
Qed.

Lemma complete_all_keeps pre o k :
  prop_get k o = Some completed_record ->
  prop_get k (complete_all pre o) = Some completed_record.
Proof.
  unfold complete_all. revert o. induction pre as [| t pre IH]; intros o H; cbn; [exact H |].
  apply IH. destruct (string_dec (t_id t) k) as [E | E].
  - rewrite E. apply prop_get_set_same.
  - rewrite prop_get_set_other by exact E. exact H.
Qed.

Lemma complete_all_get pre o t :
  In t pre -> prop_get (t_id t) (complete_all pre o) = Some completed_record.
Proof.
  revert o. induction pre as [| t0 pre IH]; intros o; cbn; [tauto |].
  intros [-> | Hin]; [| apply IH, Hin].
  apply (complete_all_keeps pre), prop_get_set_same.
Qed.


Lemma failed_records_summary ex :
  length (failed_records ex) =
  length (List.filter (fun kv => String.eqb (fst (snd kv)) "failed") (summary (ex_tasks ex))).
Proof.
  unfold failed_records, values, summary, is_failed.
  induction (ex_tasks ex) as [| [k te] o IH]; cbn; [reflexivity |].
  destruct (String.eqb (te_status te) "failed"); cbn; [f_equal |]; exact IH.
Qed.

Lemma NoDup_later {A} (l1 : list A) x l2 y :
  List.NoDup (l1 ++ x :: l2) -> In y l2 -> ~ In y (l1 ++ [x]).
Proof.
  induction l1 as [| a l1 IH]; cbn; intros H Hy.
  - apply List.NoDup_cons_iff in H as [H _]. intros [-> | []]. auto.
  - apply List.NoDup_cons_iff in H as [Ha H]. intros [-> | Hin].
    + apply Ha, in_or_app. right. right. exact Hy.
    + exact (IH H Hy Hin).
Qed.

Lemma task_status_summary ex k :
  task_status ex k = option_map fst (prop_get k (summary (ex_tasks ex))).
Proof.
  unfold task_status. rewrite prop_get_summary. destruct (prop_get k (ex_tasks ex)); reflexivity.
Qed.

Lemma task_error_summary ex k :
  task_error ex k =
  match prop_get k (summary (ex_tasks ex)) with Some r => snd r | None => None end.
Proof.
  unfold task_error. rewrite prop_get_summary. destruct (prop_get k (ex_tasks ex)); reflexivity.
Qed.

Lemma prop_get_completed_entries pre t :
  In t pre -> forall tail, prop_get (t_id t) (map completed_entry pre ++ tail) = Some completed_record.
Proof.
  induction pre as [| t0 pre IH]; cbn; [tauto |].
  intros [-> | Hin] tail.
  - rewrite String.eqb_refl. reflexivity.
  - destruct (String.eqb (t_id t) (t_id t0)); [reflexivity | apply IH, Hin].
Qed.


Lemma events_of_run_view code dag w evs :
  map event_view (published (snd (executeDAG code dag w))) =
    map event_view (published w) ++ evs ->
  map event_view (events_of_run code dag w) = evs.
Proof.
  intros H. unfold events_of_run. rewrite <- skipn_map, H, skipn_app.
  rewrite skipn_all2 by (rewrite length_map; lia).
  rewrite length_map, Nat.sub_diag. reflexivity.
Qed.

Lemma task_events_types pre rest :
  Forall (fun v => In (fst v) event_types) (task_events pre rest).
Proof.
  unfold task_events. apply Forall_app. split.
  - induction pre as [| t pre IH]; cbn; [constructor |].
    constructor; [cbn; auto 6 |]. constructor; [cbn; auto 6 | exact IH].
  - destruct rest; constructor; [cbn; auto 6 | constructor].
Qed.

Lemma no_failed_when_completed (s : Obj (string * option string)) :
  Forall (eq completed_record) (values s) ->
  List.filter (fun kv => String.eqb (fst (snd kv)) "failed") s = [].
Proof.
  unfold values. induction s as [| [k r] s IH]; cbn; intros H; [reflexivity |].
  inversion H as [| ? ? Hr Hs]; subst. cbn. apply IH, Hs.
Qed.

(** ** The subscriber set *)

Lemma Set_elements_In c s : In c (Set_elements s) <-> In (Some c) s.
Proof.
  induction s as [| [c' |] s IH]; cbn.
  - tauto.
  - rewrite IH. split; intros [H | H]; auto; left; congruence.
  - rewrite IH. split; [auto | intros [H | H]; [discriminate | exact H]].
Qed.

Lemma Set_elements_app s1 s2 :
  Set_elements (s1 ++ s2) = Set_elements s1 ++ Set_elements s2.
Proof.
  induction s1 as [| [c |] s1 IH]; cbn; [reflexivity | f_equal; exact IH | exact IH].
Qed.

Lemma Set_has_In c s : Set_has c s = true <-> In (Some c) s.
Proof.
  unfold Set_has. rewrite existsb_exists. split.
  - intros ([c' |] & Hin & E); cbn in E; [| discriminate].
    apply Nat.eqb_eq in E. subst. exact Hin.
  - intros H. exists (Some c). split; [exact H | cbn; apply Nat.eqb_refl].
Qed.

Lemma Set_add_present c s : Set_has c s = true -> Set_add c s = s.
Proof. unfold Set_add. intros ->. reflexivity. Qed.

Lemma Set_has_add c s : Set_has c (Set_add c s) = true.
Proof.
  unfold Set_add. destruct (Set_has c s) eqn:E; [exact E |].
  apply Set_has_In, in_or_app. right. left. reflexivity.
Qed.

Lemma Set_add_wf c s : Set_wf s -> Set_wf (Set_add c s).
Proof.
  unfold Set_wf, Set_add. intros H. destruct (Set_has c s) eqn:E; [exact H |].
  rewrite Set_elements_app. cbn. apply List.NoDup_app.
  - exact H.
  - repeat constructor. intros [].
  - intros x Hx [<- | []].
    apply Set_elements_In, Set_has_In in Hx. congruence.
Qed.

Lemma Set_delete_gone c s : ~ In (Some c) (Set_delete c s).
Proof.
  unfold Set_delete. rewrite in_map_iff. intros ([c' |] & E & _); cbn in E.
  - destruct (Nat.eqb c c') eqn:N; [discriminate |].
    injection E as ->. rewrite Nat.eqb_refl in N. discriminate.
  - discriminate.
Qed.

Lemma Set_delete_twice c s : Set_delete c (Set_delete c s) = Set_delete c s.
Proof.
  unfold Set_delete. rewrite map_map. apply map_ext. intros [c' |]; cbn; [| reflexivity].
  destruct (Nat.eqb c c') eqn:N; cbn; rewrite ?N; reflexivity.
Qed.

Lemma existsb_eqb_In c l : existsb (Nat.eqb c) l = true <-> In c l.
Proof.
  rewrite existsb_exists. split.
  - intros (x & Hin & E). apply Nat.eqb_eq in E. subst. exact Hin.
  - intros H. exists c. split; [exact H | apply Nat.eqb_refl].
Qed.

(** ** What the steps of a run leave unchanged *)

Section Preserves.

Variable R : World -> World -> Prop.
Context `{!PreOrder R}.

Lemma preserves_ret {A} (a : A) : preserves R (ret a).
Proof. intros w. reflexivity. Qed.

Lemma preserves_throw {A} (e : string) : preserves R (@throw A e).
Proof. intros w. reflexivity. Qed.

Lemma preserves_bind {A B} (m : M A) (k : A -> M B) :
  preserves R m -> (forall a, preserves R (k a)) -> preserves R (bind m k).
Proof.
  intros Hm Hk w. unfold bind. specialize (Hm w).
  destruct (m w) as [[a | e] w1]; cbn in *; [| exact Hm].
  etransitivity; [exact Hm | apply Hk].
Qed.

Lemma preserves_try_catch {A} (m : M A) (h : string -> M A) :
  preserves R m -> (forall e, preserves R (h e)) -> preserves R (try_catch m h).
Proof.
  intros Hm Hh w. unfold try_catch. specialize (Hm w).
  destruct (m w) as [[a | e] w1]; cbn in *; [exact Hm |].
  etransitivity; [exact Hm | apply Hh].
Qed.

Lemma preserves_if {A} (b : bool) (m1 m2 : M A) :
  preserves R m1 -> preserves R m2 -> preserves R (if b then m1 else m2).
Proof. destruct b; auto. Qed.

End Preserves.

#[local] Instance extends_preorder : PreOrder extends.
Proof.
  split.
  - intros w. split; reflexivity || lia.
  - intros a b c [] []. split; congruence || lia.
Qed.

#[local] Instance task_frame_preorder : PreOrder task_frame.
Proof.
  split.
  - intros w. split; reflexivity.
  - intros a b c [] []. split; congruence.
Qed.

#[local] Instance hub_frame_preorder : PreOrder hub_frame.
Proof.
  split.
  - intros w. split; reflexivity.
  - intros a b c [] []. split; congruence.
Qed.

Lemma unsubscribe_all_frame (cs : list Callback) (e : Engine) :
  let e' := fold_left (fun e c => unsubscribe c e) cs e in
  executions e' = executions e /\ metrics e' = metrics e /\
  length (subscribers e') = length (subscribers e).
Proof.
  revert e. induction cs as [| c cs IH]; intros e; cbn; [auto |].
  destruct (IH (unsubscribe c e)) as (H1 & H2 & H3). cbn in *.
  repeat split; try assumption. rewrite H3. unfold Set_delete. apply length_map.
Qed.

Section HubFrame.
Variable code : Code.

Lemma call_hub_frame c data : preserves hub_frame (call code c data).
Proof.
  intros w. unfold call.
  destruct (unsubscribe_all_frame (unsubscribes (code c data)) (this w)) as (H1 & H2 & H3).
  destruct (throws (code c data)); split; cbn; auto.
Qed.

Lemma forEach_hub_frame n i data : preserves hub_frame (forEach code n i data).
Proof.
  revert i. induction n as [| n IH]; intros i w; cbn [forEach].
  - reflexivity.
  - destruct (nth_error _ i) as [[c |] |].
    + apply (preserves_bind hub_frame); [apply call_hub_frame | intros; apply IH].
    + apply IH.
    + reflexivity.
Qed.

Lemma notify_hub_frame data : preserves hub_frame (notify code data).
Proof.
  intros w. unfold notify.
  match goal with |- hub_frame _ (snd (forEach _ ?n ?i _ ?w0)) =>
    pose proof (forEach_hub_frame n i data w0) as [] end.
  split; cbn in *; assumption.
Qed.

Lemma notify_published data w :
  published (snd (notify code data w)) = published w ++ [data].
Proof.
  unfold notify.
  assert (H : forall n i w0, published (snd (forEach code n i data w0)) = published w0).
  { induction n as [| n IH]; intros i w0; cbn [forEach]; [reflexivity |].
    destruct (nth_error _ i) as [[c |] |]; [| apply IH | reflexivity].
    unfold bind, call. destruct (throws (code c data)); cbn; [reflexivity |].
    rewrite IH. reflexivity. }
  rewrite H. reflexivity.
Qed.
End HubFrame.

#[local] Instance oracle_frame_preorder : PreOrder oracle_frame.
Proof.
  split.
  - intros w. split; reflexivity || lia.
  - intros a b c [] []. split; congruence || lia.
Qed.

Lemma extends_oracle_frame w w' : extends w w' -> oracle_frame w w'.
Proof. intros []. split; assumption. Qed.

Lemma preserves_weaken {A} (R R' : World -> World -> Prop) (m : M A) :
  (forall w w', R w w' -> R' w w') -> preserves R m -> preserves R' m.
Proof. intros H Hm w. apply H, Hm. Qed.

Lemma hub_frame_extends w w' : hub_frame w w' -> extends w w'.
Proof. intros []. split; try congruence; lia. Qed.

Lemma hub_frame_task_frame w w' : hub_frame w w' -> task_frame w w'.
Proof. intros []. split; congruence. Qed.

Ltac prim_frame := intros ?; split; cbn; solve [reflexivity | lia].

Ltac frame_steps prim :=
  repeat first
    [ apply preserves_ret; typeclasses eauto
    | apply preserves_throw; typeclasses eauto
    | apply preserves_if
    | apply preserves_bind; try typeclasses eauto; [| intros ?]
    | apply preserves_try_catch; try typeclasses eauto; [| intros ?]
    | prim
    | prim_frame ].

Section Frames.
Variable code : Code.

Lemma publish_extends ty task : preserves extends (publish code ty task).
Proof. intros w. apply hub_frame_extends, notify_hub_frame. Qed.

Lemma publish_task_frame ty task : preserves task_frame (publish code ty task).
Proof. intros w. apply hub_frame_task_frame, notify_hub_frame. Qed.

Lemma for_tasks_extends tasks : preserves extends (for_tasks code tasks).
Proof.
  induction tasks as [| task tl IH]; cbn [for_tasks]; unfold set_task;
    frame_steps ltac:(first [apply publish_extends | exact IH]).
Qed.

Lemma for_tasks_task_frame tasks : preserves task_frame (for_tasks code tasks).
Proof.
  induction tasks as [| task tl IH]; cbn [for_tasks]; unfold set_task;
    frame_steps ltac:(first [apply publish_task_frame | exact IH]).
Qed.

Lemma executeDAG_rest_extends dag : preserves extends (executeDAG_rest code dag).
Proof.
  unfold executeDAG_rest.
  frame_steps ltac:(first [apply publish_extends | apply for_tasks_extends]).
Qed.
End Frames.

(** ** The record store *)

#[local] Instance keeps_stored_preorder : PreOrder keeps_stored.
Proof.
  split.
  - intros w H. exact H.
  - intros a b c Hab Hbc H. exact (Hbc (Hab H)).
Qed.

Lemma mutate_stored f : forall w, stored (snd (mutate f w)).
Proof. intros w. unfold stored, mutate. cbn. apply lookup_insert_eq. Qed.

Lemma mutate_keeps_stored f : preserves keeps_stored (mutate f).
Proof. intros w _. apply mutate_stored. Qed.

Ltac stored_frame := intros ? H; exact H.

Section Stored.
Variable code : Code.

Lemma publish_keeps_stored ty task : preserves keeps_stored (publish code ty task).
Proof.
  intros w H. unfold stored in *. unfold publish.
  destruct (notify_hub_frame code {| ev_type := ty; ev_execution := execution w; ev_task := task |} w)
    as [_ _ _ _ He _ Hx _ _].
  rewrite He, Hx. exact H.
Qed.

Lemma for_tasks_keeps_stored tasks : preserves keeps_stored (for_tasks code tasks).
Proof.
  induction tasks as [| task tl IH]; cbn [for_tasks]; unfold set_task;
    frame_steps ltac:(first [apply publish_keeps_stored | apply mutate_keeps_stored
                            | exact IH | stored_frame]).
Qed.

Lemma executeDAG_rest_keeps_stored dag : preserves keeps_stored (executeDAG_rest code dag).
Proof.
  unfold executeDAG_rest.
  frame_steps ltac:(first [apply publish_keeps_stored | apply mutate_keeps_stored
                          | apply for_tasks_keeps_stored | stored_frame]).
Qed.
End Stored.

(** ** Runs whose callbacks do not throw *)

Lemma notify_eq code data w :
  notify code data w =
  (completion_after code data w,
   mkWorld (mkEngine (executions (this w)) (subscribers_after code data w) (metrics (this w)))
           (random w) (random_reads w) (clock w) (clock_reads w) (execution w)
           (published w ++ [data]) (delivered_after code data w) (timers w)).
Proof.
  unfold subscribers_after, delivered_after, completion_after.
  pose proof (notify_hub_frame code data w) as [].
  pose proof (notify_published code data w) as Hp.
  destruct (notify code data w) as [c [[ex sb mt] rnd rr clk cr e pb dl tm]].
  cbn in *. subst. reflexivity.
Qed.

Arguments summary : simpl never.

Section Quiet.
Variable code : Code.
Hypothesis Hquiet : quiet code.

Lemma forEach_quiet n i data w : fst (forEach code n i data w) = Normal tt.
Proof.
  revert i w. induction n as [| n IH]; intros i w; cbn [forEach]; [reflexivity |].
  destruct (nth_error _ i) as [[c |] |]; [| apply IH | reflexivity].
  unfold bind, call. rewrite Hquiet. apply IH.
Qed.

Lemma notify_quiet data w :
  notify code data w =
  (Normal tt,
   mkWorld (mkEngine (executions (this w)) (subscribers_after code data w) (metrics (this w)))
           (random w) (random_reads w) (clock w) (clock_reads w) (execution w)
           (published w ++ [data]) (delivered_after code data w) (timers w)).
Proof.
  unfold subscribers_after, delivered_after.
  pose proof (notify_hub_frame code data w) as [].
  pose proof (notify_published code data w) as Hp.
  assert (Hc : fst (notify code data w) = Normal tt) by apply forEach_quiet.
  destruct (notify code data w) as [c [[ex sb mt] rnd rr clk cr e pb dl tm]].
  cbn in *. subst. reflexivity.
Qed.

Lemma for_tasks_spec tasks w :
  let pre := fst (split_at_failure (random w) (random_reads w) tasks) in
  let rest := snd (split_at_failure (random w) (random_reads w) tasks) in
  tasks = pre ++ rest /\
  fst (for_tasks code tasks w) = loop_completion rest /\
  map event_view (published (snd (for_tasks code tasks w))) =
    map event_view (published w) ++ task_events pre rest /\
  summary (ex_tasks (execution (snd (for_tasks code tasks w)))) =
    record_tasks pre rest (summary (ex_tasks (execution w))).
Proof.
  revert w. induction tasks as [| task tl IH]; intros w.
  - cbn. rewrite app_nil_r. auto.
  - cbn [for_tasks split_at_failure].
    unfold bind, publish, set_task, mutate, Date_now, Math_random, await_timeout.
    rewrite notify_quiet. cbn.
    destruct (Number.gt _ _).
    + rewrite notify_quiet. cbn.
      match goal with |- context [for_tasks code tl ?W] =>
        destruct (IH W) as (Hsplit & Hc & Hev & Hsum) end.
      cbn in Hsplit, Hc, Hev, Hsum.
      split; [f_equal; exact Hsplit |].
      split; [exact Hc |]. split.
      * rewrite Hev. cbn. rewrite !map_app. cbn. unfold task_events.
        rewrite <- !app_assoc. reflexivity.
      * rewrite Hsum. cbn. rewrite !summary_prop_set, !prop_set_twice. reflexivity.
    + cbn. split; [reflexivity |]. split; [reflexivity |].
      split.
      * rewrite map_app. reflexivity.
      * rewrite !summary_prop_set, !prop_set_twice. reflexivity.
Qed.
End Quiet.

Section QuietRun.
Variable code : Code.
Hypothesis Hquiet : quiet code.

(** The run, from the split the random source decides: the first read gives
    the cost, the reads of the tasks follow. *)
Lemma executeDAG_split dag w :
  let pre := fst (split_at_failure (random w) (S (random_reads w)) (d_tasks dag)) in
  let rest := snd (split_at_failure (random w) (S (random_reads w)) (d_tasks dag)) in
  d_tasks dag = pre ++ rest /\
  fst (executeDAG code dag w) = Normal (execution (snd (executeDAG code dag w))) /\
  map event_view (published (snd (executeDAG code dag w))) =
    map event_view (published w)
    ++ ("execution_started", None) :: task_events pre rest
    ++ [("execution_completed", None)] /\
  summary (ex_tasks (execution (snd (executeDAG code dag w)))) =
    record_tasks pre rest [] /\
  ex_status (execution (snd (executeDAG code dag w))) = run_status rest /\
  ex_error (execution (snd (executeDAG code dag w))) = run_error rest /\
  is_Some (ex_endTime (execution (snd (executeDAG code dag w)))) /\
  metrics (this (snd (executeDAG code dag w))) =
    updateMetrics (run_success rest) (metrics (this w)).
Proof.
  unfold executeDAG, bind, try_catch, publish, new_execution, executions_set,
    Date_now, Math_random.
  cbn. rewrite (notify_quiet code Hquiet). cbn.
  match goal with |- context [for_tasks code (d_tasks dag) ?W] =>
    destruct (for_tasks_spec code Hquiet (d_tasks dag) W) as (Hsplit & Hc & Hev & Hsum);
    pose proof (for_tasks_task_frame code (d_tasks dag) W) as [Hst Her Hen Hmt];
    destruct (for_tasks code (d_tasks dag) W) as [c w1]
  end.
  cbn in Hsplit, Hc, Hev, Hsum, Hst, Her, Hen, Hmt.
  destruct (split_at_failure (random w) (S (random_reads w)) (d_tasks dag)) as [pre rest].
  cbn [fst snd] in *. split; [exact Hsplit |]. subst c.
  destruct rest as [| t post]; cbn; rewrite (notify_quiet code Hquiet); cbn.
  - split; [reflexivity |]. split.
    { rewrite map_app, Hev, map_app. cbn. rewrite <- !app_assoc. reflexivity. }
    rewrite Hsum, Her, Hmt. repeat split; eauto.
  - split; [reflexivity |]. split.
    { rewrite map_app, Hev, map_app. cbn. rewrite <- !app_assoc. reflexivity. }
    rewrite Hsum, Hmt. repeat split; eauto.
Qed.

Lemma executeDAG_spec dag w :
  exists pre rest,
    d_tasks dag = pre ++ rest /\
    fst (executeDAG code dag w) = Normal (execution (snd (executeDAG code dag w))) /\
    map event_view (published (snd (executeDAG code dag w))) =
      map event_view (published w)
      ++ ("execution_started", None) :: task_events pre rest
      ++ [("execution_completed", None)] /\
    summary (ex_tasks (execution (snd (executeDAG code dag w)))) =
      record_tasks pre rest [] /\
    ex_status (execution (snd (executeDAG code dag w))) = run_status rest /\
    ex_error (execution (snd (executeDAG code dag w))) = run_error rest /\
    is_Some (ex_endTime (execution (snd (executeDAG code dag w)))) /\
    metrics (this (snd (executeDAG code dag w))) =
      updateMetrics (run_success rest) (metrics (this w)).
Proof.
  exists (fst (split_at_failure (random w) (S (random_reads w)) (d_tasks dag))),
         (snd (split_at_failure (random w) (S (random_reads w)) (d_tasks dag))).
  apply executeDAG_split.
Qed.

(** With the same random source two runs have the same events (types and
    tasks) and the same task outcomes, whatever their clocks and their
    subscribers. *)
Lemma random_source_decides dag w1 w2 :
  random w1 = random w2 ->
  random_reads w1 = random_reads w2 ->
  map event_view (events_of_run code dag w1) = map event_view (events_of_run code dag w2) /\
  summary (ex_tasks (execution (snd (executeDAG code dag w1)))) =
    summary (ex_tasks (execution (snd (executeDAG code dag w2)))) /\
  ex_status (execution (snd (executeDAG code dag w1))) =
    ex_status (execution (snd (executeDAG code dag w2))) /\
  ex_error (execution (snd (executeDAG code dag w1))) =
    ex_error (execution (snd (executeDAG code dag w2))).
Proof.
  intros Hr Hp.
  destruct (executeDAG_split dag w1) as (_ & _ & Hev1 & Hsum1 & Hst1 & Her1 & _).
  destruct (executeDAG_split dag w2) as (_ & _ & Hev2 & Hsum2 & Hst2 & Her2 & _).
  apply events_of_run_view in Hev1. apply events_of_run_view in Hev2.
  rewrite Hev1, Hev2, Hsum1, Hsum2, Hst1, Hst2, Her1, Her2, Hr, Hp. auto.
Qed.
End QuietRun.

(** ** The order of a delivery *)

Section Visit.
Variable code : Code.
Variable data : Event.

Lemma visit_ext g1 g2 slots :
  (forall c, existsb (Nat.eqb c) g1 = existsb (Nat.eqb c) g2) ->
  visit code data g1 slots = visit code data g2 slots.
Proof.
  revert g1 g2. induction slots as [| [c |] rest IH]; intros g1 g2 H; cbn.
  - reflexivity.
  - rewrite <- (H c). destruct (existsb (Nat.eqb c) g1); [apply IH, H |].
    f_equal. destruct (throws (code c data)); [reflexivity |].
    apply IH. intros c'. rewrite !existsb_app, H. reflexivity.
  - apply IH, H.
Qed.

Lemma visit_delete g u slots :
  visit code data g (Set_delete u slots) = visit code data (g ++ [u]) slots.
Proof.
  revert g. induction slots as [| [c |] rest IH]; intros g; cbn.
  - reflexivity.
  - rewrite existsb_app. cbn. rewrite orb_false_r.
    destruct (Nat.eqb u c) eqn:E.
    + apply Nat.eqb_eq in E. subst c. rewrite Nat.eqb_refl, orb_true_r. cbn. apply IH.
    + rewrite (Nat.eqb_sym c u), E, orb_false_r. cbn.
      destruct (existsb (Nat.eqb c) g); [apply IH |].
      f_equal. destruct (throws (code c data)); [reflexivity |].
      rewrite IH. apply visit_ext. intros c'.
      rewrite !existsb_app. cbn. destruct (existsb (Nat.eqb c') g), (Nat.eqb c' u),
        (existsb (Nat.eqb c') (unsubscribes (code c data))); reflexivity.
  - apply IH.
Qed.

Lemma visit_delete_all g us slots :
  visit code data g (delete_all us slots) = visit code data (g ++ us) slots.
Proof.
  revert g slots. induction us as [| u us IH]; intros g slots; cbn.
  - rewrite app_nil_r. reflexivity.
  - unfold delete_all in *. rewrite IH, visit_delete. apply visit_ext. intros c.
    rewrite !existsb_app. cbn.
    destruct (existsb (Nat.eqb c) g), (Nat.eqb c u), (existsb (Nat.eqb c) us); reflexivity.
Qed.

Lemma subscribers_unsubscribe_all us e :
  subscribers (fold_left (fun e c => unsubscribe c e) us e) = delete_all us (subscribers e).
Proof. revert e. induction us as [| u us IH]; intros e; cbn; [reflexivity | apply IH]. Qed.

Lemma delete_all_skipn us i s : skipn i (delete_all us s) = delete_all us (skipn i s).
Proof.
  revert s. induction us as [| u us IH]; intros s; cbn; [reflexivity |].
  unfold delete_all in *. rewrite IH. unfold Set_delete. rewrite skipn_map. reflexivity.
Qed.

Lemma delete_all_length us s : length (delete_all us s) = length s.
Proof.
  revert s. induction us as [| u us IH]; intros s; cbn; [reflexivity |].
  unfold delete_all in *. rewrite IH. unfold Set_delete. apply length_map.
Qed.

Lemma skipn_nth_error {A} (l : list A) i x :
  nth_error l i = Some x -> skipn i l = x :: skipn (S i) l.
Proof.
  revert i. induction l as [| y l IH]; intros [| i] H; cbn in *; try discriminate.
  - injection H as ->. reflexivity.
  - apply IH, H.
Qed.

Lemma forEach_visit n i w :
  n = (length (subscribers (this w)) - i)%nat ->
  delivered (snd (forEach code n i data w)) =
    delivered w ++ map (fun c => (c, data)) (visit code data [] (skipn i (subscribers (this w)))).
Proof.
  revert i w. induction n as [| n IH]; intros i w Hn; cbn [forEach].
  - rewrite skipn_all2 by lia. cbn. rewrite app_nil_r. reflexivity.
  - destruct (nth_error (subscribers (this w)) i) as [[c |] |] eqn:E.
    + rewrite (skipn_nth_error _ _ _ E). cbn [visit existsb].
      unfold bind, call. destruct (throws (code c data)) eqn:T; cbn [snd delivered].
      * reflexivity.
      * rewrite IH; cbn [this delivered]; rewrite subscribers_unsubscribe_all.
        -- rewrite delete_all_skipn, visit_delete_all. cbn. rewrite <- app_assoc. reflexivity.
        -- rewrite delete_all_length. lia.
    + rewrite (skipn_nth_error _ _ _ E). cbn [visit]. apply IH. lia.
    + apply nth_error_None in E. lia.
Qed.

Lemma receivers_visit w :
  receivers code data w = visit code data [] (subscribers (this w)).
Proof.
  unfold receivers, notify. rewrite forEach_visit by (cbn; lia). cbn.
  rewrite skipn_app, skipn_all, Nat.sub_diag, !skipn_O. cbn.
  rewrite map_map. cbn. apply map_id.
Qed.
End Visit.

Section VisitFacts.
Variable code : Code.
Variable data : Event.

Lemma visit_In g slots c :
  In c (visit code data g slots) -> In (Some c) slots /\ existsb (Nat.eqb c) g = false.
Proof.
  revert g. induction slots as [| [c' |] rest IH]; intros g; cbn.
  - tauto.
  - destruct (existsb (Nat.eqb c') g) eqn:G.
    + intros H. destruct (IH _ H). auto.
    + intros [<- | H]; [auto |].
      destruct (throws (code c' data)); [destruct H |].
      destruct (IH _ H) as [H1 H2]. rewrite existsb_app in H2.
      apply orb_false_iff in H2 as [H2 _]. auto.
  - intros H. destruct (IH _ H). auto.
Qed.

Lemma visit_NoDup g slots : List.NoDup (Set_elements slots) -> List.NoDup (visit code data g slots).
Proof.
  revert g. induction slots as [| [c |] rest IH]; intros g; cbn.
  - intros _. constructor.
  - intros H. apply List.NoDup_cons_iff in H as [Hc H].
    destruct (existsb (Nat.eqb c) g); [apply IH, H |].
    apply List.NoDup_cons_iff. split.
    + destruct (throws (code c data)); [tauto |].
      intros Hin. apply visit_In in Hin as [Hin _].
      apply Hc, Set_elements_In, Hin.
    + destruct (throws (code c data)); [constructor | apply IH, H].
  - apply IH.
Qed.

Hypothesis Hquiet : quiet code.

(** Whether the callback of a slot is called: it is, unless it was removed
    before the traversal reached it, by a call made from an earlier slot. *)
Lemma visit_slot g pre c post :
  List.NoDup (Set_elements (pre ++ Some c :: post)) ->
  In c (visit code data g (pre ++ Some c :: post)) <->
  existsb (Nat.eqb c) g = false /\
  ~ exists c', In (Some c') pre /\ In c' (visit code data g (pre ++ Some c :: post)) /\
               In c (unsubscribes (code c' data)).
Proof.
  revert g. induction pre as [| [a |] pre IH]; intros g; cbn [app visit Set_elements].
  - intros _. destruct (existsb (Nat.eqb c) g) eqn:G.
    + split.
      * intros H. apply visit_In in H as [_ H]. congruence.
      * intros [H _]. discriminate.
    + split.
      * intros _. split; [reflexivity |]. intros (c' & [] & _).
      * intros _. left. reflexivity.
  - intros H. apply List.NoDup_cons_iff in H as [Ha H].
    assert (Hac : a <> c).
    { intros ->. apply Ha, Set_elements_In, in_or_app. right. left. reflexivity. }
    destruct (existsb (Nat.eqb a) g) eqn:G.
    + rewrite (IH g H). split; intros [H1 H2]; (split; [exact H1 |]).
      * intros (c' & [E | Hin] & Hv & Hu).
        -- injection E as <-. apply visit_In in Hv as [_ Hv]. congruence.
        -- apply H2. exists c'. auto.
      * intros (c' & Hin & Hv & Hu). apply H2. exists c'. cbn. auto.
    + rewrite Hquiet. cbn [In]. rewrite (IH _ H), existsb_app, orb_false_iff.
      split.
      * intros [E | [[H1 H3] H2]]; [congruence |]. split; [exact H1 |].
        intros (c' & [E | Hin] & Hv & Hu).
        -- injection E as <-. apply existsb_eqb_In in Hu. congruence.
        -- destruct Hv as [-> | Hv].
           ++ apply Ha, Set_elements_In, in_or_app. left. exact Hin.
           ++ apply H2. exists c'. auto.
      * intros [H1 H2]. right. split; [split; [exact H1 |] |].
        -- destruct (existsb (Nat.eqb c) (unsubscribes (code a data))) eqn:U; [| reflexivity].
           exfalso. apply H2. exists a. apply existsb_eqb_In in U. cbn. auto.
        -- intros (c' & Hin & Hv & Hu). apply H2. exists c'. cbn. auto.
  - intros H. rewrite (IH g H). split; intros [H1 H2]; (split; [exact H1 |]).
    + intros (c' & [E | Hin] & Hv & Hu); [discriminate |]. apply H2. exists c'. auto.
    + intros (c' & Hin & Hv & Hu). apply H2. exists c'. cbn. auto.
Qed.
End VisitFacts.

(** ** Runs with arbitrary callbacks *)

Section AnyCode.
Variable code : Code.



End AnyCode.

(** ** Dependence on the oracles *)

Lemma local_ret {A} (a : A) : local (ret a).
Proof. intros N K w1 w2 H _ _. cbn. auto. Qed.

Lemma local_throw {A} (e : string) : local (@throw A e).
Proof. intros N K w1 w2 H _ _. cbn. auto. Qed.

Lemma local_bind {A B} (m : M A) (k : A -> M B) :
  local m -> (forall a, local (k a)) -> (forall a, preserves oracle_frame (k a)) ->
  local (bind m k).
Proof.
  intros Hm Hk Hf N K w1 w2 Hag Hn Hc. unfold bind in *.
  specialize (Hm N K w1 w2 Hag).
  destruct (m w1) as [[a | e] w1'] eqn:E1; cbn [fst snd] in *.
  - destruct (Hf a w1') as [_ _ Hr' Hc'].
    destruct Hm as [Hfst Hag']; [lia | lia |].
    destruct (m w2) as [c2 w2']; cbn [fst snd] in *. subst c2.
    apply Hk; assumption.
  - destruct Hm as [Hfst Hag']; [lia | lia |].
    destruct (m w2) as [c2 w2']; cbn [fst snd] in *. subst c2. cbn. auto.
Qed.

Lemma local_try_catch {A} (m : M A) (h : string -> M A) :
  local m -> (forall e, local (h e)) -> (forall e, preserves oracle_frame (h e)) ->
  local (try_catch m h).
Proof.
  intros Hm Hh Hf N K w1 w2 Hag Hn Hc. unfold try_catch in *.
  specialize (Hm N K w1 w2 Hag).
  destruct (m w1) as [[a | e] w1'] eqn:E1; cbn [fst snd] in *.
  - destruct Hm as [Hfst Hag']; [lia | lia |].
    destruct (m w2) as [c2 w2']; cbn [fst snd] in *. subst c2. cbn. auto.
  - destruct (Hf e w1') as [_ _ Hr' Hc'].
    destruct Hm as [Hfst Hag']; [lia | lia |].
    destruct (m w2) as [c2 w2']; cbn [fst snd] in *. subst c2.
    apply Hh; assumption.
Qed.

Lemma local_if {A} (b : bool) (m1 m2 : M A) : local m1 -> local m2 -> local (if b then m1 else m2).
Proof. destruct b; auto. Qed.

(** A step that neither reads nor replaces the oracles. *)
Lemma local_pure {A} (m : M A) :
  (forall r c w, m (with_oracles r c w) = (fst (m w), with_oracles r c (snd (m w)))) ->
  preserves oracle_frame m ->
  (forall w, random_reads (snd (m w)) = random_reads w /\
             clock_reads (snd (m w)) = clock_reads w) ->
  local m.
Proof.
  intros Hm Hf Hp N K w1 w2 [Hs Hr Hc] _ _.
  rewrite Hs, Hm. cbn [fst snd]. split; [reflexivity |].
  destruct (Hf w1) as [Er Ec _ _]. destruct (Hp w1) as [Pr Pc].
  split.
  - unfold same_but_oracles. reflexivity.
  - intros i Hi. cbn. rewrite Er. apply Hr. lia.
  - intros i Hi. cbn. rewrite Ec. apply Hc. lia.
Qed.

Lemma local_Math_random : local Math_random.
Proof.
  intros N K w1 w2 [Hs Hr Hc] Hn Hk. cbn in *. rewrite Hs. cbn. split.
  - f_equal. apply Hr. lia.
  - split; cbn; [reflexivity | intros i Hi; apply Hr; lia | exact Hc].
Qed.

Lemma local_Date_now : local Date_now.
Proof.
  intros N K w1 w2 [Hs Hr Hc] Hn Hk. cbn in *. rewrite Hs. cbn. split.
  - f_equal. apply Hc. lia.
  - split; cbn; [reflexivity | exact Hr | intros i Hi; apply Hc; lia].
Qed.

Ltac pure_step :=
  apply local_pure;
  [ intros ? ? ?; reflexivity
  | intros ?; split; cbn; solve [reflexivity | lia]
  | intros ?; split; reflexivity ].

Section Local.
Variable code : Code.

Lemma forEach_oracles n i data r c w :
  forEach code n i data (with_oracles r c w) =
  (fst (forEach code n i data w), with_oracles r c (snd (forEach code n i data w))).
Proof.
  revert i w. induction n as [| n IH]; intros i w; cbn [forEach]; [reflexivity |].
  cbn [with_oracles this]. destruct (nth_error _ i) as [[cb |] |]; [| apply IH | reflexivity].
  unfold bind, call. cbn [with_oracles this random random_reads clock clock_reads
    execution published delivered timers].
  destruct (throws (code cb data)); [reflexivity |].
  match goal with |- forEach _ _ _ _ ?W = _ =>
    change W with (with_oracles r c
      (mkWorld (fold_left (fun e c0 => unsubscribe c0 e) (unsubscribes (code cb data)) (this w))
               (random w) (random_reads w) (clock w) (clock_reads w) (execution w)
               (published w) (delivered w ++ [(cb, data)]) (timers w))) end.
  rewrite IH. reflexivity.
Qed.

Lemma local_notify data : local (notify code data).
Proof.
  apply local_pure.
  - intros r c w. unfold notify. cbn [with_oracles this random random_reads clock
      clock_reads execution published delivered timers].
    match goal with |- forEach _ _ _ _ ?W = _ =>
      change W with (with_oracles r c
        (mkWorld (this w) (random w) (random_reads w) (clock w) (clock_reads w)
                 (execution w) (published w ++ [data]) (delivered w) (timers w))) end.
    apply forEach_oracles.
  - intros w. destruct (notify_hub_frame code data w). split; congruence || lia.
  - intros w. destruct (notify_hub_frame code data w). split; congruence.
Qed.

Lemma local_publish ty task : local (publish code ty task).
Proof.
  intros N K w1 w2 Hag. unfold publish.
  assert (E : execution w2 = execution w1).
  { pose proof (ag_same _ _ _ _ Hag) as Hs. unfold same_but_oracles in Hs.
    rewrite Hs. reflexivity. }
  rewrite E. apply local_notify. exact Hag.
Qed.

Lemma publish_oracle_frame ty task : preserves oracle_frame (publish code ty task).
Proof. intros w. apply extends_oracle_frame, publish_extends. Qed.

Lemma for_tasks_oracle_frame tasks : preserves oracle_frame (for_tasks code tasks).
Proof. intros w. apply extends_oracle_frame, for_tasks_extends. Qed.

Ltac oracle_steps :=
  frame_steps ltac:(first [apply publish_oracle_frame | apply for_tasks_oracle_frame]).

Ltac local_steps prim :=
  repeat first
    [ apply local_ret
    | apply local_throw
    | apply local_if
    | apply local_Math_random
    | apply local_Date_now
    | apply local_publish
    | apply local_bind; [| intros ? | intros ?; oracle_steps]
    | apply local_try_catch; [| intros ? | intros ?; oracle_steps]
    | prim
    | pure_step ].

Lemma local_for_tasks tasks : local (for_tasks code tasks).
Proof.
  induction tasks as [| task tl IH]; cbn [for_tasks]; unfold set_task;
    local_steps ltac:(exact IH).
Qed.

Lemma local_executeDAG dag : local (executeDAG code dag).
Proof.
  unfold executeDAG. local_steps ltac:(apply local_for_tasks).
Qed.
End Local.


(* ===================================================================== *)
(** * Part IV: the properties of the engine *)
(* ===================================================================== *)

Lemma quiet_silent_code : quiet silent_code.
Proof. intros c data. reflexivity. Qed.

Lemma quiet_canceller : quiet canceller.
Proof. intros c data. unfold canceller. destruct (Nat.eqb c 1); reflexivity. Qed.

Lemma data_pipeline_ids_distinct : List.NoDup (map t_id (d_tasks data_pipeline)).
Proof.
  cbn. repeat (constructor; [cbn; intuition discriminate |]). constructor.
Qed.

(** ** Outcome of a run *)



(** With two tasks of the same id the third conclusion has no reading: a task
    after the failed one shares its record with an earlier one. *)
Example repeated_id_stays_present :
  let dag := mkDAG "d" "" "" ""
               [mkTaskDef "a" "" "" 0; mkTaskDef "b" "" "" 0; mkTaskDef "a" "" "" 0] [] in
  let ex := execution (snd (executeDAG silent_code dag world_fail)) in
  ex_status ex = "failed" /\ task_status ex "b" = Some "failed" /\
  task_status ex "a" = Some "completed".
Proof. vm_compute. auto. Qed.

(** The scenario of the specification: the second of four tasks fails. *)
Example second_task_fails :
  let ex := execution (snd (executeDAG silent_code data_pipeline world_fail)) in
  ex_status ex = "failed" /\
  map (fun kv => (fst kv, te_status (snd kv))) (ex_tasks ex) =
    [("extract", "completed"); ("validate", "failed")] /\
  map event_view (events_of_run silent_code data_pipeline world_fail) =
    [("execution_started", None); ("task_started", Some "extract");
     ("task_completed", Some "extract"); ("task_started", Some "validate");
     ("execution_completed", None)].
Proof. vm_compute. auto. Qed.

(** ** Events of a run *)

(** C3, as the code has it.  When no callback throws, every event of a run
    has one of the types execution_started, task_started, task_completed,
    execution_completed, and the events come in this order: execution_started
    first; then, in the order of the task array, task_started and
    task_completed for each task that completes and, when the run fails,
    task_started alone for the task that fails; execution_completed last. *)
Theorem events_in_causal_order code dag w :
  quiet code ->
  exists pre rest,
    d_tasks dag = pre ++ rest /\
    ex_status (execution (snd (executeDAG code dag w))) = run_status rest /\
    map event_view (events_of_run code dag w) =
      ("execution_started", None) :: task_events pre rest
      ++ [("execution_completed", None)] /\
    Forall (fun e => In (ev_type e) event_types) (events_of_run code dag w).
Proof.
  intros Hquiet.
  destruct (executeDAG_spec code Hquiet dag w)
    as (pre & rest & Hsplit & _ & Hev & _ & Hst & _).
  exists pre, rest. apply events_of_run_view in Hev.
  split; [exact Hsplit |]. split; [exact Hst |]. split; [exact Hev |].
  assert (H : Forall (fun v => In (fst v) event_types)
                (map event_view (events_of_run code dag w))).
  { rewrite Hev. constructor; [cbn; auto 6 |]. apply Forall_app. split.
    - apply task_events_types.
    - constructor; [cbn; auto 6 | constructor]. }
  rewrite Forall_map in H. exact H.
Qed.

Lemma events_in_causal_order_witness :
  quiet silent_code /\
  exists pre rest,
    d_tasks data_pipeline = pre ++ rest /\
    ex_status (execution (snd (executeDAG silent_code data_pipeline world_fail))) =
      run_status rest /\
    map event_view (events_of_run silent_code data_pipeline world_fail) =
      ("execution_started", None) :: task_events pre rest
      ++ [("execution_completed", None)] /\
    Forall (fun e => In (ev_type e) event_types)
           (events_of_run silent_code data_pipeline world_fail).
Proof.
  split; [intros c data; reflexivity |].
  apply (events_in_causal_order silent_code data_pipeline world_fail).
  intros c data. reflexivity.
Defined.

(** The first and the last event of a run are not of the types run_started
    and run_completed. *)
Lemma event_types_not_as_named :
  exists e,
    In e (events_of_run silent_code data_pipeline world_ok) /\
    ~ In (ev_type e) ["run_started"; "task_started"; "task_completed"; "run_completed"].
Proof.
  exists (nth 0 (events_of_run silent_code data_pipeline world_ok) ping). split.
  - vm_compute. left. reflexivity.
  - vm_compute. intuition discriminate.
Qed.

(** The task that fails has a task_started event and no task_completed
    event. *)
Example failed_task_start_unpaired :
  map event_view (events_of_run silent_code data_pipeline world_fail) =
    [("execution_started", None); ("task_started", Some "extract");
     ("task_completed", Some "extract"); ("task_started", Some "validate");
     ("execution_completed", None)].
Proof. vm_compute. reflexivity. Qed.

(** ** Exceptions *)

(** C5. When no callback throws, [executeDAG] does not throw: for every DAG
    and every outcome sequence it returns a record whose status is
    "completed" or "failed" and whose end time is set, and a failed task
    shows on that record as status "failed" with an error message. *)
Theorem executeDAG_never_throws code dag w :
  quiet code ->
  exists ex w',
    executeDAG code dag w = (Normal ex, w') /\
    (ex_status ex = "completed" \/ ex_status ex = "failed") /\
    is_Some (ex_endTime ex) /\
    (failed_records ex <> [] ->
     ex_status ex = "failed" /\ ex_error ex = Some "Task failed").
Proof.
  intros Hquiet.
  destruct (executeDAG_spec code Hquiet dag w)
    as (pre & rest & Hsplit & Hc & _ & Hsum & Hst & Her & Hen & _).
  destruct (executeDAG code dag w) as [c w'] eqn:Hrun. cbn [fst snd] in *.
  exists (execution w'), w'. split; [congruence |].
  destruct rest as [| t post]; cbn in Hst, Her; (split; [auto |]); (split; [exact Hen |]).
  - intros Hf. exfalso. apply Hf. apply length_zero_iff_nil.
    rewrite failed_records_summary, Hsum. cbn.
    rewrite no_failed_when_completed; [reflexivity |].
    apply complete_all_values. constructor.
  - auto.
Qed.

Lemma executeDAG_never_throws_witness :
  quiet silent_code /\
  exists ex w',
    executeDAG silent_code data_pipeline world_fail = (Normal ex, w') /\
    (ex_status ex = "completed" \/ ex_status ex = "failed") /\
    is_Some (ex_endTime ex) /\
    (failed_records ex <> [] ->
     ex_status ex = "failed" /\ ex_error ex = Some "Task failed").
Proof.
  split; [intros c data; reflexivity |].
  apply (executeDAG_never_throws silent_code data_pipeline world_fail).
  intros c data. reflexivity.
Defined.

(** The precondition is needed: the first and the last call of [notify] are
    outside the [try], and an exception of a callback leaves [executeDAG]
    there. *)
Example throwing_callback_escapes :
  fst (executeDAG thrower data_pipeline world_ok) = Throw "boom".
Proof. vm_compute. reflexivity. Qed.

(** An exception of a callback inside the [try] is caught like the failure of
    a task: the run ends "failed" with the message of the callback, and no
    task record is "failed". *)
Example callback_exception_fails_run :
  exists ex,
    fst (executeDAG late_thrower data_pipeline world_ok) = Normal ex /\
    ex_status ex = "failed" /\ ex_error ex = Some "boom" /\
    failed_records ex = [] /\ task_status ex "extract" = Some "running".
Proof. eexists. split; [vm_compute; reflexivity |]. vm_compute. auto. Qed.

(** ** Error messages *)

(** C7, as the code has it.  When no callback throws and a run ends with
    status "failed", the error message on the record is the message of the
    exception thrown, "Task failed", and the record of the task that failed
    carries the message "Task execution failed". *)
Theorem failed_run_error code dag w :
  quiet code ->
  exists ex w',
    executeDAG code dag w = (Normal ex, w') /\
    (ex_status ex = "failed" ->
     ex_error ex = Some "Task failed" /\
     exists t, In t (d_tasks dag) /\
               task_status ex (t_id t) = Some "failed" /\
               task_error ex (t_id t) = Some "Task execution failed").
Proof.
  intros Hquiet.
  destruct (executeDAG_spec code Hquiet dag w)
    as (pre & rest & Hsplit & Hc & _ & Hsum & Hst & Her & _).
  destruct (executeDAG code dag w) as [c w'] eqn:Hrun. cbn [fst snd] in *.
  exists (execution w'), w'. split; [congruence |].
  intros Hf. rewrite Hf in Hst. destruct rest as [| t post]; [discriminate |].
  split; [exact Her |]. exists t. split.
  - rewrite Hsplit. apply in_or_app. right. left. reflexivity.
  - rewrite task_status_summary, task_error_summary, Hsum. cbn.
    rewrite prop_get_set_same. auto.
Qed.

Lemma failed_run_error_witness :
  quiet silent_code /\
  exists ex w',
    executeDAG silent_code data_pipeline world_fail = (Normal ex, w') /\
    (ex_status ex = "failed" ->
     ex_error ex = Some "Task failed" /\
     exists t, In t (d_tasks data_pipeline) /\
               task_status ex (t_id t) = Some "failed" /\
               task_error ex (t_id t) = Some "Task execution failed").
Proof.
  split; [intros c data; reflexivity |].
  apply (failed_run_error silent_code data_pipeline world_fail).
  intros c data. reflexivity.
Defined.

(** The message on the run record is not the message on the record of the
    failed task. *)
Lemma run_error_differs_from_task_error :
  exists ex,
    fst (executeDAG silent_code data_pipeline world_fail) = Normal ex /\
    ex_status ex = "failed" /\
    task_status ex "validate" = Some "failed" /\
    ex_error ex <> task_error ex "validate".
Proof.
  eexists. split; [vm_compute; reflexivity |].
  split; [reflexivity |]. split; [reflexivity |]. vm_compute. discriminate.
Qed.

(** ** Delivery and the subscriber set *)

(** C4, as the code has it.  [notify] walks the subscriber set itself, so an
    unsubscription made by a callback during a delivery takes effect in that
    delivery: when no callback throws, a callback subscribed when the
    delivery began is called if and only if no callback of an earlier slot,
    called in this delivery, has unsubscribed it; and no callback is called
    twice. *)
Theorem delivery_under_unsubscription code data w pre c post :
  quiet code ->
  Set_wf (subscribers (this w)) ->
  subscribers (this w) = pre ++ Some c :: post ->
  (In c (receivers code data w) <->
   ~ exists c', In (Some c') pre /\ In c' (receivers code data w) /\
                In c (unsubscribes (code c' data))) /\
  List.NoDup (receivers code data w).
Proof.
  intros Hq Hwf Hs. rewrite receivers_visit. split.
  - rewrite Hs in *. rewrite (visit_slot code data Hq [] pre c post Hwf). cbn. tauto.
  - apply visit_NoDup, Hwf.
Qed.

Lemma delivery_under_unsubscription_witness :
  quiet canceller /\
  Set_wf (subscribers (this world_ok)) /\
  subscribers (this world_ok) = [Some 1] ++ Some 2 :: [] /\
  (In 2 (receivers canceller ping world_ok) <->
   ~ exists c', In (Some c') [Some 1] /\ In c' (receivers canceller ping world_ok) /\
                In 2 (unsubscribes (canceller c' ping))) /\
  List.NoDup (receivers canceller ping world_ok).
Proof.
  assert (Hq : quiet canceller).
  { intros c data. unfold canceller. destruct (Nat.eqb c 1); reflexivity. }
  assert (Hwf : Set_wf (subscribers (this world_ok))).
  { vm_compute. repeat (constructor; [cbn; intuition discriminate |]). constructor. }
  split; [exact Hq |]. split; [exact Hwf |]. split; [reflexivity |].
  apply (delivery_under_unsubscription canceller ping world_ok [Some 1] 2 []);
    [exact Hq | exact Hwf | reflexivity].
Defined.

(** Callback 2 is subscribed when the delivery begins and callback 1, called
    first, unsubscribes it: callback 2 does not receive the event. *)
Lemma unsubscribed_in_flight_not_called :
  quiet canceller /\
  In (Some 2) (subscribers (this world_ok)) /\
  ~ In 2 (receivers canceller ping world_ok).
Proof.
  split; [exact quiet_canceller |]. split.
  - vm_compute. auto.
  - vm_compute. intuition discriminate.
Qed.

(** C10. Subscribing a callback that is subscribed leaves the subscriber set
    as it is; an event is then delivered to the callback exactly once (when
    no callback throws or unsubscribes it); one call of the returned
    unsubscribe function removes the callback, so that it receives no event,
    and further calls of that function change nothing. *)
Theorem subscribe_idempotent (c : Callback) (e : Engine) :
  Set_wf (subscribers e) ->
  let e1 := fst (subscribe c e) in
  let e2 := fst (subscribe c e1) in
  let unsub := snd (subscribe c e1) in
  e2 = e1 /\
  (forall code data w,
     quiet code -> (forall c' d, ~ In c (unsubscribes (code c' d))) -> this w = e2 ->
     count_occ Nat.eq_dec (receivers code data w) c = 1) /\
  Set_has c (subscribers (unsub e2)) = false /\
  (forall code data w, this w = unsub e2 -> ~ In c (receivers code data w)) /\
  unsub (unsub e2) = unsub e2.
Proof.
  intros Hwf. unfold subscribe, unsubscribe. cbn [fst snd subscribers executions metrics].
  rewrite (Set_add_present c (Set_add c (subscribers e))) by apply Set_has_add.
  split; [reflexivity |]. split; [| split; [| split]].
  - intros code data w Hq Hno Hw.
    assert (Hin : In (Some c) (subscribers (this w))).
    { rewrite Hw. apply Set_has_In, Set_has_add. }
    assert (Hwf' : Set_wf (subscribers (this w))).
    { rewrite Hw. apply Set_add_wf, Hwf. }
    apply in_split in Hin as (pre & post & Hs).
    rewrite receivers_visit. apply NoDup_count_occ'; [apply visit_NoDup, Hwf' |].
    rewrite Hs in *. apply (visit_slot code data Hq [] pre c post Hwf').
    split; [reflexivity |]. intros (c' & _ & _ & Hu). exact (Hno _ _ Hu).
  - destruct (Set_has c (Set_delete c (Set_add c (subscribers e)))) eqn:E; [| reflexivity].
    apply Set_has_In in E. exfalso. exact (Set_delete_gone _ _ E).
  - intros code data w Hw Hin. rewrite receivers_visit in Hin.
    apply visit_In in Hin as [Hin _]. rewrite Hw in Hin.
    exact (Set_delete_gone _ _ Hin).
  - rewrite Set_delete_twice. reflexivity.
Qed.

Lemma subscribe_idempotent_witness :
  Set_wf (subscribers constructor) /\
  let e1 := fst (subscribe 7 constructor) in
  let e2 := fst (subscribe 7 e1) in
  let unsub := snd (subscribe 7 e1) in
  e2 = e1 /\
  (forall code data w,
     quiet code -> (forall c' d, ~ In 7 (unsubscribes (code c' d))) -> this w = e2 ->
     count_occ Nat.eq_dec (receivers code data w) 7 = 1) /\
  Set_has 7 (subscribers (unsub e2)) = false /\
  (forall code data w, this w = unsub e2 -> ~ In 7 (receivers code data w)) /\
  unsub (unsub e2) = unsub e2.
Proof.
  split; [constructor |].
  apply (subscribe_idempotent 7 constructor). constructor.
Defined.

(** ** Order of the tasks *)


(** ** Determinism *)

(** C9. Two executions of [executeDAG] on the same DAG from the same engine
    state, whose random source and clock give the same values at the reads
    the first execution makes, end the same way and publish the same events
    (and leave the same engine). *)
Theorem executeDAG_deterministic code dag w1 w2 :
  same_but_oracles w1 w2 ->
  (forall i, random_reads w1 <= i < random_reads (snd (executeDAG code dag w1)) ->
             random w1 i = random w2 i) ->
  (forall i, clock_reads w1 <= i < clock_reads (snd (executeDAG code dag w1)) ->
             clock w1 i = clock w2 i) ->
  fst (executeDAG code dag w1) = fst (executeDAG code dag w2) /\
  events_of_run code dag w1 = events_of_run code dag w2 /\
  same_but_oracles (snd (executeDAG code dag w1)) (snd (executeDAG code dag w2)).
Proof.
  intros Hs Hr Hc.
  destruct (local_executeDAG code dag _ _ w1 w2 (Build_agree _ _ _ _ Hs Hr Hc))
    as [Hfst [Hs' _ _]]; [lia | lia |].
  split; [exact Hfst |]. split; [| exact Hs'].
  unfold events_of_run. unfold same_but_oracles in Hs, Hs'.
  rewrite Hs', Hs. reflexivity.
Qed.

Lemma executeDAG_deterministic_witness :
  same_but_oracles world_fail world_fail' /\
  (forall i, random_reads world_fail <= i
             < random_reads (snd (executeDAG silent_code data_pipeline world_fail)) ->
             random world_fail i = random world_fail' i) /\
  (forall i, clock_reads world_fail <= i
             < clock_reads (snd (executeDAG silent_code data_pipeline world_fail)) ->
             clock world_fail i = clock world_fail' i) /\
  fst (executeDAG silent_code data_pipeline world_fail) =
    fst (executeDAG silent_code data_pipeline world_fail') /\
  events_of_run silent_code data_pipeline world_fail =
    events_of_run silent_code data_pipeline world_fail' /\
  same_but_oracles (snd (executeDAG silent_code data_pipeline world_fail))
                   (snd (executeDAG silent_code data_pipeline world_fail')).
Proof.
  assert (Hr : forall i, random_reads world_fail <= i
             < random_reads (snd (executeDAG silent_code data_pipeline world_fail)) ->
             random world_fail i = random world_fail' i).
  { intros i Hi.
    assert (E : random_reads (snd (executeDAG silent_code data_pipeline world_fail)) = 5)
      by (vm_compute; reflexivity).
    rewrite E in Hi. cbn [random world_fail world_fail' world].
    destruct (Nat.ltb_spec i 5); [reflexivity | lia]. }
  assert (Hc : forall i, clock_reads world_fail <= i
             < clock_reads (snd (executeDAG silent_code data_pipeline world_fail)) ->
             clock world_fail i = clock world_fail' i).
  { intros i Hi.
    assert (E : clock_reads (snd (executeDAG silent_code data_pipeline world_fail)) = 7)
      by (vm_compute; reflexivity).
    rewrite E in Hi. cbn [clock world_fail world_fail' world].
    destruct (Nat.ltb_spec i 7); [reflexivity | lia]. }
  split; [reflexivity |]. split; [exact Hr |]. split; [exact Hc |].
  apply (executeDAG_deterministic silent_code data_pipeline world_fail world_fail');
    [reflexivity | exact Hr | exact Hc].
Defined.

(** ** The simulated cost *)

Lemma executeDAG_unfold code dag w :
  executeDAG code dag w =
  executeDAG_rest code dag
    (with_this (with_executions (insert (pretty (clock w (clock_reads w)))
       {| ex_id := pretty (clock w (clock_reads w)); ex_dag := d_id dag;
          ex_status := "running"; ex_startTime := clock w (S (clock_reads w));
          ex_tasks := [];
          ex_cost := Number.add (Number.mul (random w (random_reads w)) 50) 25;
          ex_error := None; ex_endTime := None |}))
     (mkWorld (this w) (random w) (S (random_reads w)) (clock w) (S (S (clock_reads w)))
       {| ex_id := pretty (clock w (clock_reads w)); ex_dag := d_id dag;
          ex_status := "running"; ex_startTime := clock w (S (clock_reads w));
          ex_tasks := [];
          ex_cost := Number.add (Number.mul (random w (random_reads w)) 50) 25;
          ex_error := None; ex_endTime := None |}
       (published w) (delivered w) (timers w))).
Proof. reflexivity. Qed.

Lemma executeDAG_cost code dag w :
  ex_cost (execution (snd (executeDAG code dag w))) =
  Number.add (Number.mul (random w (random_reads w)) 50) 25.
Proof.
  rewrite executeDAG_unfold.
  match goal with |- context [executeDAG_rest code dag ?W] =>
    destruct (executeDAG_rest_extends code dag W) as [_ _ _ _ _ _ _ Hcost] end.
  rewrite Hcost. reflexivity.
Qed.

Lemma executeDAG_returns code dag w ex :
  fst (executeDAG code dag w) = Normal ex ->
  ex = execution (snd (executeDAG code dag w)).
Proof.
  rewrite executeDAG_unfold. unfold executeDAG_rest, bind.
  destruct (publish code "execution_started" None _) as [[[] | e] w1]; cbn [fst snd];
    [| discriminate].
  destruct (try_catch _ _ w1) as [[[] | e] w2]; cbn [fst snd]; [| discriminate].
  destruct (publish code "execution_completed" None w2) as [[[] | e] w3]; cbn [fst snd];
    [| discriminate].
  intros [= <-]. reflexivity.
Qed.

(** C8, as binary64 arithmetic has it.  When the random source gives a value
    in [0, 1), the cost of the record a run creates lies in the closed
    interval [25, 75]. *)
Theorem cost_in_closed_range code dag w :
  Number.unit_interval (random w (random_reads w)) ->
  (25 <= ex_cost (execution (snd (executeDAG code dag w))) <= 75)%Q /\
  (forall ex, fst (executeDAG code dag w) = Normal ex -> (25 <= ex_cost ex <= 75)%Q).
Proof.
  intros Hr.
  assert (H : (25 <= ex_cost (execution (snd (executeDAG code dag w))) <= 75)%Q).
  { rewrite executeDAG_cost. apply cost_closed_range, Hr. }
  split; [exact H |]. intros ex Hex. rewrite (executeDAG_returns _ _ _ _ Hex). exact H.
Qed.

Lemma cost_in_closed_range_witness :
  Number.unit_interval (random world_ok (random_reads world_ok)) /\
  (25 <= ex_cost (execution (snd (executeDAG silent_code data_pipeline world_ok))) <= 75)%Q /\
  (forall ex, fst (executeDAG silent_code data_pipeline world_ok) = Normal ex ->
              (25 <= ex_cost ex <= 75)%Q).
Proof.
  assert (Hr : Number.unit_interval (random world_ok (random_reads world_ok))).
  { split; vm_compute; [discriminate | reflexivity]. }
  split; [exact Hr |].
  apply (cost_in_closed_range silent_code data_pipeline world_ok Hr).
Defined.

(** The largest Number below 1 is in [0, 1), and with it the cost is 75: the
    product rounds to 50 - 2^-47 and the sum, halfway between two Numbers,
    rounds to the even one. *)
Lemma cost_reaches_75 :
  Number.unit_interval (random world_edge (random_reads world_edge)) /\
  exists ex,
    fst (executeDAG silent_code data_pipeline world_edge) = Normal ex /\
    (ex_cost ex == 75)%Q /\ ~ (ex_cost ex < 75)%Q.
Proof.
  split; [exact pred_one_in_unit_interval |].
  eexists. split; [vm_compute; reflexivity |]. split.
  - vm_compute. reflexivity.
  - vm_compute. discriminate.
Qed.

(** ** The record store *)

(** After a call of [executeDAG], however it ends, the map [this.executions]
    holds the record of the run under its id, in its final state. *)
Lemma executeDAG_stored code dag w : stored (snd (executeDAG code dag w)).
Proof.
  rewrite executeDAG_unfold. apply executeDAG_rest_keeps_stored.
  unfold stored. cbn. apply lookup_insert_eq.
Qed.

(** A run whose callbacks do not throw calls [updateMetrics] once: it keeps
    the success rate in its range. *)
Lemma executeDAG_rate_ok code dag w :
  quiet code ->
  rate_ok (metrics (this w)) ->
  rate_ok (metrics (this (snd (executeDAG code dag w)))).
Proof.
  intros Hq H.
  destruct (executeDAG_split code Hq dag w) as (_ & _ & _ & _ & _ & _ & _ & Hm).
  rewrite Hm. apply updateMetrics_rate_ok, H.
Qed.

(** ** The scenarios of the specification *)

(** Every task succeeds: the run is completed, the four task records are
    completed, the success rate goes from 85 to 85.5, the count of runs to 1
    and the queue depth from 5 to 4. *)
Example all_tasks_succeed :
  let w' := snd (executeDAG silent_code data_pipeline world_ok) in
  ex_status (execution w') = "completed" /\
  map (fun kv => (fst kv, te_status (snd kv))) (ex_tasks (execution w')) =
    [("extract", "completed"); ("validate", "completed");
     ("transform", "completed"); ("load", "completed")] /\
  (successRate (metrics (this w')) == 171 # 2)%Q /\
  (totalExecutions (metrics (this w')) == 1)%Q /\
  (queueDepth (metrics (this w')) == 4)%Q.
Proof. vm_compute. auto. Qed.

(** The second task fails: the success rate goes from 85 to 84. *)
Example failed_run_metrics :
  let w' := snd (executeDAG silent_code data_pipeline world_fail) in
  ex_status (execution w') = "failed" /\
  (successRate (metrics (this w')) == 84)%Q /\
  (totalExecutions (metrics (this w')) == 1)%Q.
Proof. vm_compute. auto. Qed.

(** A callback unsubscribed during a run receives no later event of the
    run: callback 1 unsubscribes callback 2 at the first event. *)
Example unsubscribed_during_run :
  map fst (delivered (snd (executeDAG canceller data_pipeline world_ok))) =
    repeat 1 10.
Proof. vm_compute. reflexivity. Qed.

(* ===================================================================== *)
(** * Part V: facts about the rest of the engine and the application *)
(* ===================================================================== *)

(** ** Numbers: counters, exact values, binades *)

Section MoreNumberFacts.
Import Number.
Local Open Scope Q_scope.

Lemma round53_exact_int (x : Q) (z : Z) :
  x == inject_Z z -> (Z.abs z < 2 ^ 53)%Z -> round53 x == inject_Z z.
Proof.
  intros Hx Hz.
  assert (Ha : Qabs x < pow2 53).
  { apply (small_abs _ z z); [rewrite Hx; apply Qle_refl | rewrite Hx; apply Qle_refl | lia | lia]. }
  apply Qle_antisym.
  - apply round53_upper; [exact Ha | rewrite Hx; apply Qle_refl].
  - apply round53_lower; [exact Ha | rewrite Hx; apply Qle_refl].
Qed.

Lemma totalExecutions_step success m (k : Z) :
  totalExecutions m == inject_Z k -> (0 <= k)%Z -> (k + 1 < 2 ^ 53)%Z ->
  totalExecutions (updateMetrics success m) == inject_Z (k + 1).
Proof.
  intros Hm H0 Hk. cbn [updateMetrics totalExecutions]. unfold add.
  apply round53_exact_int; [| lia].
  rewrite Hm, inject_Z_plus. reflexivity.
Qed.

Lemma totalExecutions_run outcomes : forall m (k : Z),
  totalExecutions m == inject_Z k -> (0 <= k)%Z ->
  (k + Z.of_nat (length outcomes) < 2 ^ 53)%Z ->
  totalExecutions (run_metrics outcomes m) == inject_Z (k + Z.of_nat (length outcomes)).
Proof.
  induction outcomes as [| b l IH]; intros m k Hm H0 Hk.
  - cbn. rewrite Z.add_0_r. exact Hm.
  - cbn [run_metrics fold_left length] in *.
    replace (k + Z.of_nat (S (length l)))%Z with ((k + 1) + Z.of_nat (length l))%Z by lia.
    apply IH; [apply totalExecutions_step; [exact Hm | exact H0 | lia] | lia | lia].
Qed.

Lemma queueDepth_step success m (q : Z) :
  queueDepth m == inject_Z q -> (0 <= q <= 5)%Z ->
  queueDepth (updateMetrics success m) == inject_Z (Z.max 0 (q - 1)).
Proof.
  intros Hm Hq. cbn [updateMetrics queueDepth]. unfold Math_max, sub.
  assert (Hr : round53 (queueDepth m - 1) == inject_Z (q - 1)).
  { apply round53_exact_int; [| lia].
    rewrite Hm. unfold Zminus. rewrite inject_Z_plus. reflexivity. }
  destruct (Z_le_gt_dec 1 q) as [H1 | H1].
  - rewrite Z.max_r by lia. rewrite Q.max_r; [exact Hr |].
    rewrite Hr. rewrite <- (Zle_Qle 0). lia.
  - rewrite Z.max_l by lia. rewrite Q.max_l; [reflexivity |].
    rewrite Hr. rewrite <- (Zle_Qle _ 0). lia.
Qed.

Lemma queueDepth_run outcomes : forall m (q : Z),
  queueDepth m == inject_Z q -> (0 <= q <= 5)%Z ->
  queueDepth (run_metrics outcomes m)
  == inject_Z (Z.max 0 (q - Z.of_nat (length outcomes))).
Proof.
  induction outcomes as [| b l IH]; intros m q Hm Hq.
  - cbn. rewrite Z.sub_0_r, Z.max_r by lia. exact Hm.
  - cbn [run_metrics fold_left length] in *.
    rewrite (IH _ (Z.max 0 (q - 1))); [| apply queueDepth_step; assumption | lia].
    apply inject_Z_injective. lia.
Qed.

End MoreNumberFacts.

Section DyadicFacts.
Import Number.
Local Open Scope Q_scope.

Lemma ulp_exp_le x (k : Z) :
  (0 <= k <= 1074)%Z -> Qabs x < pow2 (53 - k) -> ~ x == 0 -> (ulp_exp x <= - k)%Z.
Proof.
  intros Hk Hlt Hnz. unfold ulp_exp.
  pose proof (ilog2_lower _ (Qabs_pos x Hnz)) as Hl.
  destruct (Z_le_gt_dec (ilog2 (Qabs x)) (52 - k)) as [Hle | Hgt]; [lia |].
  exfalso. assert (pow2 (53 - k) <= pow2 (ilog2 (Qabs x))) by (apply pow2_le; lia).
  lra.
Qed.

Lemma rne_integer q (n : Z) : q == inject_Z n -> rne q = n.
Proof.
  intros H. apply Z.le_antisymm.
  - apply rne_upper. rewrite H. apply Qle_refl.
  - apply rne_lower. rewrite H. apply Qle_refl.
Qed.

(** A multiple of [2^-k] below [2^(53-k)] in absolute value is a Number. *)
Lemma round53_exact_dyadic x (a k : Z) :
  (0 <= k <= 1074)%Z -> x == inject_Z a * pow2 (- k) -> Qabs x < pow2 (53 - k) ->
  round53 x == x.
Proof.
  intros Hk Hx Hlt. unfold round53. destruct (Qeq_bool x 0) eqn:Hz.
  - apply Qeq_bool_iff in Hz. rewrite Hz. reflexivity.
  - assert (Hnz : ~ x == 0) by (apply Qeq_bool_neq; exact Hz).
    pose proof (ulp_exp_le x k Hk Hlt Hnz) as He.
    pose proof (pow2_pos (ulp_exp x)) as Hu.
    set (e := ulp_exp x) in *.
    assert (Hq : x / pow2 e == inject_Z (a * 2 ^ (- k - e))).
    { rewrite Hx, inject_Z_mult, <- pow2_inject by lia.
      replace (- k - e)%Z with (- k + - e)%Z by lia. rewrite pow2_add.
      unfold Qdiv, pow2. rewrite (Qpower_opp 2 e). ring. }
    rewrite (rne_integer _ _ Hq), <- Hq.
    unfold Qdiv. rewrite <- Qmult_assoc, (Qmult_comm (/ pow2 e)), Qmult_inv_r; [ring |].
    apply Qnot_eq_sym, Qlt_not_eq, Hu.
Qed.

Lemma round53_exact_half x (a : Z) :
  x == inject_Z a / 2 -> (Z.abs a < 2 ^ 53)%Z -> round53 x == x.
Proof.
  intros Hx Ha. apply (round53_exact_dyadic x a 1); [lia | |].
  - rewrite Hx. unfold Qdiv. apply Qmult_comp; [reflexivity |]. reflexivity.
  - rewrite Hx. change (pow2 (53 - 1)) with (pow2 52). rewrite pow2_inject by lia.
    assert (H1 : (- 2 ^ 53 < a)%Z) by lia. assert (H2 : (a < 2 ^ 53)%Z) by lia.
    rewrite Zlt_Qlt in H1, H2. rewrite inject_Z_opp in H1.
    change (inject_Z (2 ^ 53)) with (2 * inject_Z (2 ^ 52)) in H1, H2.
    generalize dependent (inject_Z (2 ^ 52)). generalize dependent (inject_Z a).
    intros y _ p H1 H2. unfold Qdiv. change (/ 2) with (1 # 2). apply Qabs_case; intros; lra.
Qed.

End DyadicFacts.

Section RateFacts.
Import Number.
Local Open Scope Q_scope.

Lemma successRate_step success m r (k : Z) :
  successRate m == r -> r == inject_Z k / 2 -> (140 <= k <= 190)%Z ->
  successRate (updateMetrics success m) == exact_rate r success /\
  exists k', exact_rate r success == inject_Z k' / 2 /\ (140 <= k' <= 190)%Z.
Proof.
  intros Hm Hr Hk. cbn [updateMetrics successRate]. unfold exact_rate, Math_min, Math_max, add, sub.
  assert (H140 : inject_Z 140 <= inject_Z k <= inject_Z 190).
  { rewrite <- !Zle_Qle. exact Hk. }
  assert (Hr' : r == inject_Z k * (1 # 2)) by (rewrite Hr; reflexivity).
  destruct success.
  - assert (Hx : round53 (successRate m + literal (1 # 2)) == r + (1 # 2)).
    { rewrite (round53_exact_half _ (k + 1)).
      - rewrite Hm, half_literal. reflexivity.
      - rewrite Hm, half_literal, Hr', inject_Z_plus. unfold Qdiv. change (/ 2) with (1 # 2).
        change (inject_Z 1) with 1. ring.
      - lia. }
    split.
    + destruct (Q.min_spec 95 (round53 (successRate m + literal (1 # 2)))) as [[H1 E1] | [H1 E1]];
        destruct (Q.min_spec 95 (r + (1 # 2))) as [[H2 E2] | [H2 E2]];
        rewrite E1, E2; try reflexivity; try exact Hx; rewrite Hx in H1; lra.
    + destruct (Q.min_spec 95 (r + (1 # 2))) as [[H2 E2] | [H2 E2]].
      * exists 190%Z. split; [rewrite E2; reflexivity | lia].
      * exists (k + 1)%Z. split.
        -- rewrite E2, Hr', inject_Z_plus. unfold Qdiv. change (/ 2) with (1 # 2).
           change (inject_Z 1) with 1. ring.
        -- split; [lia |]. rewrite Zle_Qle, inject_Z_plus. change (inject_Z 1) with 1.
           change (inject_Z 190) with 190. lra.
  - assert (Hx : round53 (successRate m - 1) == r - 1).
    { rewrite (round53_exact_half _ (k - 2)).
      - rewrite Hm. reflexivity.
      - rewrite Hm, Hr'. unfold Zminus. rewrite inject_Z_plus. unfold Qdiv. change (/ 2) with (1 # 2).
        change (inject_Z (- (2))) with (- (2)). ring.
      - lia. }
    split.
    + destruct (Q.max_spec 70 (round53 (successRate m - 1))) as [[H1 E1] | [H1 E1]];
        destruct (Q.max_spec 70 (r - 1)) as [[H2 E2] | [H2 E2]];
        rewrite E1, E2; try reflexivity; try exact Hx; rewrite Hx in H1; lra.
    + destruct (Q.max_spec 70 (r - 1)) as [[H2 E2] | [H2 E2]].
      * exists (k - 2)%Z. split.
        -- rewrite E2, Hr'. unfold Zminus. rewrite inject_Z_plus. unfold Qdiv. change (/ 2) with (1 # 2).
           change (inject_Z (- (2))) with (- (2)). ring.
        -- split; [| lia]. rewrite Zle_Qle. unfold Zminus. rewrite inject_Z_plus.
           change (inject_Z (- (2))) with (- (2)). change (inject_Z 140) with 140. lra.
      * exists 140%Z. split; [rewrite E2; reflexivity | lia].
Qed.

Lemma successRate_run outcomes : forall m r (k : Z),
  successRate m == r -> r == inject_Z k / 2 -> (140 <= k <= 190)%Z ->
  successRate (run_metrics outcomes m) == fold_left exact_rate outcomes r /\
  exists k', fold_left exact_rate outcomes r == inject_Z k' / 2 /\ (140 <= k' <= 190)%Z.
Proof.
  induction outcomes as [| b l IH]; intros m r k Hm Hr Hk.
  - cbn. split; [exact Hm |]. exists k. auto.
  - cbn [run_metrics fold_left] in *.
    destruct (successRate_step b m r k Hm Hr Hk) as (H1 & k' & H2 & H3).
    apply (IH _ _ k' H1 H2 H3).
Qed.

End RateFacts.

Section BinadeFacts.
Import Number.
Local Open Scope Q_scope.

Lemma ilog2_upper x : 0 < x -> x < pow2 (ilog2 x + 1).
Proof.
  intros Hx. unfold ilog2.
  destruct (Qle_bool _ x) eqn:Hb.
  - clear Hb. destruct x as [n d]. cbn [Qnum Qden].
    assert (Hn : (0 < n)%Z).
    { unfold Qlt in Hx. cbn in Hx. lia. }
    pose proof (Z.log2_spec n Hn) as [_ Ha].
    pose proof (Z.log2_spec (Zpos d) (Pos2Z.is_pos d)) as [Hd _].
    pose proof (Z.log2_nonneg n) as Ha0.
    pose proof (Z.log2_nonneg (Zpos d)) as Hb0.
    set (a := Z.log2 n) in *. set (b := Z.log2 (Zpos d)) in *.
    assert (Hq : n # d == inject_Z n / inject_Z (Zpos d)) by apply Qmake_Qdiv.
    rewrite Hq.
    apply Qlt_shift_div_r; [ rewrite <- (Zlt_Qlt 0); lia |].
    apply Qlt_le_trans with (pow2 (a - b + 1) * pow2 b).
    + rewrite <- pow2_add. replace (a - b + 1 + b)%Z with (Z.succ a) by lia.
      rewrite pow2_inject by lia. rewrite <- Zlt_Qlt. exact Ha.
    + apply Qmult_le_l; [apply pow2_pos |].
      rewrite pow2_inject by lia. rewrite <- Zle_Qle. exact Hd.
  - replace (Z.log2 (Qnum x) - Z.log2 (Z.pos (Qden x)) - 1 + 1)%Z
      with (Z.log2 (Qnum x) - Z.log2 (Z.pos (Qden x)))%Z by lia.
    apply Qnot_le_lt. intros H. apply Qle_bool_iff in H. congruence.
Qed.

Lemma ilog2_unique x (e : Z) : pow2 e <= x -> x < pow2 (e + 1) -> ilog2 x = e.
Proof.
  intros Hl Hu.
  assert (Hx : 0 < x) by (pose proof (pow2_pos e); lra).
  pose proof (ilog2_lower x Hx) as Hl'. pose proof (ilog2_upper x Hx) as Hu'.
  destruct (Z_dec (ilog2 x) e) as [[Hlt | Hgt] | Heq]; [| | exact Heq]; exfalso.
  - assert (pow2 (ilog2 x + 1) <= pow2 e) by (apply pow2_le; lia). lra.
  - assert (pow2 (e + 1) <= pow2 (ilog2 x)) by (apply pow2_le; lia). lra.
Qed.

Lemma rne_below_half q (m : Z) : q < inject_Z m + (1 # 2) -> (rne q <= m)%Z.
Proof.
  intros H. pose proof (Qfloor_le q) as Hf. pose proof (Qlt_floor q) as Hc.
  assert (Hm : (Qfloor q <= m)%Z).
  { apply Z.lt_succ_r. rewrite Zlt_Qlt. unfold Z.succ. rewrite inject_Z_plus.
    change (inject_Z 1) with 1. clear Hc.
    generalize dependent (inject_Z (Qfloor q)). generalize dependent (inject_Z m).
    intros; lra. }
  clear Hc.
  destruct (Z.eq_dec (Qfloor q) m) as [E | E].
  - unfold rne. rewrite E.
    assert (Hlt : Qcompare (q - inject_Z m) (1 # 2) = Lt) by (apply -> Qlt_alt; lra).
    rewrite Hlt. lia.
  - pose proof (rne_floor q). lia.
Qed.

Lemma Qabs_of_pos x : 0 < x -> Qabs x = x.
Proof.
  destruct x as [n d]. unfold Qlt. cbn. intros H. rewrite Z.abs_eq by lia. reflexivity.
Qed.

(** The value of [round53] at a nonzero argument, from its binade. *)
Lemma round53_binade x (e : Z) :
  pow2 e <= x -> x < pow2 (e + 1) -> (-1074 <= e - 52)%Z ->
  round53 x == inject_Z (rne (x / pow2 (e - 52))) * pow2 (e - 52).
Proof.
  intros Hl Hu He.
  assert (Hx : 0 < x) by (pose proof (pow2_pos e); lra).
  unfold round53. destruct (Qeq_bool x 0) eqn:Hz.
  - apply Qeq_bool_iff in Hz. lra.
  - unfold ulp_exp. rewrite (Qabs_of_pos x Hx). rewrite (ilog2_unique x e Hl Hu).
    rewrite Z.max_l by lia. reflexivity.
Qed.

(** A Number below 1 is at most [1 - 2^-53]. *)
Lemma number_below_one r : round53 r == r -> r < 1 -> r <= pred_one.
Proof.
  intros Hr H1. destruct (Qlt_le_dec r (1 # 2)) as [Hs | Hb].
  - unfold pred_one. change (pow2 (-53)) with (1 # 9007199254740992). lra.
  - rewrite (round53_binade r (-1)) in Hr; [| exact Hb | exact H1 | lia].
    change (-1 - 52)%Z with (-53)%Z in Hr.
    set (k := rne (r / pow2 (-53))) in *.
    assert (Hk : (k < 2 ^ 53)%Z).
    { rewrite Zlt_Qlt. change (inject_Z (2 ^ 53)) with (9007199254740992 # 1).
      change (pow2 (-53)) with (1 # 9007199254740992) in Hr. lra. }
    assert (Hk' : inject_Z k <= inject_Z (2 ^ 53 - 1)) by (rewrite <- Zle_Qle; lia).
    change (inject_Z (2 ^ 53 - 1)) with (9007199254740991 # 1) in Hk'.
    unfold pred_one. change (pow2 (-53)) with (1 # 9007199254740992) in Hr |- *. lra.
Qed.
End BinadeFacts.

Section RoundingFacts.
Import Number.
Local Open Scope Q_scope.

Lemma rne_proper q q' : q == q' -> rne q = rne q'.
Proof.
  intros H. unfold rne. rewrite (Qfloor_comp _ _ H).
  assert (Hc : Qcompare (q - inject_Z (Qfloor q')) (1 # 2)
               = Qcompare (q' - inject_Z (Qfloor q')) (1 # 2)).
  { apply Qcompare_comp; [rewrite H; reflexivity | reflexivity]. }
  rewrite Hc. reflexivity.
Qed.

Lemma ilog2_proper x y : 0 < x -> x == y -> ilog2 x = ilog2 y.
Proof.
  intros Hx H. symmetry. apply ilog2_unique.
  - rewrite <- H. apply ilog2_lower, Hx.
  - rewrite <- H. apply ilog2_upper, Hx.
Qed.

(** Rounding depends on the value of its argument only, not on the fraction
    that denotes it. *)
Lemma round53_proper x y : x == y -> round53 x == round53 y.
Proof.
  intros H. unfold round53.
  destruct (Qeq_bool x 0) eqn:Hx; destruct (Qeq_bool y 0) eqn:Hy.
  - reflexivity.
  - apply Qeq_bool_iff in Hx. apply Qeq_bool_neq in Hy. rewrite <- H in Hy. contradiction.
  - apply Qeq_bool_iff in Hy. apply Qeq_bool_neq in Hx. rewrite H in Hx. contradiction.
  - apply Qeq_bool_neq in Hx.
    assert (He : ulp_exp x = ulp_exp y).
    { unfold ulp_exp. f_equal. f_equal. apply ilog2_proper.
      - apply Qabs_pos, Hx.
      - rewrite H. reflexivity. }
    rewrite He. rewrite (rne_proper (x / pow2 (ulp_exp y)) (y / pow2 (ulp_exp y))).
    + reflexivity.
    + rewrite H. reflexivity.
Qed.

(** The relative error of rounding upwards, away from the subnormal range. *)
Lemma round53_relative x :
  pow2 (-1022) <= x -> round53 x <= x * (1 + pow2 (-52)).
Proof.
  intros Hx.
  assert (H0 : 0 < x) by (pose proof (pow2_pos (-1022)); lra).
  pose proof (ilog2_lower x H0) as Hl. pose proof (ilog2_upper x H0) as Hu.
  set (e := ilog2 x) in *.
  assert (He : (-1022 <= e)%Z).
  { destruct (Z_le_gt_dec (-1022) e) as [H | H]; [exact H |]. exfalso.
    assert (pow2 (e + 1) <= pow2 (-1022)) by (apply pow2_le; lia). lra. }
  rewrite (round53_binade x e Hl Hu) by lia.
  pose proof (pow2_pos (e - 52)) as Hpos.
  assert (Hu52 : pow2 (e - 52) == pow2 e * pow2 (-52)).
  { rewrite <- pow2_add. replace (e + -52)%Z with (e - 52)%Z by lia. reflexivity. }
  set (u := pow2 (e - 52)) in *.
  pose proof (rne_floor (x / u)) as [_ Hr]. pose proof (Qfloor_le (x / u)) as Hf.
  assert (Hq : inject_Z (rne (x / u)) <= x / u + 1).
  { rewrite Zle_Qle, inject_Z_plus in Hr. change (inject_Z 1) with 1 in Hr.
    generalize dependent (inject_Z (rne (x / u))).
    generalize dependent (inject_Z (Qfloor (x / u))). intros; lra. }
  apply Qle_trans with ((x / u + 1) * u).
  - apply Qmult_le_compat_r; [exact Hq | lra].
  - assert (Hd : x / u * u == x).
    { unfold Qdiv. rewrite <- Qmult_assoc, (Qmult_comm (/ u)), Qmult_inv_r; [ring |].
      apply Qnot_eq_sym, Qlt_not_eq, Hpos. }
    assert (Hp52 : 0 < pow2 (-52)) by apply pow2_pos.
    assert (Hle : u <= x * pow2 (-52)).
    { rewrite Hu52. apply Qmult_le_compat_r; [exact Hl | lra]. }
    rewrite Qmult_plus_distr_l, Hd. lra.
Qed.
End RoundingFacts.

(** ** Delivery: how it ends *)

Section VisitCompletion.
Variable code : Code.
Variable data : Event.

Lemma visit_completion_ext g1 g2 slots :
  (forall c, existsb (Nat.eqb c) g1 = existsb (Nat.eqb c) g2) ->
  visit_completion code data g1 slots = visit_completion code data g2 slots.
Proof.
  revert g1 g2. induction slots as [| [c |] rest IH]; intros g1 g2 H; cbn.
  - reflexivity.
  - rewrite <- (H c). destruct (existsb (Nat.eqb c) g1); [apply IH, H |].
    destruct (throws (code c data)); [reflexivity |].
    apply IH. intros c'. rewrite !existsb_app, H. reflexivity.
  - apply IH, H.
Qed.

Lemma visit_completion_delete g u slots :
  visit_completion code data g (Set_delete u slots) = visit_completion code data (g ++ [u]) slots.
Proof.
  revert g. induction slots as [| [c |] rest IH]; intros g; cbn.
  - reflexivity.
  - rewrite existsb_app. cbn. rewrite orb_false_r.
    destruct (Nat.eqb u c) eqn:E.
    + apply Nat.eqb_eq in E. subst c. rewrite Nat.eqb_refl, orb_true_r. cbn. apply IH.
    + rewrite (Nat.eqb_sym c u), E, orb_false_r. cbn.
      destruct (existsb (Nat.eqb c) g); [apply IH |].
      destruct (throws (code c data)); [reflexivity |].
      rewrite IH. apply visit_completion_ext. intros c'.
      rewrite !existsb_app. cbn. destruct (existsb (Nat.eqb c') g), (Nat.eqb c' u),
        (existsb (Nat.eqb c') (unsubscribes (code c data))); reflexivity.
  - apply IH.
Qed.

Lemma visit_completion_delete_all g us slots :
  visit_completion code data g (delete_all us slots) = visit_completion code data (g ++ us) slots.
Proof.
  revert g slots. induction us as [| u us IH]; intros g slots; cbn.
  - rewrite app_nil_r. reflexivity.
  - unfold delete_all in *. rewrite IH, visit_completion_delete.
    apply visit_completion_ext. intros c.
    rewrite !existsb_app. cbn.
    destruct (existsb (Nat.eqb c) g), (Nat.eqb c u), (existsb (Nat.eqb c) us); reflexivity.
Qed.

Lemma forEach_completion n i w :
  n = (length (subscribers (this w)) - i)%nat ->
  fst (forEach code n i data w) =
    visit_completion code data [] (skipn i (subscribers (this w))).
Proof.
  revert i w. induction n as [| n IH]; intros i w Hn; cbn [forEach].
  - rewrite skipn_all2 by lia. reflexivity.
  - destruct (nth_error (subscribers (this w)) i) as [[c |] |] eqn:E.
    + rewrite (skipn_nth_error _ _ _ E). cbn [visit_completion existsb].
      unfold bind, call. destruct (throws (code c data)) eqn:T; cbn [fst].
      * reflexivity.
      * rewrite IH; cbn [this]; rewrite subscribers_unsubscribe_all.
        -- rewrite delete_all_skipn, visit_completion_delete_all. reflexivity.
        -- rewrite delete_all_length. lia.
    + rewrite (skipn_nth_error _ _ _ E). cbn [visit_completion]. apply IH. lia.
    + apply nth_error_None in E. lia.
Qed.

Lemma completion_visit w :
  completion_after code data w = visit_completion code data [] (subscribers (this w)).
Proof.
  unfold completion_after, notify. rewrite forEach_completion by (cbn; lia). reflexivity.
Qed.

(** The callback that throws is the last one called. *)
Lemma visit_completion_throw g slots m :
  visit_completion code data g slots = Throw m <->
  exists pre c, visit code data g slots = pre ++ [c] /\ throws (code c data) = Some m.
Proof.
  revert g. induction slots as [| [c |] rest IH]; intros g; cbn.
  - split; [discriminate |]. intros (pre & c & H & _). destruct pre; discriminate.
  - destruct (existsb (Nat.eqb c) g); [apply IH |].
    destruct (throws (code c data)) as [m' |] eqn:T.
    + split.
      * intros [= ->]. exists [], c. auto.
      * intros (pre & c' & H & T'). destruct pre as [| p [| q pre]]; try discriminate.
        injection H as <-. congruence.
    + rewrite IH. split.
      * intros (pre & c' & H & T'). exists (c :: pre), c'. rewrite H. auto.
      * intros (pre & c' & H & T'). destruct pre as [| p pre].
        -- injection H as <- _. congruence.
        -- injection H as <- H. exists pre, c'. auto.
  - apply IH.
Qed.

Lemma visit_before_last g slots pre c post :
  visit code data g slots = pre ++ c :: post -> post <> [] -> throws (code c data) = None.
Proof.
  revert g pre. induction slots as [| [a |] rest IH]; intros g pre; cbn.
  - destruct pre; discriminate.
  - destruct (existsb (Nat.eqb a) g); [apply IH |].
    destruct (throws (code a data)) eqn:T.
    + destruct pre as [| p [| q pre]]; cbn; intros [= <- H]; subst; try discriminate.
      intros Hp. destruct (Hp eq_refl).
    + destruct pre as [| p pre]; cbn.
      * intros [= <- H] _. exact T.
      * intros [= <- H]. apply (IH _ _ H).
  - apply IH.
Qed.

Lemma visit_sublist g slots : sublist (visit code data g slots) (Set_elements slots).
Proof.
  revert g. induction slots as [| [c |] rest IH]; intros g; cbn.
  - constructor.
  - destruct (existsb (Nat.eqb c) g); [apply sublist_cons, IH |].
    apply sublist_skip. destruct (throws (code c data)); [apply sublist_nil_l | apply IH].
  - apply IH.
Qed.

Lemma visit_all g slots :
  (forall c, In c (Set_elements slots) ->
     existsb (Nat.eqb c) g = false /\ code c data = silent) ->
  visit code data g slots = Set_elements slots.
Proof.
  revert g. induction slots as [| [c |] rest IH]; intros g H; cbn in *.
  - reflexivity.
  - destruct (H c (or_introl eq_refl)) as [-> Hs]. rewrite Hs. cbn. rewrite app_nil_r.
    f_equal. apply IH. intros c' Hc'. apply H. right. exact Hc'.
  - apply IH, H.
Qed.
End VisitCompletion.

Lemma Set_elements_delete c s :
  Set_elements (Set_delete c s) = List.remove Nat.eq_dec c (Set_elements s).
Proof.
  unfold Set_delete. induction s as [| [a |] s IH]; cbn.
  - reflexivity.
  - destruct (Nat.eq_dec c a) as [-> | Hne].
    + rewrite Nat.eqb_refl. cbn. exact IH.
    + apply Nat.eqb_neq in Hne. rewrite Hne. cbn. rewrite IH. reflexivity.
  - exact IH.
Qed.

Lemma Set_has_delete c s : Set_has c (Set_delete c s) = false.
Proof.
  unfold Set_has, Set_delete. induction s as [| [a |] s IH]; cbn; [reflexivity | | exact IH].
  destruct (Nat.eqb c a) eqn:E; cbn; [exact IH | rewrite E; exact IH].
Qed.

Lemma visit_completion_normal code data g slots :
  visit_completion code data g slots = Normal tt ->
  Forall (fun c => throws (code c data) = None) (visit code data g slots).
Proof.
  revert g. induction slots as [| [c |] rest IH]; intros g; cbn.
  - constructor.
  - destruct (existsb (Nat.eqb c) g); [apply IH |].
    destruct (throws (code c data)) eqn:T; [discriminate |].
    intros H. constructor; [exact T | apply IH, H].
  - apply IH.
Qed.

Lemma visit_before_thrower code data g slots pre c :
  visit code data g slots = pre ++ [c] ->
  Forall (fun c' => throws (code c' data) = None) pre.
Proof.
  intros H. apply List.Forall_forall. intros c' Hin.
  apply in_split in Hin as (l1 & l2 & ->).
  rewrite <- app_assoc in H. cbn in H.
  apply (visit_before_last code data g slots l1 c' (l2 ++ [c]) H).
  destruct l2; discriminate.
Qed.

Lemma subscribers_silent code data w :
  (forall c, In c (Set_elements (subscribers (this w))) -> code c data = silent) ->
  subscribers_after code data w = subscribers (this w).
Proof.
  intros H. unfold subscribers_after, notify.
  assert (G : forall n i w0,
    subscribers (this w0) = subscribers (this w) ->
    subscribers (this (snd (forEach code n i data w0))) = subscribers (this w)).
  { induction n as [| n IH]; intros i w0 Hw; cbn [forEach]; [exact Hw |].
    destruct (nth_error _ i) as [[c |] |] eqn:E; [| apply IH, Hw | exact Hw].
    unfold bind, call. rewrite H.
    - cbn. apply IH. cbn. exact Hw.
    - apply Set_elements_In. rewrite <- Hw. apply (nth_error_In _ _ E). }
  apply G. reflexivity.
Qed.

(** ** Runs with arbitrary callbacks: exits, store, samples, timers *)

Section AnyRun.
Variable code : Code.

Lemma delivered_visit data w :
  delivered_after code data w =
    delivered w ++ map (fun c => (c, data)) (receivers code data w).
Proof.
  rewrite receivers_visit. unfold delivered_after, notify.
  rewrite forEach_visit by (cbn; lia). reflexivity.
Qed.


End AnyRun.

#[local] Instance store_frame_preorder : PreOrder store_frame.
Proof.
  split.
  - intros w. split; reflexivity.
  - intros a b c [Hi1 Ho1] [Hi2 Ho2]. split; [congruence |].
    intros k Hk. rewrite Ho2, Ho1; [reflexivity | exact Hk | congruence].
Qed.

Lemma mutate_store_frame f :
  (forall e, ex_id (f e) = ex_id e) -> preserves store_frame (mutate f).
Proof.
  intros Hf w. split; cbn; [apply Hf |].
  intros k Hk. rewrite Hf. apply lookup_insert_ne. congruence.
Qed.

Ltac store_prim := intros ?; split; cbn; [reflexivity | intros; reflexivity].

Section Store.
Variable code : Code.

Lemma publish_store_frame ty task : preserves store_frame (publish code ty task).
Proof.
  intros w. unfold publish.
  destruct (notify_hub_frame code {| ev_type := ty; ev_execution := execution w; ev_task := task |} w)
    as [_ _ _ _ He _ Hx _ _].
  split; [rewrite He; reflexivity | intros k _; rewrite Hx; reflexivity].
Qed.

Lemma for_tasks_store_frame tasks : preserves store_frame (for_tasks code tasks).
Proof.
  induction tasks as [| task tl IH]; cbn [for_tasks]; unfold set_task;
    frame_steps ltac:(first [apply publish_store_frame
                            | apply mutate_store_frame; intros ?; reflexivity
                            | exact IH | store_prim]).
Qed.

Lemma executeDAG_rest_store_frame dag : preserves store_frame (executeDAG_rest code dag).
Proof.
  unfold executeDAG_rest.
  frame_steps ltac:(first [apply publish_store_frame
                          | apply mutate_store_frame; intros ?; reflexivity
                          | apply for_tasks_store_frame | store_prim]).
Qed.

End Store.

Lemma split_first_failure rnd pos tasks : forall j,
  match first_failure (fun i => rnd (pos + 1 + 2 * i)) j (length tasks) with
  | None => split_at_failure rnd (pos + 2 * j) tasks = (tasks, [])
  | Some k =>
      j <= k < j + length tasks /\
      split_at_failure rnd (pos + 2 * j) tasks = (firstn (k - j) tasks, skipn (k - j) tasks) /\
      passes (rnd (pos + 1 + 2 * k)) = false
  end.
Proof.
  induction tasks as [| t tl IH]; intros j; cbn [length first_failure split_at_failure].
  - reflexivity.
  - replace (S (pos + 2 * j)) with (pos + 1 + 2 * j) by lia.
    fold (passes (rnd (pos + 1 + 2 * j))).
    destruct (passes (rnd (pos + 1 + 2 * j))) eqn:P.
    + specialize (IH (S j)).
      replace (S (pos + 1 + 2 * j)) with (pos + 2 * S j) by lia.
      destruct (first_failure _ (S j) (length tl)) as [k |].
      * destruct IH as (Hk & -> & Hp). cbn [fst snd].
        split; [lia |]. split; [| exact Hp].
        replace (k - j) with (S (k - S j)) by lia. reflexivity.
      * rewrite IH. reflexivity.
    + split; [lia |]. rewrite Nat.sub_diag. split; [reflexivity | exact P].
Qed.

Lemma first_failure_ext f g n : forall j,
  (forall i, f i = g i) -> first_failure f j n = first_failure g j n.
Proof.
  induction n as [| n IH]; intros j H; cbn; [reflexivity |].
  rewrite H. destruct (passes (g j)); [apply IH, H | reflexivity].
Qed.

Lemma firstn_S_skipn {A} (l : list A) k x post :
  skipn k l = x :: post -> firstn (S k) l = firstn k l ++ [x].
Proof.
  revert k. induction l as [| y l IH]; intros [| k] H; cbn in *; try discriminate.
  - injection H as -> _. reflexivity.
  - f_equal. apply IH, H.
Qed.

Lemma started_task_events pre rest :
  flat_map started_of_view (task_events pre rest) =
  map t_id pre ++ match rest with t :: _ => [t_id t] | [] => [] end.
Proof.
  unfold task_events. rewrite flat_map_app. f_equal.
  - induction pre as [| t pre IH]; cbn; [reflexivity |]. rewrite IH. reflexivity.
  - destruct rest; reflexivity.
Qed.

Ltac on_grid lo hi :=
  first [ apply (round53_lower lo) | apply (round53_upper hi) ];
  [ apply (small_abs _ lo hi);
    [ unfold inject_Z; lra | unfold inject_Z; lra | reflexivity | reflexivity ]
  | unfold inject_Z; lra ].

Section TimerFacts.
Import Number.
Local Open Scope Q_scope.

Lemma delay_closed_range r : unit_interval r -> 1000 <= delay_of r <= 3000.
Proof.
  intros [H0 H1]. unfold delay_of, add, mul.
  assert (Hm : 0 <= round53 (r * 2000) <= 2000).
  { split.
    - change 0 with (inject_Z 0). on_grid 0%Z 2000%Z.
    - change 2000 with (inject_Z 2000). on_grid 0%Z 2000%Z. }
  split.
  - change 1000 with (inject_Z 1000). on_grid 1000%Z 3000%Z.
  - change 3000 with (inject_Z 3000). on_grid 1000%Z 3000%Z.
Qed.

(** With the largest Number below 1 the delay is 3000. *)
Lemma delay_at_pred_one : delay_of pred_one == 3000.
Proof. vm_compute. reflexivity. Qed.

End TimerFacts.

Section Timers.
Variable code : Code.

(** The loop starts one timer for each task it reaches and whose start was
    delivered, with the delay made from the task's first sample. *)
Lemma for_tasks_timers tasks : forall w,
  exists n, (n <= length tasks)%nat /\
    timers (snd (for_tasks code tasks w)) =
      timers w ++ map (fun i => delay_of (random w (random_reads w + 2 * i))) (seq 0 n).
Proof.
  induction tasks as [| task tl IH]; intros w.
  - exists 0%nat. cbn. rewrite app_nil_r. auto.
  - cbn [for_tasks]. unfold bind, publish, set_task, mutate, Date_now, Math_random, await_timeout.
    rewrite notify_eq. cbn.
    destruct (completion_after _ _ _) as [[] | e]; cbn.
    + fold (delay_of (random w (random_reads w))).
      destruct (Number.gt _ _); cbn.
      * rewrite notify_eq. cbn.
        destruct (completion_after _ _ _) as [[] | e]; cbn.
        -- match goal with |- context [for_tasks code tl ?W] =>
             destruct (IH W) as (n & Hn & HT) end.
           exists (S n). split; [lia |]. rewrite HT. cbn. rewrite <- app_assoc. cbn.
           rewrite Nat.add_0_r. do 2 f_equal.
           rewrite <- seq_shift, map_map. apply map_ext. intros i. do 2 f_equal. lia.
        -- exists 1%nat. cbn. rewrite Nat.add_0_r. split; [lia | reflexivity].
      * exists 1%nat. cbn. rewrite Nat.add_0_r. split; [lia | reflexivity].
    + exists 0%nat. cbn. rewrite app_nil_r. split; [lia | reflexivity].
Qed.

Lemma executeDAG_timers dag w :
  exists n, (n <= length (d_tasks dag))%nat /\
    timers (snd (executeDAG code dag w)) =
      timers w ++ map (fun i => delay_of (delay_sample w i)) (seq 0 n).
Proof.
  unfold executeDAG, bind, try_catch, publish, new_execution, executions_set,
    Date_now, Math_random.
  cbn. rewrite notify_eq. cbn.
  destruct (completion_after _ _ _) as [[] | e]; cbn.
  - match goal with |- context [for_tasks code (d_tasks dag) ?W] =>
      destruct (for_tasks_timers (d_tasks dag) W) as (n & Hn & HT);
      destruct (for_tasks code (d_tasks dag) W) as [[[] | e] w1]
    end; cbn in HT |- *; rewrite notify_eq; cbn;
      destruct (completion_after _ _ _) as [[] | e']; cbn;
      (exists n; split; [exact Hn |]; rewrite HT; f_equal; apply map_ext; intros i;
       unfold delay_sample; do 2 f_equal; lia).
  - exists 0%nat. cbn. rewrite app_nil_r. split; [lia | reflexivity].
Qed.
End Timers.

(** ** Times, task ids and retries *)

Lemma for_tasks_ids code tasks1 : forall tasks2,
  map t_id tasks1 = map t_id tasks2 -> for_tasks code tasks1 = for_tasks code tasks2.
Proof.
  induction tasks1 as [| t1 l1 IH]; intros [| t2 l2] H; try discriminate; [reflexivity |].
  injection H as Hid Hl. cbn [for_tasks]. rewrite (IH l2 Hl), Hid. reflexivity.
Qed.

#[local] Instance keys_within_preorder ids : PreOrder (keys_within ids).
Proof.
  split.
  - intros w H. exact H.
  - intros a b c Hab Hbc H. exact (Hbc (Hab H)).
Qed.

Lemma keys_prop_set {V} k (v : V) o : incl (keys (prop_set k v o)) (k :: keys o).
Proof.
  induction o as [| [k' v'] o IH]; cbn.
  - apply incl_refl.
  - destruct (String.eqb k k') eqn:E.
    + apply String.eqb_eq in E. subst k'. cbn. apply incl_tl, incl_refl.
    + cbn. intros x [<- | Hx]; [right; left; reflexivity |].
      destruct (IH x Hx) as [<- | Hx']; [left; reflexivity | right; right; exact Hx'].
Qed.

Lemma mutate_task_keys ids k te :
  In k ids -> preserves (keys_within ids) (mutate (with_task k te)).
Proof.
  intros Hk w H. cbn. intros x Hx. apply keys_prop_set in Hx as [<- | Hx]; [exact Hk |].
  apply H, Hx.
Qed.

Ltac keys_prim := intros ? H; exact H.

Section Keys.
Variable code : Code.

Lemma publish_keys_within ids ty task : preserves (keys_within ids) (publish code ty task).
Proof.
  intros w H. unfold publish.
  destruct (notify_hub_frame code {| ev_type := ty; ev_execution := execution w; ev_task := task |} w)
    as [_ _ _ _ He _ _ _ _].
  rewrite He. exact H.
Qed.

Lemma for_tasks_keys_within ids tasks :
  incl (map t_id tasks) ids -> preserves (keys_within ids) (for_tasks code tasks).
Proof.
  induction tasks as [| task tl IH]; intros Hin; cbn [for_tasks]; unfold set_task.
  - apply preserves_ret. typeclasses eauto.
  - assert (Hk : In (t_id task) ids) by (apply Hin; left; reflexivity).
    assert (Hl : incl (map t_id tl) ids) by (intros x Hx; apply Hin; right; exact Hx).
    frame_steps ltac:(first [apply publish_keys_within
                            | apply mutate_task_keys; exact Hk
                            | exact (IH Hl) | keys_prim]).
Qed.

Lemma executeDAG_keys dag w :
  incl (keys (ex_tasks (execution (snd (executeDAG code dag w))))) (map t_id (d_tasks dag)).
Proof.
  rewrite executeDAG_unfold.
  assert (H : preserves (keys_within (map t_id (d_tasks dag))) (executeDAG_rest code dag)).
  { unfold executeDAG_rest.
    frame_steps ltac:(first [apply publish_keys_within
                            | apply for_tasks_keys_within, incl_refl | keys_prim]). }
  apply H. cbn. intros x [].
Qed.
End Keys.

Lemma fills_pending ex tasks :
  (forall t, In t tasks -> ~ In (t_id t) (keys (ex_tasks ex))) ->
  map (fun task => DAGVisualizer.fillColor (DAGVisualizer.taskStatus (Some ex) task)) tasks
  = repeat grey (length tasks).
Proof.
  intros H.
  rewrite <- (length_map (fun task => DAGVisualizer.fillColor
                                        (DAGVisualizer.taskStatus (Some ex) task)) tasks).
  apply Forall_eq_repeat. apply List.Forall_forall. intros c Hc.
  apply in_map_iff in Hc as (t & <- & Hin).
  unfold DAGVisualizer.taskStatus.
  assert (Hn : prop_get (t_id t) (ex_tasks ex) = None) by (apply prop_get_None, H, Hin).
  rewrite Hn. reflexivity.
Qed.


Section Times.
Variable code : Code.


End Times.

#[local] Instance keeps_retries_preorder : PreOrder keeps_retries.
Proof.
  split.
  - intros w H. exact H.
  - intros a b c Hab Hbc H. exact (Hbc (Hab H)).
Qed.

Lemma mutate_task_retries k te :
  te_retries te = 0%Z -> preserves keeps_retries (mutate (with_task k te)).
Proof. intros Hk w H. cbn. apply prop_set_values; assumption. Qed.

Section Retries.
Variable code : Code.

Lemma publish_keeps_retries ty task : preserves keeps_retries (publish code ty task).
Proof.
  intros w H. unfold publish.
  destruct (notify_hub_frame code {| ev_type := ty; ev_execution := execution w; ev_task := task |} w)
    as [_ _ _ _ He _ _ _ _].
  rewrite He. exact H.
Qed.

Lemma for_tasks_keeps_retries tasks : preserves keeps_retries (for_tasks code tasks).
Proof.
  induction tasks as [| task tl IH]; cbn [for_tasks]; unfold set_task;
    frame_steps ltac:(first [apply publish_keeps_retries
                            | apply mutate_task_retries; reflexivity
                            | exact IH | keys_prim]).
Qed.

Lemma executeDAG_retries dag w :
  Forall (fun te => te_retries te = 0%Z)
         (values (ex_tasks (execution (snd (executeDAG code dag w))))).
Proof.
  rewrite executeDAG_unfold.
  assert (H : preserves keeps_retries (executeDAG_rest code dag)).
  { unfold executeDAG_rest.
    frame_steps ltac:(first [apply publish_keeps_retries
                            | apply for_tasks_keeps_retries | keys_prim]). }
  apply H. cbn. constructor.
Qed.
End Retries.

(** ** The application: events, log, history *)

#[local] Instance publishes_well_formed_preorder : PreOrder publishes_well_formed.
Proof.
  split.
  - intros w. exists []. rewrite app_nil_r. auto.
  - intros a b c (e1 & H1 & F1) (e2 & H2 & F2). exists (e1 ++ e2).
    rewrite H2, H1, <- app_assoc, forallb_app, F1, F2. auto.
Qed.

Ltac quiet_prim := intros ?; exists []; cbn; rewrite app_nil_r; auto.

Section WellFormed.
Variable code : Code.

Lemma publish_well_formed ty task :
  (forall ex, well_formed (mkEvent ty ex task) = true) ->
  preserves publishes_well_formed (publish code ty task).
Proof.
  intros H w. unfold publish. eexists [_]. split; [apply notify_published |].
  cbn. rewrite H. reflexivity.
Qed.

Lemma for_tasks_well_formed tasks : preserves publishes_well_formed (for_tasks code tasks).
Proof.
  induction tasks as [| task tl IH]; cbn [for_tasks]; unfold set_task;
    frame_steps ltac:(first [apply publish_well_formed; intros ?; reflexivity
                            | exact IH | quiet_prim]).
Qed.

Lemma executeDAG_well_formed dag : preserves publishes_well_formed (executeDAG code dag).
Proof.
  unfold executeDAG.
  frame_steps ltac:(first [apply publish_well_formed; intros ?; reflexivity
                          | apply for_tasks_well_formed | quiet_prim]).
Qed.

Lemma events_of_run_well_formed dag w :
  forallb well_formed (events_of_run code dag w) = true.
Proof.
  destruct (executeDAG_well_formed dag w) as (evs & H & F).
  unfold events_of_run. rewrite H, skipn_app, skipn_all, Nat.sub_diag. exact F.
Qed.
End WellFormed.

Lemma quiet_mute code : quiet (mute code).
Proof. intros c data. reflexivity. Qed.

Section Mute.
Variable code : Code.
Hypothesis Hcode : quiet_on_runs code.

Lemma forEach_mute n i data w :
  well_formed data = true ->
  forEach code n i data w = forEach (mute code) n i data w.
Proof.
  intros Hd. revert i w. induction n as [| n IH]; intros i w; cbn [forEach]; [reflexivity |].
  destruct (nth_error _ i) as [[c |] |]; [| apply IH | reflexivity].
  unfold bind, call. cbn [mute throws unsubscribes]. rewrite (Hcode c data Hd). apply IH.
Qed.

Lemma publish_mute ty task w :
  (forall ex, well_formed (mkEvent ty ex task) = true) ->
  publish code ty task w = publish (mute code) ty task w.
Proof. intros H. unfold publish, notify. apply forEach_mute, H. Qed.

Lemma for_tasks_mute tasks w : for_tasks code tasks w = for_tasks (mute code) tasks w.
Proof.
  revert w. induction tasks as [| task tl IH]; intros w; [reflexivity |].
  cbn [for_tasks]. unfold bind. destruct (Date_now w) as [[t |] w1]; [| reflexivity].
  destruct (set_task _ w1) as [[[] |] w2]; [| reflexivity].
  rewrite <- publish_mute by (intros ?; reflexivity).
  destruct (publish code _ _ w2) as [[[] |] w3]; [| reflexivity].
  destruct (Math_random w3) as [[r |] w4]; [| reflexivity].
  destruct (await_timeout _ w4) as [[[] |] w5]; [| reflexivity].
  destruct (Math_random w5) as [[r' |] w6]; [| reflexivity].
  destruct (Number.gt r' _); [| reflexivity].
  destruct (set_task _ w6) as [[[] |] w7]; [| reflexivity].
  destruct (Date_now w7) as [[t' |] w8]; [| reflexivity].
  destruct (set_task _ w8) as [[[] |] w9]; [| reflexivity].
  rewrite <- publish_mute by (intros ?; reflexivity).
  destruct (publish code _ _ w9) as [[[] |] w10]; [| reflexivity].
  apply IH.
Qed.

(** A run with callbacks that do not throw on the engine's events is the run
    with the same callbacks muted. *)
Lemma executeDAG_mute dag w : executeDAG code dag w = executeDAG (mute code) dag w.
Proof.
  rewrite !executeDAG_unfold. unfold executeDAG_rest, bind, try_catch.
  rewrite <- publish_mute by (intros ?; reflexivity).
  destruct (publish code _ _ _) as [[[] |] w1]; [| reflexivity].
  rewrite <- for_tasks_mute.
  destruct (for_tasks code _ w1) as [[[] | message] w2];
    unfold mutate, Date_now, update_metrics; cbn;
    rewrite <- publish_mute by (intros ?; reflexivity); reflexivity.
Qed.
End Mute.

Section AppFacts.
Import OrbitalTaskEngine.

Lemma getEventMessage_well_formed e :
  well_formed e = true ->
  exists m, getEventMessage e = Normal m /\ m <> "Unknown event".
Proof.
  unfold well_formed, getEventMessage.
  destruct (ev_task e) as [task |];
    destruct (String.eqb (ev_type e) "execution_started") eqn:E1;
    destruct (String.eqb (ev_type e) "execution_completed") eqn:E2;
    destruct (String.eqb (ev_type e) "task_started") eqn:E3;
    destruct (String.eqb (ev_type e) "task_completed") eqn:E4;
    cbn; try discriminate; intros _; eexists; (split; [reflexivity | cbn; discriminate]).
Qed.

Lemma code_quiet_on_runs : quiet_on_runs code.
Proof.
  intros c data H. unfold code, behaviour. cbn.
  destruct (getEventMessage_well_formed data H) as (m & -> & _). reflexivity.
Qed.

Lemma mute_code_silent c data : mute code c data = silent.
Proof. reflexivity. Qed.

Lemma slice_last_length {A} n (l : list A) : length (slice_last n l) = Nat.min (length l) n.
Proof. unfold slice_last. rewrite length_skipn. lia. Qed.

Lemma slice_last_all {A} n (l : list A) : length l <= n -> slice_last n l = l.
Proof. intros H. unfold slice_last. replace (length l - n) with 0 by lia. reflexivity. Qed.

(** The last [m] entries are not affected by an earlier cut to the last [n],
    when [m <= n + 1] and one entry is added after the cut. *)
Lemma slice_last_step {A} m n (l : list A) x :
  m <= S n -> slice_last m (slice_last n l ++ [x]) = slice_last m (l ++ [x]).
Proof.
  intros H. unfold slice_last. rewrite !length_app, length_skipn. cbn [length].
  destruct (Nat.le_gt_cases (length l) n) as [Hl | Hl].
  - replace (length l - n) with 0 by lia. rewrite skipn_O. f_equal. lia.
  - rewrite !skipn_app, !length_skipn. rewrite skipn_skipn.
    replace (length l - (length l - n) + 1 - m + (length l - n)) with (length l + 1 - m) by lia.
    f_equal. f_equal. lia.
Qed.

Lemma slice_last_app_all {A} m (l1 l2 : list A) :
  length l2 <= m ->
  slice_last m (l1 ++ l2) = slice_last (m - length l2) l1 ++ l2.
Proof.
  intros H. unfold slice_last. rewrite length_app, skipn_app.
  replace (length l1 + length l2 - m - length l1) with 0 by lia. rewrite skipn_O.
  f_equal. f_equal. lia.
Qed.
End AppFacts.

Section LogFacts.
Import OrbitalTaskEngine.
Variable clk : nat -> Z.

Lemma slice_last_cut {A} m n (l r : list A) :
  m <= n + length r -> slice_last m (slice_last n l ++ r) = slice_last m (l ++ r).
Proof.
  intros H. unfold slice_last. rewrite !length_app, length_skipn.
  destruct (Nat.le_gt_cases (length l) n) as [Hl | Hl].
  - replace (length l - n) with 0 by lia. rewrite skipn_O. f_equal. lia.
  - rewrite !skipn_app, !length_skipn, skipn_skipn. f_equal; f_equal; lia.
Qed.

Lemma firstn_cut {A} m k (a b : list A) :
  m <= length a + k -> firstn m (a ++ firstn k b) = firstn m (a ++ b).
Proof.
  intros H. rewrite !firstn_app, firstn_firstn. f_equal. f_equal. lia.
Qed.

Lemma firstn_cut_cons {A} m k (a : list A) x b :
  m <= length a + 1 + k -> firstn m (a ++ x :: firstn k b) = firstn m (a ++ x :: b).
Proof.
  intros H. change (x :: firstn k b) with ([x] ++ firstn k b).
  change (x :: b) with ([x] ++ b). rewrite !app_assoc.
  apply firstn_cut. rewrite length_app. cbn. lia.
Qed.

Lemma on_event_inv i t e s s' :
  on_event i t e s = Normal s' ->
  logs s' = slice_last 50 (logs s) ++ [mkLog i t (message_of e)] /\
  currentExecution s' = Some (ev_execution e) /\
  executions s' =
    (if String.eqb (ev_type e) "execution_completed"
     then ev_execution e :: slice_first 9 (executions s) else executions s) /\
  isExecuting s' =
    (if String.eqb (ev_type e) "execution_started" then true
     else if String.eqb (ev_type e) "execution_completed" then false
     else isExecuting s).
Proof.
  unfold on_event, message_of. destruct (getEventMessage e) as [m | m]; [| discriminate].
  intros [= <-].
  destruct (String.eqb (ev_type e) "execution_started") eqn:E1.
  - apply String.eqb_eq in E1. rewrite E1. cbn. auto.
  - destruct (String.eqb (ev_type e) "execution_completed"); cbn; auto.
Qed.

Lemma on_events_logs events : forall n s s',
  on_events clk n events s = Normal s' ->
  length (logs s) <= 51 ->
  logs s' = slice_last 51 (logs s ++ entries clk n events).
Proof.
  intros n0 s0 s0'. revert n0 s0 s0'.
  induction events as [| e rest IH]; intros n s s' H Hl.
  - injection H as <-. cbn. rewrite app_nil_r, slice_last_all; auto.
  - cbn [on_events entries] in *.
    destruct (on_event _ _ e s) as [s1 | m] eqn:E; [| discriminate].
    apply on_event_inv in E as (E & _).
    rewrite (IH _ _ _ H), E.
    + rewrite <- app_assoc. cbn [app]. apply slice_last_cut. cbn. lia.
    + rewrite E, length_app, slice_last_length. cbn. lia.
Qed.

Lemma on_events_history events : forall n s s',
  on_events clk n events s = Normal s' ->
  executions s' =
    fold_left (fun acc ex => ex :: slice_first 9 acc) (ended events) (executions s).
Proof.
  induction events as [| e rest IH]; intros n s s' H.
  - injection H as <-. reflexivity.
  - cbn [on_events] in H.
    destruct (on_event _ _ e s) as [s1 | m] eqn:E; [| discriminate].
    apply on_event_inv in E as (_ & _ & E & _).
    rewrite (IH _ _ _ H), E. unfold ended. cbn [List.filter].
    destruct (String.eqb (ev_type e) "execution_completed"); reflexivity.
Qed.

Lemma history_closed (l acc : list Execution) :
  length acc <= 10 ->
  fold_left (fun acc ex => ex :: slice_first 9 acc) l acc = slice_first 10 (rev l ++ acc).
Proof.
  revert acc. induction l as [| ex l IH]; intros acc H; cbn [fold_left rev].
  - unfold slice_first. cbn. rewrite firstn_all2; auto.
  - rewrite IH.
    + rewrite <- app_assoc. cbn [app]. unfold slice_first. apply firstn_cut_cons. lia.
    + cbn. unfold slice_first. rewrite length_firstn. lia.
Qed.

Lemma shown_slice l (s : State) :
  logs s = slice_last 51 l -> shown_logs s = firstn 10 (rev l).
Proof.
  intros H. unfold shown_logs. rewrite H, firstn_rev. f_equal.
  rewrite <- (app_nil_r (slice_last 51 l)), slice_last_cut by lia.
  rewrite app_nil_r. reflexivity.
Qed.
End LogFacts.

#[local] Instance delivers_to_preorder cs : PreOrder (delivers_to cs).
Proof.
  split.
  - intros w H. split; [exact H |]. exists []. cbn. rewrite !app_nil_r. auto.
  - intros a b c Hab Hbc H. destruct (Hab H) as (H1 & e1 & P1 & D1).
    destruct (Hbc H1) as (H2 & e2 & P2 & D2). split; [exact H2 |].
    exists (e1 ++ e2). rewrite P2, P1, D2, D1, flat_map_app, <- !app_assoc. auto.
Qed.

Ltac delivery_prim :=
  intros ? ?; split; [assumption |]; exists []; cbn; rewrite !app_nil_r; auto.

Section SilentDelivery.
Variable code : Code.
Hypothesis Hsilent : forall c data, code c data = silent.

Lemma forEach_silent n i data w : this (snd (forEach code n i data w)) = this w.
Proof.
  revert i w. induction n as [| n IH]; intros i w; cbn [forEach]; [reflexivity |].
  destruct (nth_error _ i) as [[c |] |]; [| apply IH | reflexivity].
  unfold bind, call. rewrite Hsilent. cbn. rewrite IH. reflexivity.
Qed.

Lemma publish_delivers_to cs ty task : preserves (delivers_to cs) (publish code ty task).
Proof.
  intros w H. unfold publish.
  set (data := {| ev_type := ty; ev_execution := execution w; ev_task := task |}).
  split.
  - unfold notify. rewrite forEach_silent. exact H.
  - exists [data]. split; [apply notify_published |].
    change (delivered (snd (notify code data w))) with (delivered_after code data w).
    rewrite delivered_visit, receivers_visit, visit_all.
    + rewrite H. cbn. rewrite app_nil_r. reflexivity.
    + intros c _. split; [reflexivity | apply Hsilent].
Qed.

Lemma for_tasks_delivers_to cs tasks : preserves (delivers_to cs) (for_tasks code tasks).
Proof.
  induction tasks as [| task tl IH]; cbn [for_tasks]; unfold set_task;
    frame_steps ltac:(first [apply publish_delivers_to | exact IH | delivery_prim]).
Qed.

Lemma executeDAG_delivers_to cs dag : preserves (delivers_to cs) (executeDAG code dag).
Proof.
  unfold executeDAG.
  frame_steps ltac:(first [apply publish_delivers_to | apply for_tasks_delivers_to
                          | delivery_prim]).
Qed.
End SilentDelivery.

(** The last event of a run that returns carries the record returned. *)
Lemma executeDAG_last_event code dag w ex :
  fst (executeDAG code dag w) = Normal ex ->
  exists evs,
    published (snd (executeDAG code dag w)) =
      evs ++ [mkEvent "execution_completed" ex None].
Proof.
  rewrite executeDAG_unfold. unfold executeDAG_rest, bind.
  destruct (publish code "execution_started" None _) as [[[] | e] w1]; cbn [fst snd];
    [| discriminate].
  destruct (try_catch _ _ w1) as [[[] | e] w2]; cbn [fst snd]; [| discriminate].
  unfold publish. rewrite notify_eq.
  destruct (completion_after _ _ _) as [[] | e]; cbn; [| discriminate].
  intros [= <-]. eexists. reflexivity.
Qed.

Section AppRun.
Import OrbitalTaskEngine.
Variable clk : nat -> Z.

Lemma on_events_total events : forall n s,
  forallb well_formed events = true ->
  exists s', on_events clk n events s = Normal s'.
Proof.
  induction events as [| e rest IH]; intros n s H; cbn in *.
  - eauto.
  - apply andb_true_iff in H as [He Hr].
    unfold on_event. destruct (getEventMessage_well_formed e He) as (m & -> & _).
    apply IH, Hr.
Qed.

Lemma on_events_app a b : forall n s,
  on_events clk n (a ++ b) s =
  match on_events clk n a s with
  | Normal s1 => on_events clk (n + 2 * length a) b s1
  | Throw m => Throw m
  end.
Proof.
  induction a as [| e a IH]; intros n s; cbn [app on_events length].
  - rewrite Nat.add_0_r. reflexivity.
  - destruct (on_event _ _ e s) as [s1 | m]; [| reflexivity].
    rewrite IH. replace (S (S n) + 2 * length a) with (n + 2 * S (length a)) by lia.
    reflexivity.
Qed.

Lemma on_events_last events e n s s' :
  on_events clk n (events ++ [e]) s = Normal s' ->
  ev_type e = "execution_completed" ->
  isExecuting s' = false /\ currentExecution s' = Some (ev_execution e).
Proof.
  rewrite on_events_app. destruct (on_events clk n events s) as [s1 | m]; [| discriminate].
  cbn [on_events]. destruct (on_event _ _ e s1) as [s2 | m] eqn:E; [| discriminate].
  intros [= <-] Ht. apply on_event_inv in E as (_ & Hc & _ & Hi).
  rewrite Ht in Hi. cbn in Hi. auto.
Qed.

Lemma task_events_not_ended pre rest :
  Forall (fun v : string * option string =>
            String.eqb (fst v) "execution_completed" = false)
         (task_events pre rest).
Proof.
  unfold task_events. apply Forall_app. split.
  - induction pre as [| t pre IH]; cbn; repeat constructor. exact IH.
  - destruct rest; repeat constructor.
Qed.

Lemma ended_task_events (evs : list Event) pre rest :
  map event_view evs = task_events pre rest -> ended evs = [].
Proof.
  intros H. unfold ended.
  pose proof (task_events_not_ended pre rest) as F.
  rewrite <- H in F. clear H.
  induction evs as [| e evs IH]; [reflexivity |].
  apply Forall_cons_iff in F as [He F]. cbn in He |- *. rewrite He. apply IH, F.
Qed.

Lemma flat_map_single {A} (c : nat) (l : list A) :
  flat_map (fun e => map (fun c => (c, e)) [c]) l = map (fun e => (c, e)) l.
Proof. induction l as [| e l IH]; cbn; [reflexivity | f_equal; exact IH]. Qed.

End AppRun.

(** ** The charts and the drawing *)

Section ChartFacts.
Import Number.
Local Open Scope Q_scope.

Lemma executions_floor r :
  0 <= r -> r <= pred_one -> (0 <= Qfloor (mul r 20) <= 19)%Z.
Proof.
  intros H0 H1. unfold mul.
  assert (Hp : pred_one == 9007199254740991 # 9007199254740992) by reflexivity.
  rewrite Hp in H1. split.
  - assert (H : inject_Z 0 <= round53 (r * 20)) by on_grid 0%Z 20%Z.
    apply Qfloor_resp_le in H. rewrite Qfloor_Z in H. exact H.
  - assert (H : round53 (r * 20) < 20).
    { destruct (Qlt_le_dec 19 (r * 20)) as [Hb | Hs].
      - rewrite (round53_binade (r * 20) 4);
          [| change (pow2 4) with 16; lra | change (pow2 (4 + 1)) with 32; lra | lia].
        change (4 - 52)%Z with (-48)%Z. change (pow2 (-48)) with (1 # 281474976710656).
        assert (Hk : (rne (r * 20 / (1 # 281474976710656)) <= 5629499534213119)%Z).
        { apply rne_below_half. unfold Qdiv.
          change (/ (1 # 281474976710656)) with (281474976710656 # 1).
          change (inject_Z 5629499534213119) with (5629499534213119 # 1). lra. }
        rewrite Zle_Qle in Hk. change (inject_Z 5629499534213119) with (5629499534213119 # 1) in Hk.
        generalize dependent (inject_Z (rne (r * 20 / (1 # 281474976710656)))).
        intros; lra.
      - apply Qle_lt_trans with 19; [| reflexivity].
        change 19 with (inject_Z 19). on_grid 0%Z 19%Z. }
    pose proof (Qfloor_le (round53 (r * 20))) as Hf.
    assert (Hlt : inject_Z (Qfloor (round53 (r * 20))) < inject_Z 20).
    { change (inject_Z 20) with 20. generalize dependent (inject_Z (Qfloor (round53 (r * 20)))).
      intros; lra. }
    rewrite <- Zlt_Qlt in Hlt. lia.
Qed.

Lemma point_ranges r1 r2 r3 i :
  unit_interval r1 -> is_Number r1 -> unit_interval r2 -> unit_interval r3 ->
  point_in_range
    {| MetricsDashboard.time := inject_Z (Z.of_nat i);
       MetricsDashboard.executions := add (Math_floor (mul r1 20)) 10;
       MetricsDashboard.success_rate := add 80 (mul r2 15);
       MetricsDashboard.avg_time := add 2 (mul r3 3) |}.
Proof.
  intros [H1 H1'] N1 [H2 H2'] [H3 H3']. unfold point_in_range. cbn. split; [| split].
  - pose proof (executions_floor r1 H1 (number_below_one r1 N1 H1')) as Hf.
    exists (Qfloor (mul r1 20) + 10)%Z. split; [| lia].
    unfold add, Math_floor. apply round53_exact_int; [| lia].
    rewrite inject_Z_plus. reflexivity.
  - unfold add, mul.
    assert (Hm : 0 <= round53 (r2 * 15) <= 15).
    { split.
      - change 0 with (inject_Z 0). on_grid 0%Z 15%Z.
      - change 15 with (inject_Z 15). on_grid 0%Z 15%Z. }
    split.
    + change 80 with (inject_Z 80). on_grid 80%Z 95%Z.
    + change 95 with (inject_Z 95). on_grid 80%Z 95%Z.
  - unfold add, mul.
    assert (Hm : 0 <= round53 (r3 * 3) <= 3).
    { split.
      - change 0 with (inject_Z 0). on_grid 0%Z 3%Z.
      - change 3 with (inject_Z 3). on_grid 0%Z 3%Z. }
    split.
    + change 2 with (inject_Z 2). on_grid 2%Z 5%Z.
    + change 5 with (inject_Z 5). on_grid 2%Z 5%Z.
Qed.
End ChartFacts.

Lemma point_eq i w :
  MetricsDashboard.point i w =
  (Normal {| MetricsDashboard.time := inject_Z (Z.of_nat i);
             MetricsDashboard.executions :=
               Number.add (Math_floor (Number.mul (random w (random_reads w)) 20)) 10;
             MetricsDashboard.success_rate :=
               Number.add 80 (Number.mul (random w (S (random_reads w))) 15);
             MetricsDashboard.avg_time :=
               Number.add 2 (Number.mul (random w (S (S (random_reads w)))) 3) |},
   mkWorld (this w) (random w) (S (S (S (random_reads w)))) (clock w) (clock_reads w)
           (execution w) (published w) (delivered w) (timers w)).
Proof. reflexivity. Qed.

Lemma Array_from_point n : forall i w,
  (forall j, Number.unit_interval (random w j) /\ is_Number (random w j)) ->
  exists pts,
    MetricsDashboard.Array_from n i MetricsDashboard.point w
    = (Normal pts,
       mkWorld (this w) (random w) (random_reads w + 3 * n) (clock w) (clock_reads w)
               (execution w) (published w) (delivered w) (timers w)) /\
    map MetricsDashboard.time pts = map (fun j => inject_Z (Z.of_nat j)) (seq i n) /\
    Forall point_in_range pts.
Proof.
  induction n as [| n IH]; intros i w H.
  - exists []. cbn. rewrite Nat.add_0_r. destruct w. auto.
  - cbn [MetricsDashboard.Array_from]. unfold bind. rewrite point_eq.
    match goal with |- context [MetricsDashboard.Array_from n (S i) _ ?W] =>
      destruct (IH (S i) W) as (pts & Hrun & Ht & Hr); [exact H |] end.
    rewrite Hrun. cbn.
    eexists. split; [f_equal; f_equal; lia |]. split.
    + cbn. f_equal. exact Ht.
    + constructor; [| exact Hr].
      apply point_ranges; apply H.
Qed.

Section Colours.
Import DAGVisualizer.

Lemma fills_connections {A} tw (l : list A) : forall i,
  fills (forEach (fun _ index => connection tw index) i l) = [].
Proof.
  induction l as [| a l IH]; intros i; cbn; [reflexivity |].
  unfold fills in *. rewrite flat_map_app, IH. destruct i; reflexivity.
Qed.

Lemma fills_nodes tw execution tasks : forall i,
  fills (forEach (fun task index => node tw execution task index) i tasks)
  = map (fun task => fillColor (taskStatus execution task)) tasks.
Proof.
  induction tasks as [| t l IH]; intros i; cbn; [reflexivity |].
  f_equal. apply IH.
Qed.

Lemma fills_draw dag execution :
  fills (draw dag execution)
  = map (fun task => fillColor (taskStatus execution task)) (d_tasks dag).
Proof.
  unfold draw, fills. rewrite flat_map_app.
  fold (fills (forEach (fun _ index => connection (taskWidth dag) index) 0 (d_tasks dag))).
  rewrite fills_connections. apply fills_nodes.
Qed.

Lemma taskStatus_summary ex task :
  taskStatus (Some ex) task =
  match prop_get (t_id task) (summary (ex_tasks ex)) with
  | Some r => if String.eqb (fst r) "" then "pending" else fst r
  | None => "pending"
  end.
Proof.
  unfold taskStatus. rewrite prop_get_summary.
  destruct (prop_get (t_id task) (ex_tasks ex)); reflexivity.
Qed.

(** The colours of the nodes for the record of a run in which the tasks
    [pre] completed and the first task of [rest], if any, failed. *)
Lemma fills_of_record ex pre rest :
  List.NoDup (map t_id (pre ++ rest)) ->
  summary (ex_tasks ex) = record_tasks pre rest [] ->
  map (fun task => fillColor (taskStatus (Some ex) task)) (pre ++ rest)
  = repeat green (length pre)
    ++ match rest with
       | [] => []
       | _ :: post => red :: repeat grey (length post)
       end.
Proof.
  intros Hnd Hsum. rewrite (record_tasks_fresh _ _ Hnd) in Hsum.
  rewrite map_app. f_equal.
  - rewrite <- (length_map (fun task => fillColor (taskStatus (Some ex) task)) pre).
    apply Forall_eq_repeat. apply List.Forall_forall. intros c Hc.
    apply in_map_iff in Hc as (t & <- & Hin).
    rewrite taskStatus_summary, Hsum, (prop_get_completed_entries _ _ Hin). reflexivity.
  - destruct rest as [| t post]; [reflexivity |]. cbn [map]. f_equal.
    + rewrite taskStatus_summary, Hsum. unfold failed_entry.
      rewrite prop_get_app_last; [reflexivity |].
      unfold keys. rewrite map_map. cbn.
      rewrite map_app in Hnd. cbn in Hnd. apply NoDup_remove_2 in Hnd.
      intros Hin. apply Hnd, in_or_app. auto.
    + rewrite <- (length_map (fun task => fillColor (taskStatus (Some ex) task)) post).
      apply Forall_eq_repeat. apply List.Forall_forall. intros c Hc.
      apply in_map_iff in Hc as (t' & <- & Hin).
      rewrite taskStatus_summary.
      assert (Hn : prop_get (t_id t') (summary (ex_tasks ex)) = None).
      { apply prop_get_None. rewrite Hsum. unfold keys. rewrite map_app, map_map. cbn.
        rewrite map_app in Hnd. cbn in Hnd.
        apply (NoDup_later _ _ _ _ Hnd), in_map, Hin. }
      rewrite Hn. reflexivity.
Qed.
End Colours.

Section Geometry.
Import DAGVisualizer.
Import Number.
Local Open Scope Q_scope.

Lemma centres_connections {A} tw (l : list A) : forall i,
  centres (forEach (fun _ index => connection tw index) i l) = [].
Proof.
  induction l as [| a l IH]; intros i; cbn; [reflexivity |].
  unfold centres in *. rewrite flat_map_app, IH. destruct i; reflexivity.
Qed.

Lemma centres_nodes dag execution tasks : forall i,
  centres (forEach (fun task index => node (taskWidth dag) execution task index) i tasks)
  = map (centre dag) (seq i (length tasks)).
Proof.
  induction tasks as [| t l IH]; intros i; cbn; [reflexivity |].
  f_equal. apply IH.
Qed.

Lemma centres_draw dag execution :
  centres (draw dag execution) = map (centre dag) (seq 0 (length (d_tasks dag))).
Proof.
  unfold draw, centres. rewrite flat_map_app.
  fold (centres (forEach (fun _ index => connection (taskWidth dag) index) 0 (d_tasks dag))).
  rewrite centres_connections. apply centres_nodes.
Qed.

Lemma segments_nodes tw execution (l : list TaskDef) : forall i,
  segments (forEach (fun task index => node tw execution task index) i l) = [].
Proof.
  induction l as [| a l IH]; intros i; cbn; [reflexivity |]. apply IH.
Qed.

Lemma segments_connections {A} dag (l : list A) : forall i,
  segments (forEach (fun _ index => connection (taskWidth dag) index) (S i) l)
  = map (segment_to dag) (seq (S i) (length l)).
Proof.
  induction l as [| a l IH]; intros i; cbn; [reflexivity |].
  f_equal. apply IH.
Qed.

Lemma segments_draw dag execution :
  segments (draw dag execution)
  = map (segment_to dag) (seq 1 (length (d_tasks dag) - 1)).
Proof.
  unfold draw, segments. rewrite flat_map_app.
  fold (segments (forEach (fun task index => node (taskWidth dag) execution task index)
                          0 (d_tasks dag))).
  rewrite segments_nodes, app_nil_r.
  destruct (d_tasks dag) as [| t l]; [reflexivity |].
  cbn [forEach connection app length]. replace (S (length l) - 1)%nat with (length l) by lia.
  apply (segments_connections dag l 0).
Qed.

Lemma index_succ (i : nat) :
  (Z.of_nat i < 2 ^ 52)%Z -> add (inject_Z (Z.of_nat i)) 1 == inject_Z (Z.of_nat (S i)).
Proof.
  intros H. unfold add. apply round53_exact_int; [| lia].
  rewrite Nat2Z.inj_succ. unfold Z.succ. rewrite inject_Z_plus. reflexivity.
Qed.

Lemma half_height : Number_div height 2 == 150.
Proof. vm_compute. reflexivity. Qed.

Lemma taskWidth_bounds dag :
  let n := inject_Z (Z.of_nat (length (d_tasks dag))) in
  (Z.of_nat (length (d_tasks dag)) <= 2 ^ 52)%Z ->
  0 <= taskWidth dag /\ taskWidth dag * n <= 800.
Proof.
  intros n Hn. unfold taskWidth, Number_div, width.
  set (N := add (inject_Z (Z.of_nat (length (d_tasks dag)))) 1).
  assert (HN : N == n + 1).
  { unfold N, add. rewrite round53_exact_int with (z := (Z.of_nat (length (d_tasks dag)) + 1)%Z).
    - rewrite inject_Z_plus. reflexivity.
    - rewrite inject_Z_plus. reflexivity.
    - lia. }
  assert (Hn0 : 0 <= n) by (unfold n; rewrite <- (Zle_Qle 0); lia).
  assert (Hn52 : n <= inject_Z (2 ^ 52)) by (unfold n; rewrite <- Zle_Qle; exact Hn).
  change (inject_Z (2 ^ 52)) with (4503599627370496 # 1) in Hn52.
  clearbody n N.
  assert (HNpos : 0 < N) by lra.
  set (x := 800 / N).
  assert (Hx : x * N == 800).
  { unfold x, Qdiv. rewrite <- Qmult_assoc, (Qmult_comm (/ N)), Qmult_inv_r; [ring |].
    apply Qnot_eq_sym, Qlt_not_eq, HNpos. }
  assert (Hxpos : 0 < x).
  { unfold x. apply Qlt_shift_div_l; [exact HNpos | lra]. }
  assert (Hxlow : pow2 (-1022) <= x).
  { apply Qle_trans with (pow2 (-43)); [apply pow2_le; lia |].
    change (pow2 (-43)) with (1 # 8796093022208).
    unfold x. apply Qle_shift_div_l; [exact HNpos | lra]. }
  pose proof (round53_relative x Hxlow) as Hrel.
  change (pow2 (-52)) with (1 # 4503599627370496) in Hrel.
  assert (Hlow : 0 <= round53 x).
  { change 0 with (inject_Z 0). apply round53_lower; [| unfold inject_Z; lra].
    apply (small_abs _ 0 800); [unfold inject_Z; lra | | reflexivity | reflexivity].
    unfold x. apply Qle_shift_div_r; [exact HNpos |]. unfold inject_Z. lra. }
  split; [exact Hlow |].
  apply Qle_trans with (x * (1 + (1 # 4503599627370496)) * n).
  - apply Qmult_le_compat_r; [exact Hrel | exact Hn0].
  - assert (Hxn : x * n == 800 - x) by (rewrite HN in Hx; lra).
    assert (Hs : x * n * (1 # 4503599627370496) <= x).
    { rewrite <- (Qmult_1_r x) at 2. rewrite <- Qmult_assoc.
      apply Qmult_le_l; [exact Hxpos | lra]. }
    lra.
Qed.

Lemma centre_in_viewBox dag i :
  (Z.of_nat (length (d_tasks dag)) <= 2 ^ 52)%Z ->
  (i < length (d_tasks dag))%nat ->
  0 <= fst (centre dag i) <= 800 /\ snd (centre dag i) == 150.
Proof.
  intros Hn Hi. destruct (taskWidth_bounds dag Hn) as [H0 H800].
  unfold centre. cbn [fst snd]. split; [| exact half_height].
  assert (Hk : add (inject_Z (Z.of_nat i)) 1 == inject_Z (Z.of_nat (S i)))
    by (apply index_succ; lia).
  set (k := add (inject_Z (Z.of_nat i)) 1) in *.
  assert (Hk0 : 0 <= k) by (rewrite Hk, <- (Zle_Qle 0); lia).
  assert (Hkn : k <= inject_Z (Z.of_nat (length (d_tasks dag))))
    by (rewrite Hk, <- Zle_Qle; lia).
  assert (Hp : 0 <= taskWidth dag * k <= 800).
  { split; [apply Qmult_le_0_compat; assumption |].
    eapply Qle_trans; [| exact H800].
    rewrite (Qmult_comm _ k), (Qmult_comm (taskWidth dag)).
    apply Qmult_le_compat_r; assumption. }
  unfold mul. split.
  - change 0 with (inject_Z 0). apply round53_lower; [| unfold inject_Z; lra].
    apply (small_abs _ 0 800); [unfold inject_Z; lra | unfold inject_Z; lra
                                | reflexivity | reflexivity].
  - change 800 with (inject_Z 800). apply round53_upper; [| unfold inject_Z; lra].
    apply (small_abs _ 0 800); [unfold inject_Z; lra | unfold inject_Z; lra
                                | reflexivity | reflexivity].
Qed.

Lemma segment_joins dag i :
  (Z.of_nat (S i) < 2 ^ 52)%Z ->
  joins (segment_to dag (S i)) (centre dag i, centre dag (S i)).
Proof.
  intros Hi. unfold joins, same_point, segment_to, centre. cbn [fst snd].
  repeat split; try reflexivity.
  unfold mul. apply round53_proper. rewrite index_succ by lia. reflexivity.
Qed.
End Geometry.

(* ===================================================================== *)
(** * Part VI: further properties of the engine and the application *)
(* ===================================================================== *)

(** ** The metrics *)


(** X2. From a new engine, after [n] calls of [updateMetrics] with any
    outcomes, [totalExecutions] is exactly [n], as long as [n] is below
    2^53. *)
Theorem totalExecutions_counts (outcomes : list bool) :
  (Z.of_nat (length outcomes) < 2 ^ 53)%Z ->
  (totalExecutions (run_metrics outcomes (metrics constructor))
   == inject_Z (Z.of_nat (length outcomes)))%Q.
Proof.
  intros H.
  apply (totalExecutions_run outcomes (metrics constructor) 0); [reflexivity | lia | lia].
Qed.

Lemma totalExecutions_counts_witness :
  (Z.of_nat (length [true; false; true]) < 2 ^ 53)%Z /\
  (totalExecutions (run_metrics [true; false; true] (metrics constructor))
   == inject_Z (Z.of_nat (length [true; false; true])))%Q.
Proof.
  assert (H : (Z.of_nat (length [true; false; true]) < 2 ^ 53)%Z) by (cbn; lia).
  split; [exact H |]. apply (totalExecutions_counts [true; false; true] H).
Defined.

(** At 2^53 the counter stops: adding 1 gives 2^53 again. *)
Example totalExecutions_stalls :
  (Number.add (inject_Z (2 ^ 53)) 1 == inject_Z (2 ^ 53))%Q.
Proof. vm_compute. reflexivity. Qed.

(** X3. From a new engine, after [n] calls of [updateMetrics] with any
    outcomes, [queueDepth] is [max(0, 5 - n)]: it goes down to 0 and nothing
    raises it again; [activeWorkers] and [avgExecutionTime] never change. *)
Theorem queueDepth_drains (outcomes : list bool) :
  let m := run_metrics outcomes (metrics constructor) in
  (queueDepth m == inject_Z (Z.max 0 (5 - Z.of_nat (length outcomes))))%Q /\
  activeWorkers m = activeWorkers (metrics constructor) /\
  avgExecutionTime m = avgExecutionTime (metrics constructor).
Proof.
  cbn zeta. split.
  - apply (queueDepth_run outcomes (metrics constructor) 5); [reflexivity | lia].
  - generalize (metrics constructor).
    induction outcomes as [| b l IH]; intros m; cbn; [auto |].
    destruct (IH (updateMetrics b m)) as [H1 H2]. cbn in H1, H2. auto.
Qed.

(** X4. The success rate is computed without rounding error: from a new
    engine, after any sequence of outcomes it is the value the exact formulas
    give ([min(95, r + 0.5)] after a success, [max(70, r - 1)] after a
    failure, from 85), and it is a whole multiple of 0.5. *)
Theorem successRate_exact (outcomes : list bool) :
  (successRate (run_metrics outcomes (metrics constructor))
   == fold_left exact_rate outcomes 85)%Q /\
  exists k : Z,
    (successRate (run_metrics outcomes (metrics constructor)) == inject_Z k / 2)%Q.
Proof.
  destruct (successRate_run outcomes (metrics constructor) 85 170) as (H & k & Hk & _);
    [reflexivity | reflexivity | lia |].
  split; [exact H |]. exists k. rewrite H. exact Hk.
Qed.

(** ** Delivery *)

(** X5. The callbacks [notify] calls are called in the order of their
    subscription: the sequence of calls is a subsequence of the entries of
    the set, whatever the callbacks do. *)
Theorem notify_subscription_order code data w :
  sublist (receivers code data w) (Set_elements (subscribers (this w))).
Proof. rewrite receivers_visit. apply visit_sublist. Qed.

(** X6. When no subscriber unsubscribes anything or throws on an event,
    [notify] calls every subscriber once, in subscription order, ends
    normally and leaves the set as it was. *)
Theorem notify_reaches_all code data w :
  (forall c, In c (Set_elements (subscribers (this w))) -> code c data = silent) ->
  receivers code data w = Set_elements (subscribers (this w)) /\
  completion_after code data w = Normal tt /\
  subscribers_after code data w = subscribers (this w).
Proof.
  intros H.
  assert (Hr : receivers code data w = Set_elements (subscribers (this w))).
  { rewrite receivers_visit. apply visit_all. intros c Hc. split; [reflexivity | apply H, Hc]. }
  split; [exact Hr |]. split; [| apply subscribers_silent, H].
  destruct (completion_after code data w) as [[] | m] eqn:E; [reflexivity |].
  rewrite completion_visit in E. apply visit_completion_throw in E as (pre & c & Hv & T).
  rewrite <- receivers_visit, Hr in Hv.
  rewrite H in T; [discriminate |]. rewrite Hv. apply in_or_app. right. left. reflexivity.
Qed.

Lemma notify_reaches_all_witness :
  (forall c, In c (Set_elements (subscribers (this world_ok))) -> silent_code c ping = silent) /\
  receivers silent_code ping world_ok = Set_elements (subscribers (this world_ok)) /\
  completion_after silent_code ping world_ok = Normal tt /\
  subscribers_after silent_code ping world_ok = subscribers (this world_ok).
Proof.
  assert (H : forall c, In c (Set_elements (subscribers (this world_ok))) ->
                        silent_code c ping = silent) by (intros c _; reflexivity).
  split; [exact H |]. apply (notify_reaches_all silent_code ping world_ok H).
Defined.

(** X7. [notify] has no handler: it ends normally when no callback it calls
    throws; otherwise the callback that throws is the last one called, its
    exception is the exception of [notify], and the callbacks called before
    it did not throw. *)
Theorem notify_stops_at_exception code data w :
  match completion_after code data w with
  | Normal _ => Forall (fun c => throws (code c data) = None) (receivers code data w)
  | Throw m =>
      exists pre c,
        receivers code data w = pre ++ [c] /\
        throws (code c data) = Some m /\
        Forall (fun c' => throws (code c' data) = None) pre
  end.
Proof.
  rewrite completion_visit, receivers_visit.
  destruct (visit_completion code data [] (subscribers (this w))) as [[] | m] eqn:E.
  - apply visit_completion_normal, E.
  - apply visit_completion_throw in E as (pre & c & Hv & T).
    exists pre, c. split; [exact Hv |]. split; [exact T |].
    apply (visit_before_thrower _ _ _ _ _ _ Hv).
Qed.

(** X8. The closure returned by [subscribe] removes the callback altogether,
    also when it had been subscribed before (subscriptions are not counted);
    and a callback subscribed again after its removal is called last. *)
Theorem unsubscribe_then_subscribe (c : Callback) (e : Engine) :
  Set_elements (subscribers (snd (subscribe c e) (fst (subscribe c e))))
    = List.remove Nat.eq_dec c (Set_elements (subscribers e)) /\
  Set_elements (subscribers (fst (subscribe c (unsubscribe c e))))
    = List.remove Nat.eq_dec c (Set_elements (subscribers e)) ++ [c].
Proof.
  cbn [subscribe unsubscribe fst snd subscribers]. split.
  - rewrite Set_elements_delete. unfold Set_add.
    destruct (Set_has c (subscribers e)); [reflexivity |].
    rewrite Set_elements_app. cbn. rewrite List.remove_app. cbn.
    destruct (Nat.eq_dec c c) as [_ | Hn]; [| destruct (Hn eq_refl)].
    apply app_nil_r.
  - unfold Set_add. rewrite Set_has_delete, Set_elements_app, Set_elements_delete.
    reflexivity.
Qed.

(** ** Runs with arbitrary callbacks *)

(** X9. A call of [executeDAG], however it ends and whatever the callbacks
    do, leaves the map [this.executions] as it was but for one entry: under
    the id made from the first reading of the clock it holds the record of
    this run, in its final state (an earlier record with the same id, made
    in the same millisecond, is replaced). *)
Theorem run_stores_one_record code dag w :
  let w' := snd (executeDAG code dag w) in
  ex_id (execution w') = pretty (clock w (clock_reads w)) /\
  executions (this w') =
    <[pretty (clock w (clock_reads w)) := execution w']> (executions (this w)).
Proof.
  pose proof (executeDAG_stored code dag w) as Hs. unfold stored in Hs.
  revert Hs. rewrite executeDAG_unfold.
  match goal with |- context [executeDAG_rest code dag ?W] =>
    destruct (executeDAG_rest_store_frame code dag W) as [Hid Ho];
    generalize dependent (snd (executeDAG_rest code dag W)) end.
  cbn. intros w' Hid Ho Hs. split; [exact Hid |].
  apply map_eq. intros k. rewrite Hid in Hs.
  destruct (decide (k = pretty (clock w (clock_reads w)))) as [-> | Hne].
  - rewrite lookup_insert_eq. exact Hs.
  - rewrite lookup_insert_ne by congruence. rewrite (Ho k Hne).
    apply lookup_insert_ne. congruence.
Qed.

(** X10. When no callback throws, the random source alone decides how a run
    ends: it is "completed" and every task was started when the outcome
    sample of every task is greater than 0.15; otherwise it is "failed" and
    the tasks started are those up to the first task whose sample is not
    greater than 0.15. *)
Theorem run_decided_by_samples code dag w :
  quiet code ->
  let w' := snd (executeDAG code dag w) in
  match first_failure (outcome_sample w) 0 (length (d_tasks dag)) with
  | None =>
      ex_status (execution w') = "completed" /\
      started_tasks (events_of_run code dag w) = map t_id (d_tasks dag)
  | Some k =>
      ex_status (execution w') = "failed" /\
      started_tasks (events_of_run code dag w) = firstn (S k) (map t_id (d_tasks dag))
  end.
Proof.
  intros Hquiet.
  destruct (executeDAG_split code Hquiet dag w) as (Hsplit & _ & Hev & _ & Hst & _).
  apply events_of_run_view in Hev. cbn zeta. unfold started_tasks. rewrite Hev, Hst.
  cbn [flat_map started_of_view fst String.eqb Ascii.eqb Bool.eqb app].
  rewrite flat_map_app, started_task_events. cbn [flat_map started_of_view fst String.eqb Ascii.eqb Bool.eqb app].
  rewrite app_nil_r.
  pose proof (split_first_failure (random w) (S (random_reads w)) (d_tasks dag) 0) as H.
  rewrite (first_failure_ext (outcome_sample w)
             (fun i => random w (S (random_reads w) + 1 + 2 * i)))
    by (intros i; unfold outcome_sample; f_equal; lia).
  destruct (first_failure _ 0 _) as [k |].
  - destruct H as (Hk & H & _). rewrite Nat.add_0_r in H. rewrite H. cbn [fst snd].
    rewrite Nat.sub_0_r.
    destruct (skipn k (d_tasks dag)) as [| t post] eqn:E.
    + exfalso. apply (f_equal (@length _)) in E. rewrite length_skipn in E. cbn in E. lia.
    + split; [reflexivity |].
      rewrite firstn_map, (firstn_S_skipn _ _ _ _ E), map_app. reflexivity.
  - rewrite Nat.add_0_r in H. rewrite H. cbn. rewrite app_nil_r. auto.
Qed.

Lemma run_decided_by_samples_witness :
  quiet silent_code /\
  match first_failure (outcome_sample world_fail) 0 (length (d_tasks data_pipeline)) with
  | None =>
      ex_status (execution (snd (executeDAG silent_code data_pipeline world_fail)))
        = "completed" /\
      started_tasks (events_of_run silent_code data_pipeline world_fail)
        = map t_id (d_tasks data_pipeline)
  | Some k =>
      ex_status (execution (snd (executeDAG silent_code data_pipeline world_fail)))
        = "failed" /\
      started_tasks (events_of_run silent_code data_pipeline world_fail)
        = firstn (S k) (map t_id (d_tasks data_pipeline))
  end.
Proof.
  split; [exact quiet_silent_code |].
  apply (run_decided_by_samples silent_code data_pipeline world_fail quiet_silent_code).
Defined.

(** A sample equal to the threshold fails the task: the comparison is
    strict. *)
Example threshold_fails : passes (Number.literal (15 # 100)) = false.
Proof. vm_compute. reflexivity. Qed.

(** X11. With the random source in [0, 1), a run starts at most one timer
    for each task, the timer of the task of index [i] has the delay
    [1000 + r * 2000] made from the sample read for it, and every delay lies
    in the closed interval [1000, 3000], whatever the callbacks do. *)
Theorem timer_delays code dag w :
  (forall i, Number.unit_interval (random w i)) ->
  exists n, n <= length (d_tasks dag) /\
    timers (snd (executeDAG code dag w)) =
      timers w ++ map (fun i => delay_of (delay_sample w i)) (seq 0 n) /\
    Forall (fun d => (1000 <= d <= 3000)%Q)
           (map (fun i => delay_of (delay_sample w i)) (seq 0 n)).
Proof.
  intros H. destruct (executeDAG_timers code dag w) as (n & Hn & HT).
  exists n. split; [exact Hn |]. split; [exact HT |].
  apply List.Forall_forall. intros d Hd. apply in_map_iff in Hd as (i & <- & _).
  apply delay_closed_range, H.
Qed.

Lemma timer_delays_witness :
  (forall i, Number.unit_interval (random world_ok i)) /\
  exists n, n <= length (d_tasks data_pipeline) /\
    timers (snd (executeDAG silent_code data_pipeline world_ok)) =
      timers world_ok ++ map (fun i => delay_of (delay_sample world_ok i)) (seq 0 n) /\
    Forall (fun d => (1000 <= d <= 3000)%Q)
           (map (fun i => delay_of (delay_sample world_ok i)) (seq 0 n)).
Proof.
  assert (H : forall i, Number.unit_interval (random world_ok i)).
  { intros i. split; vm_compute; [discriminate | reflexivity]. }
  split; [exact H |]. apply (timer_delays silent_code data_pipeline world_ok H).
Defined.


(** ** The application *)

(** X13. For every event a run publishes, whatever the callbacks do,
    [getEventMessage] returns a message and the message is not 'Unknown
    event': a task event always carries its task, so the reads of
    [event.task.id] do not fail. *)
Theorem engine_events_have_messages code dag w :
  Forall (fun e => exists m, OrbitalTaskEngine.getEventMessage e = Normal m /\
                             m <> "Unknown event")
         (events_of_run code dag w).
Proof.
  pose proof (events_of_run_well_formed code dag w) as H.
  induction (events_of_run code dag w) as [| e l IH]; [constructor |].
  cbn in H. apply andb_true_iff in H as [He Hl].
  constructor; [apply getEventMessage_well_formed, He | apply IH, Hl].
Qed.

(** X14. The log of the application: after the callback has handled a list
    of events of the engine, [logs] holds the last 51 of the entries it held
    before followed by one entry for each event, in order; the log panel
    ([logs.slice(-10).reverse()]) shows the 10 most recent of them, the
    newest first. *)
Theorem log_keeps_recent clk n events s :
  forallb well_formed events = true ->
  length (OrbitalTaskEngine.logs s) <= 51 ->
  exists s',
    OrbitalTaskEngine.on_events clk n events s = Normal s' /\
    OrbitalTaskEngine.logs s' =
      slice_last 51 (OrbitalTaskEngine.logs s ++ entries clk n events) /\
    length (OrbitalTaskEngine.logs s') <= 51 /\
    OrbitalTaskEngine.shown_logs s' =
      firstn 10 (rev (OrbitalTaskEngine.logs s ++ entries clk n events)).
Proof.
  intros Hwf Hl. destruct (on_events_total clk events n s Hwf) as (s' & Hs').
  exists s'. split; [exact Hs' |].
  pose proof (on_events_logs clk events n s s' Hs' Hl) as H.
  split; [exact H |]. split.
  - rewrite H, slice_last_length. lia.
  - apply shown_slice, H.
Qed.

Lemma log_keeps_recent_witness :
  forallb well_formed (events_of_run silent_code data_pipeline world_fail) = true /\
  length (OrbitalTaskEngine.logs OrbitalTaskEngine.initial) <= 51 /\
  exists s',
    OrbitalTaskEngine.on_events log_clock 0
      (events_of_run silent_code data_pipeline world_fail) OrbitalTaskEngine.initial
      = Normal s' /\
    OrbitalTaskEngine.logs s' =
      slice_last 51 (OrbitalTaskEngine.logs OrbitalTaskEngine.initial
                     ++ entries log_clock 0 (events_of_run silent_code data_pipeline world_fail)) /\
    length (OrbitalTaskEngine.logs s') <= 51 /\
    OrbitalTaskEngine.shown_logs s' =
      firstn 10 (rev (OrbitalTaskEngine.logs OrbitalTaskEngine.initial
                      ++ entries log_clock 0
                           (events_of_run silent_code data_pipeline world_fail))).
Proof.
  assert (H1 : forallb well_formed (events_of_run silent_code data_pipeline world_fail) = true)
    by (vm_compute; reflexivity).
  assert (H2 : length (OrbitalTaskEngine.logs OrbitalTaskEngine.initial) <= 51)
    by (cbn; lia).
  split; [exact H1 |]. split; [exact H2 |].
  apply (log_keeps_recent log_clock 0 (events_of_run silent_code data_pipeline world_fail)
           OrbitalTaskEngine.initial H1 H2).
Defined.

(** X15. The history of the application: after the callback has handled a
    list of events of the engine, [executions] holds the records of the runs
    those events report as ended, the newest first, followed by the records
    it held before, cut to 10 entries. *)
Theorem history_keeps_ten clk n events s :
  forallb well_formed events = true ->
  length (OrbitalTaskEngine.executions s) <= 10 ->
  exists s',
    OrbitalTaskEngine.on_events clk n events s = Normal s' /\
    OrbitalTaskEngine.executions s' =
      slice_first 10 (rev (ended events) ++ OrbitalTaskEngine.executions s) /\
    length (OrbitalTaskEngine.executions s') <= 10.
Proof.
  intros Hwf Hl. destruct (on_events_total clk events n s Hwf) as (s' & Hs').
  exists s'. split; [exact Hs' |].
  rewrite (on_events_history clk events n s s' Hs'), (history_closed _ _ Hl).
  split; [reflexivity |]. unfold slice_first. rewrite length_firstn. lia.
Qed.

Lemma history_keeps_ten_witness :
  forallb well_formed (events_of_run silent_code data_pipeline world_fail) = true /\
  length (OrbitalTaskEngine.executions OrbitalTaskEngine.initial) <= 10 /\
  exists s',
    OrbitalTaskEngine.on_events log_clock 0
      (events_of_run silent_code data_pipeline world_fail) OrbitalTaskEngine.initial
      = Normal s' /\
    OrbitalTaskEngine.executions s' =
      slice_first 10 (rev (ended (events_of_run silent_code data_pipeline world_fail))
                      ++ OrbitalTaskEngine.executions OrbitalTaskEngine.initial) /\
    length (OrbitalTaskEngine.executions s') <= 10.
Proof.
  assert (H1 : forallb well_formed (events_of_run silent_code data_pipeline world_fail) = true)
    by (vm_compute; reflexivity).
  assert (H2 : length (OrbitalTaskEngine.executions OrbitalTaskEngine.initial) <= 10)
    by (cbn; lia).
  split; [exact H1 |]. split; [exact H2 |].
  apply (history_keeps_ten log_clock 0 (events_of_run silent_code data_pipeline world_fail)
           OrbitalTaskEngine.initial H1 H2).
Defined.

Section Application.
Import OrbitalTaskEngine.

(** X16. A run of the application's engine, with the application's callback
    as the only subscriber: the callback never throws, so [executeDAG]
    returns a record, "completed" or "failed"; the callback is called with
    every event of the run, in order; and when it has handled them the
    application is no longer executing, its current execution is the record
    returned, and that record is the first entry of its history, before the
    first 9 of the entries the history held. *)
Theorem application_after_run clk c dag w n s :
  Set_elements (subscribers (this w)) = [c] ->
  exists ex s',
    fst (executeDAG OrbitalTaskEngine.code dag w) = Normal ex /\
    (ex_status ex = "completed" \/ ex_status ex = "failed") /\
    skipn (length (delivered w)) (delivered (snd (executeDAG OrbitalTaskEngine.code dag w))) =
      map (fun e => (c, e)) (events_of_run OrbitalTaskEngine.code dag w) /\
    OrbitalTaskEngine.on_events clk n (events_of_run OrbitalTaskEngine.code dag w) s
      = Normal s' /\
    OrbitalTaskEngine.isExecuting s' = false /\
    OrbitalTaskEngine.currentExecution s' = Some ex /\
    OrbitalTaskEngine.executions s' = ex :: slice_first 9 (OrbitalTaskEngine.executions s).
Proof.
  intros Hsub. unfold events_of_run.
  rewrite (executeDAG_mute code code_quiet_on_runs).
  destruct (executeDAG_split (mute code) (quiet_mute code) dag w)
    as (_ & Hc & Hev & _ & Hst & _).
  destruct (executeDAG_delivers_to (mute code) mute_code_silent [c] dag w Hsub)
    as (_ & evs & Hp & Hd).
  destruct (executeDAG_last_event _ _ _ _ Hc) as (evs0 & Hlast).
  pose proof (events_of_run_well_formed (mute code) dag w) as Hwf. unfold events_of_run in Hwf.
  set (w' := snd (executeDAG (mute code) dag w)) in *.
  rewrite Hp in Hev, Hwf, Hlast |- *. rewrite Hd.
  rewrite !skipn_app, !skipn_all, !Nat.sub_diag, !skipn_O in *. cbn [app] in *.
  rewrite map_app in Hev. apply app_inv_head in Hev.
  destruct evs as [| e0 evs]; [discriminate |]. cbn [map] in Hev.
  injection Hev as Ht0 _ Hev.
  change (?a :: ?l ++ ?r) with ((a :: l) ++ r) in Hev.
  destruct (exists_last (l := evs)) as (mids & elast & ->).
  { intros ->. destruct (task_events _ _); discriminate. }
  rewrite map_app in Hev. cbn [map] in Hev. apply app_inj_tail in Hev as [Hmid Hl].
  rewrite app_comm_cons, app_assoc in Hlast. apply app_inj_tail in Hlast as [_ ->].
  exists (execution w').
  destruct (on_events_total clk (e0 :: mids ++ [mkEvent "execution_completed" (execution w') None])
              n s Hwf) as (s' & Hs').
  exists s'. split; [exact Hc |]. split.
  { rewrite Hst. destruct (snd (split_at_failure _ _ _)); cbn; auto. }
  split.
  { apply flat_map_single. }
  split; [exact Hs' |].
  rewrite app_comm_cons in Hs'. destruct (on_events_last clk _ _ _ _ _ Hs' eq_refl) as [H1 H2].
  split; [exact H1 |]. split; [exact H2 |].
  rewrite <- app_comm_cons in Hs'. rewrite (on_events_history _ _ _ _ _ Hs').
  match goal with |- fold_left _ ?E _ = _ => assert (He : E = [execution w']) end;
    [| rewrite He; reflexivity].
  change (e0 :: mids ++ ?l) with ([e0] ++ mids ++ l).
  unfold ended. rewrite !List.filter_app, !map_app.
  fold (ended mids). rewrite (ended_task_events _ _ _ Hmid).
  cbn. rewrite Ht0. reflexivity.
Qed.

End Application.

Lemma application_after_run_witness :
  Set_elements (subscribers (this world_app)) = [0] /\
  exists ex s',
    fst (executeDAG OrbitalTaskEngine.code ml_pipeline world_app) = Normal ex /\
    (ex_status ex = "completed" \/ ex_status ex = "failed") /\
    skipn (length (delivered world_app))
          (delivered (snd (executeDAG OrbitalTaskEngine.code ml_pipeline world_app))) =
      map (fun e => (0, e)) (events_of_run OrbitalTaskEngine.code ml_pipeline world_app) /\
    OrbitalTaskEngine.on_events log_clock 0
      (events_of_run OrbitalTaskEngine.code ml_pipeline world_app) OrbitalTaskEngine.initial
      = Normal s' /\
    OrbitalTaskEngine.isExecuting s' = false /\
    OrbitalTaskEngine.currentExecution s' = Some ex /\
    OrbitalTaskEngine.executions s' =
      ex :: slice_first 9 (OrbitalTaskEngine.executions OrbitalTaskEngine.initial).
Proof.
  assert (H : Set_elements (subscribers (this world_app)) = [0]) by reflexivity.
  split; [exact H |].
  apply (application_after_run log_clock 0 ml_pipeline world_app 0 OrbitalTaskEngine.initial H).
Defined.

(** The messages the application logs for a run of the ML pipeline whose
    second task fails. *)
Example messages_of_failed_run :
  map message_of (events_of_run OrbitalTaskEngine.code ml_pipeline world_app) =
    [ "🚀 Started execution of DAG: ml_pipeline";
      "▶️ Started task: data_prep";
      "✅ Completed task: data_prep";
      "▶️ Started task: train_model";
      "✅ Completed execution with status: failed" ].
Proof. vm_compute. reflexivity. Qed.

(** X17. The colours of the nodes drawn for a DAG (its task ids pairwise
    distinct) and the record of a run of it whose callbacks did not throw:
    green for the tasks before the first task whose outcome sample is not
    greater than 0.15, red for that task, grey (pending) for the tasks after
    it; all green when there is no such task.  No node is left blue
    (running). *)
Theorem node_colours_after_run code dag w :
  quiet code ->
  List.NoDup (map t_id (d_tasks dag)) ->
  let ex := execution (snd (executeDAG code dag w)) in
  fills (DAGVisualizer.draw dag (Some ex)) =
  match first_failure (outcome_sample w) 0 (length (d_tasks dag)) with
  | None => repeat green (length (d_tasks dag))
  | Some k => repeat green k ++ red :: repeat grey (length (d_tasks dag) - S k)
  end.
Proof.
  intros Hq Hnd. cbn zeta. rewrite fills_draw.
  destruct (executeDAG_split code Hq dag w) as (Hsplit & _ & _ & Hsum & _).
  pose proof (split_first_failure (random w) (S (random_reads w)) (d_tasks dag) 0) as H.
  rewrite (first_failure_ext (outcome_sample w)
             (fun i => random w (S (random_reads w) + 1 + 2 * i)))
    by (intros i; unfold outcome_sample; f_equal; lia).
  rewrite Nat.add_0_r in H.
  destruct (first_failure _ 0 _) as [k |].
  - destruct H as (Hk & H & _). rewrite H in Hsplit, Hsum. cbn [fst snd] in Hsplit, Hsum.
    rewrite Nat.sub_0_r in Hsplit, Hsum.
    rewrite Hsplit in Hnd at 1. rewrite Hsplit at 1.
    rewrite (fills_of_record _ _ _ Hnd Hsum), length_firstn.
    replace (Nat.min k (length (d_tasks dag))) with k by lia. f_equal.
    destruct (skipn k (d_tasks dag)) as [| t post] eqn:E.
    + exfalso. apply (f_equal (@length _)) in E. rewrite length_skipn in E. cbn in E. lia.
    + apply (f_equal (@length _)) in E. rewrite length_skipn in E. cbn in E.
      replace (length (d_tasks dag) - S k) with (length post) by lia. reflexivity.
  - rewrite H in Hsplit, Hsum. cbn [fst snd] in Hsplit, Hsum. rewrite app_nil_r in Hsplit.
    rewrite <- (app_nil_r (d_tasks dag)) in Hnd.
    rewrite <- (app_nil_r (d_tasks dag)) at 1.
    rewrite (fills_of_record _ _ _ Hnd Hsum). apply app_nil_r.
Qed.

Lemma node_colours_after_run_witness :
  quiet silent_code /\
  List.NoDup (map t_id (d_tasks data_pipeline)) /\
  fills (DAGVisualizer.draw data_pipeline
           (Some (execution (snd (executeDAG silent_code data_pipeline world_fail))))) =
  match first_failure (outcome_sample world_fail) 0 (length (d_tasks data_pipeline)) with
  | None => repeat green (length (d_tasks data_pipeline))
  | Some k => repeat green k ++ red :: repeat grey (length (d_tasks data_pipeline) - S k)
  end.
Proof.
  split; [exact quiet_silent_code |]. split; [exact data_pipeline_ids_distinct |].
  apply (node_colours_after_run silent_code data_pipeline world_fail
           quiet_silent_code data_pipeline_ids_distinct).
Defined.

(** The drawing of the scenario in which the second of four tasks fails. *)
Example colours_of_failed_run :
  fills (DAGVisualizer.draw data_pipeline
           (Some (execution (snd (executeDAG silent_code data_pipeline world_fail)))))
  = [green; red; grey; grey].
Proof. vm_compute. reflexivity. Qed.

(** X18. The layout of the drawing of a DAG of at most 2^52 tasks, whatever
    record is shown: there is one node for each task; every node has its
    centre on the line y = 150 and between x = 0 and x = 800, the width of
    the view box; and the connections, one less than the nodes, join the
    centres of consecutive nodes. *)
Theorem drawing_layout dag execution :
  (Z.of_nat (length (d_tasks dag)) <= 2 ^ 52)%Z ->
  let d := DAGVisualizer.draw dag execution in
  length (centres d) = length (d_tasks dag) /\
  Forall (fun c => (0 <= fst c <= 800)%Q /\ (snd c == 150)%Q) (centres d) /\
  Forall2 joins (segments d) (combine (centres d) (tl (centres d))).
Proof.
  intros Hn. cbn zeta. rewrite centres_draw, segments_draw.
  split; [rewrite length_map, length_seq; reflexivity |]. split.
  - apply List.Forall_forall. intros c Hc. apply in_map_iff in Hc as (i & <- & Hi).
    apply in_seq in Hi. apply centre_in_viewBox; [exact Hn | lia].
  - destruct (length (d_tasks dag)) as [| m]; [constructor |].
    replace (S m - 1) with m by lia. cbn [seq map tl]. rewrite <- seq_shift, !map_map.
    assert (G : forall a b, a + b <= m ->
      Forall2 joins (map (fun x => segment_to dag (S x)) (seq a b))
        (combine (centre dag a :: map (fun x => centre dag (S x)) (seq a b))
                 (map (fun x => centre dag (S x)) (seq a b)))).
    { intros a b. revert a. induction b as [| b IH]; intros a Hab; cbn; [constructor |].
      constructor; [apply segment_joins; lia |].
      apply (IH (S a)). lia. }
    apply (G 0 m). lia.
Qed.

Lemma drawing_layout_witness :
  (Z.of_nat (length (d_tasks data_pipeline)) <= 2 ^ 52)%Z /\
  length (centres (DAGVisualizer.draw data_pipeline None)) = length (d_tasks data_pipeline) /\
  Forall (fun c => (0 <= fst c <= 800)%Q /\ (snd c == 150)%Q)
         (centres (DAGVisualizer.draw data_pipeline None)) /\
  Forall2 joins (segments (DAGVisualizer.draw data_pipeline None))
          (combine (centres (DAGVisualizer.draw data_pipeline None))
                   (tl (centres (DAGVisualizer.draw data_pipeline None)))).
Proof.
  assert (H : (Z.of_nat (length (d_tasks data_pipeline)) <= 2 ^ 52)%Z) by (cbn; lia).
  split; [exact H |]. apply (drawing_layout data_pipeline None H).
Defined.

(** The four nodes of the data pipeline are drawn at x = 160, 320, 480 and
    640. *)
Example centres_of_data_pipeline :
  Forall2 same_point (centres (DAGVisualizer.draw data_pipeline None))
          [(160, 150); (320, 150); (480, 150); (640, 150)]%Q.
Proof. repeat constructor; vm_compute; reflexivity. Qed.

(** X19. The sample data of the charts, when [Math.random] gives Numbers in
    [0, 1): 12 points with [time] 0 to 11; at every point [executions] is a
    whole number from 10 to 29, [success_rate] lies in [80, 95] and
    [avg_time] in [2, 5]; the random source is read 36 times. *)
Theorem chartData_ranges w :
  (forall j, Number.unit_interval (random w j) /\ is_Number (random w j)) ->
  exists pts,
    fst (MetricsDashboard.chartData w) = Normal pts /\
    map MetricsDashboard.time pts = map (fun j => inject_Z (Z.of_nat j)) (seq 0 12) /\
    Forall point_in_range pts /\
    random_reads (snd (MetricsDashboard.chartData w)) = random_reads w + 36.
Proof.
  intros H. destruct (Array_from_point 12 0 w H) as (pts & Hrun & Ht & Hr).
  exists pts. unfold MetricsDashboard.chartData. rewrite Hrun. cbn [fst snd random_reads].
  auto.
Qed.

Lemma chartData_ranges_witness :
  (forall j, Number.unit_interval (random world_ok j) /\ is_Number (random world_ok j)) /\
  exists pts,
    fst (MetricsDashboard.chartData world_ok) = Normal pts /\
    map MetricsDashboard.time pts = map (fun j => inject_Z (Z.of_nat j)) (seq 0 12) /\
    Forall point_in_range pts /\
    random_reads (snd (MetricsDashboard.chartData world_ok)) = random_reads world_ok + 36.
Proof.
  assert (H : forall j, Number.unit_interval (random world_ok j) /\
                        is_Number (random world_ok j)).
  { intros j. split; [split |]; vm_compute; [discriminate | reflexivity | reflexivity]. }
  split; [exact H |]. apply (chartData_ranges world_ok H).
Defined.

(** With the largest Number below 1 the point has 29 executions, a success
    rate of 95 and an average time of 5. *)
Example chart_point_at_pred_one :
  let p := {| MetricsDashboard.time := 0;
              MetricsDashboard.executions :=
                Number.add (Math_floor (Number.mul Number.pred_one 20)) 10;
              MetricsDashboard.success_rate :=
                Number.add 80 (Number.mul Number.pred_one 15);
              MetricsDashboard.avg_time :=
                Number.add 2 (Number.mul Number.pred_one 3) |} in
  (MetricsDashboard.executions p == 29)%Q /\
  (MetricsDashboard.success_rate p == 95)%Q /\
  (MetricsDashboard.avg_time p == 5)%Q.
Proof. vm_compute. auto. Qed.

(** ** The drawing, the times and the task definitions *)

(** X20. The drawing of a DAG with the record of a run of another DAG, none
    of whose task ids it shares (as for the two DAGs of the catalogue):
    every node is grey (pending), however the run ended and whatever the
    callbacks did. *)
Theorem pending_for_another_dag code dag shown w :
  (forall t, In t (d_tasks shown) -> ~ In (t_id t) (map t_id (d_tasks dag))) ->
  fills (DAGVisualizer.draw shown (Some (execution (snd (executeDAG code dag w)))))
  = repeat grey (length (d_tasks shown)).
Proof.
  intros H. rewrite fills_draw. apply fills_pending.
  intros t Hin Hk. apply (H t Hin). apply (executeDAG_keys code dag w), Hk.
Qed.

Lemma pending_for_another_dag_witness :
  (forall t, In t (d_tasks ml_pipeline) -> ~ In (t_id t) (map t_id (d_tasks data_pipeline))) /\
  fills (DAGVisualizer.draw ml_pipeline
           (Some (execution (snd (executeDAG silent_code data_pipeline world_fail)))))
  = repeat grey (length (d_tasks ml_pipeline)).
Proof.
  assert (H : forall t, In t (d_tasks ml_pipeline) ->
                        ~ In (t_id t) (map t_id (d_tasks data_pipeline))).
  { intros t Hin. cbn in Hin.
    destruct Hin as [<- | [<- | [<- | [<- | []]]]]; cbn; intuition discriminate. }
  split; [exact H |].
  apply (pending_for_another_dag silent_code data_pipeline ml_pipeline world_fail H).
Defined.



(** X22. The engine reads nothing of a task but its id: a run of a DAG whose
    tasks have other names, types and retry counts is the same computation,
    and every task record of a run has [retries] 0, whatever the DAG
    declares and whatever the callbacks do. *)
Theorem engine_reads_ids_only code f dag w :
  executeDAG code (with_task_details f dag) w = executeDAG code dag w /\
  Forall (fun te => te_retries te = 0%Z)
         (values (ex_tasks (execution (snd (executeDAG code dag w))))).
Proof.
  split; [| apply executeDAG_retries].
  unfold executeDAG. cbn [with_task_details d_id d_tasks].
  rewrite (for_tasks_ids code _ (d_tasks dag)); [reflexivity |].
  rewrite map_map. cbn. reflexivity.
Qed.
